(** * GuineaGames: genetics and valuation engine

    A shallow embedding of [backend/genetics.py] and [backend/pricing.py]
    (with the table definitions of [backend/models.py]) and the properties
    of the engine proved over it.

    Conventions of the embedding:
    - a Python [str] is a [string]; a character is a code point below 256;
    - a Python [int] is a [Z];
    - a Python [float] is an IEEE-754 binary64 value, a [spec_float] handled
      with the operations of [SpecFloat] at precision 53, [emax] 1024;
    - a call that may raise returns a [result];
    - a [dict] keyed by strings and compared by content is a [gmap]; a dict
      whose insertion order is observed is an association list;
    - the SQLAlchemy session is a record of tables; a relationship attribute
      ([pg.gene], [pg.allele1]) is a lookup by primary key that yields [None]
      when the row is missing;
    - the calls to [random] take their draws as arguments. *)

From Stdlib Require Import ZArith Bool Ascii String Lia.
From Stdlib Require Import SpecFloat.
From stdpp Require Import base option list gmap strings.

Local Open Scope Z_scope.

(* ===================================================================== *)
(** * Python primitives *)
(* ===================================================================== *)

Module Py.

(** The built-in exceptions the engine can raise. *)
Inductive exception : Type :=
| ValueError
| IndexError
| AttributeError
| OverflowError
| ZeroDivisionError.

Inductive result (A : Type) : Type :=
| Ok (a : A)
| Raise (e : exception).
Arguments Ok {A} a.
Arguments Raise {A} e.

Definition bind {A B : Type} (m : result A) (k : A -> result B) : result B :=
  match m with
  | Ok a => k a
  | Raise e => Raise e
  end.

Definition is_ok {A : Type} (m : result A) : bool :=
  match m with Ok _ => true | Raise _ => false end.

(** Attribute access on an object that may be [None]. *)
Definition attr {A : Type} (o : option A) : result A :=
  match o with
  | Some a => Ok a
  | None => Raise AttributeError
  end.

(** ** Strings *)

(** [sep in s] for a one-character [sep]. *)
Fixpoint contains (sep : ascii) (s : string) : bool :=
  match s with
  | EmptyString => false
  | String c s' => if Ascii.eqb c sep then true else contains sep s'
  end.

(** [s.count(sep)] for a one-character [sep]. *)
Fixpoint count (sep : ascii) (s : string) : Z :=
  match s with
  | EmptyString => 0
  | String c s' => (if Ascii.eqb c sep then 1 else 0) + count sep s'
  end.

(** [needle in hay] for an arbitrary [needle]. *)
Fixpoint str_in (needle hay : string) : bool :=
  if String.prefix needle hay then true
  else match hay with
       | EmptyString => false
       | String _ hay' => str_in needle hay'
       end.

(** [s.split(sep)] for a one-character [sep]: the pieces between the
    occurrences of [sep]; always at least one piece. *)
Fixpoint split (sep : ascii) (s : string) : list string :=
  match s with
  | EmptyString => [EmptyString]
  | String c s' =>
      if Ascii.eqb c sep then EmptyString :: split sep s'
      else match split sep s' with
           | [] => [String c EmptyString]
           | piece :: pieces => String c piece :: pieces
           end
  end.

(** [sep.join(l)]. *)
Fixpoint join (sep : string) (l : list string) : string :=
  match l with
  | [] => EmptyString
  | x :: rest =>
      match rest with
      | [] => x
      | _ :: _ => x +:+ sep +:+ join sep rest
      end
  end.

(** [list(s)]: the characters of [s], each a one-character string. *)
Fixpoint chars (s : string) : list string :=
  match s with
  | EmptyString => []
  | String c s' => String c EmptyString :: chars s'
  end.

(** [l[i]]. *)
Definition index {A : Type} (l : list A) (i : nat) : result A :=
  match l !! i with
  | Some a => Ok a
  | None => Raise IndexError
  end.

(** [str.isspace] on one code point below 256. *)
Definition isspace (c : ascii) : bool :=
  let n := N_of_ascii c in
  ((9 <=? n) && (n <=? 13) || (28 <=? n) && (n <=? 32)
   || (n =? 133) || (n =? 160))%N.

Fixpoint lstrip (s : string) : string :=
  match s with
  | EmptyString => EmptyString
  | String c s' => if isspace c then lstrip s' else s
  end.

(** [s.strip()]. *)
Definition strip (s : string) : string :=
  String.rev (lstrip (String.rev (lstrip s))).

(** [str.lower] on the ASCII letters. *)
Definition lower_char (c : ascii) : ascii :=
  let n := N_of_ascii c in
  if ((65 <=? n) && (n <=? 90))%N then ascii_of_N (n + 32) else c.

Fixpoint lower (s : string) : string :=
  match s with
  | EmptyString => EmptyString
  | String c s' => String (lower_char c) (lower s')
  end.

(** [sorted([a, b])]: the sort is stable, so the pair is swapped only
    when [b < a]. *)
Definition sorted2 (a b : string) : list string :=
  if String.ltb b a then [b; a] else [a; b].

(** ** Floats *)

Definition prec : Z := 53.
Definition emax : Z := 1024.

Definition float : Type := spec_float.

(** The float nearest to [m * 2^e] (ties to even). *)
Definition float_of_scaled (m e : Z) : float :=
  binary_normalize prec emax m e false.

Definition fadd : float -> float -> float := SFadd prec emax.
Definition fmul : float -> float -> float := SFmul prec emax.
Definition fdiv : float -> float -> float := SFdiv prec emax.

(** [x >= y] on floats. *)
Definition fge (x y : float) : bool := SFleb y x.

(** A small integer literal used in a float expression. *)
Definition flit (n : Z) : float := float_of_scaled n 0.

(** A decimal literal [a/b], correctly rounded. *)
Definition fdec (a b : Z) : float := fdiv (flit a) (flit b).

(** Conversion of an [int] operand to [float]. *)
Definition float_of_int (n : Z) : result float :=
  match float_of_scaled n 0 with
  | S754_infinity _ => Raise OverflowError
  | f => Ok f
  end.

(** [a / b] on two [int]s: true division, the quotient correctly rounded
    (ties to even). *)
Definition truediv (a b : Z) : result float :=
  if b =? 0 then Raise ZeroDivisionError
  else if a =? 0 then Ok (S754_zero (b <? 0))
  else
    let '(q, e, l) :=
      SFdiv_core_binary prec emax (Z.abs a) 0 (Z.abs b) 0 in
    match binary_round_aux prec emax (xorb (a <? 0) (b <? 0)) q e l with
    | S754_infinity _ => Raise OverflowError
    | f => Ok f
    end.

(** [int(x)] on a float: truncation toward zero. *)
Definition int_of_float (x : float) : result Z :=
  match x with
  | S754_zero _ => Ok 0
  | S754_infinity _ => Raise OverflowError
  | S754_nan => Raise ValueError
  | S754_finite s m e =>
      let a := match e with
               | Zneg p => Z.shiftr (Zpos m) (Zpos p)
               | _ => Z.shiftl (Zpos m) e
               end in
      Ok (if s then - a else a)
  end.

(** [round(x)] on a float: the nearest integer, ties to even. *)
Definition round_float (x : float) : result Z :=
  match x with
  | S754_zero _ => Ok 0
  | S754_infinity _ => Raise OverflowError
  | S754_nan => Raise ValueError
  | S754_finite s m e =>
      let a := match e with
               | Zneg p =>
                   let q := Z.shiftr (Zpos m) (Zpos p) in
                   let r := Zpos m - Z.shiftl q (Zpos p) in
                   match Z.compare (2 * r) (Z.shiftl 1 (Zpos p)) with
                   | Lt => q
                   | Gt => q + 1
                   | Eq => if Z.even q then q else q + 1
                   end
               | _ => Z.shiftl (Zpos m) e
               end in
      Ok (if s then - a else a)
  end.

End Py.

Import Py.

#[global] Instance result_ret : MRet result := @Ok.
#[global] Instance result_bind : MBind result := fun A B k m => bind m k.

Local Open Scope stdpp_scope.

(* ===================================================================== *)
(** * models.py: the tables the engine reads and writes *)
(* ===================================================================== *)

Module models.

Record Gene : Type := {
  gene_id : Z;
  gene_name : string;
  gene_trait : string;
  gene_description : option string;
  default_allele_id : option Z
}.

Record Allele : Type := {
  allele_id : Z;
  allele_gene_id : Z;
  allele_name : string;
  symbol : string;
  dominance_level : Z;
  effect_value : Z;
  allele_description : option string
}.

(** A [PetGenetics] instance as the session hands it out: the columns and
    the three relationship attributes, [None] where the referenced row
    does not exist. *)
Record PetGenetics : Type := {
  pg_id : Z;
  pet_id : Z;
  pg_gene_id : Z;
  allele1_id : Z;
  allele2_id : Z;
  gene : option Gene;
  allele1 : option Allele;
  allele2 : option Allele
}.

Record Pet : Type := {
  id : Z;
  owner_id : Z;
  name : string;
  species : string;
  color : string;
  color_phenotype : option string;
  hair_type : string;
  age_days : Z;
  health : Z;
  happiness : Z;
  hunger : Z;
  cleanliness : Z;
  points : Z;
  genetic_code : option string;
  speed : Z;
  endurance : Z;
  rarity_score : Z;
  rarity_tier : option string;
  market_value : Z;
  for_sale : Z;
  asking_price : option Z
}.

Definition set_genetic_code (v : option string) (p : Pet) : Pet :=
  {| id := id p; owner_id := owner_id p; name := name p;
     species := species p; color := color p;
     color_phenotype := color_phenotype p; hair_type := hair_type p;
     age_days := age_days p; health := health p;
     happiness := happiness p; hunger := hunger p;
     cleanliness := cleanliness p; points := points p;
     genetic_code := v; speed := speed p; endurance := endurance p;
     rarity_score := rarity_score p; rarity_tier := rarity_tier p;
     market_value := market_value p; for_sale := for_sale p;
     asking_price := asking_price p |}.

Definition set_speed (v : Z) (p : Pet) : Pet :=
  {| id := id p; owner_id := owner_id p; name := name p;
     species := species p; color := color p;
     color_phenotype := color_phenotype p; hair_type := hair_type p;
     age_days := age_days p; health := health p;
     happiness := happiness p; hunger := hunger p;
     cleanliness := cleanliness p; points := points p;
     genetic_code := genetic_code p; speed := v; endurance := endurance p;
     rarity_score := rarity_score p; rarity_tier := rarity_tier p;
     market_value := market_value p; for_sale := for_sale p;
     asking_price := asking_price p |}.

Definition set_endurance (v : Z) (p : Pet) : Pet :=
  {| id := id p; owner_id := owner_id p; name := name p;
     species := species p; color := color p;
     color_phenotype := color_phenotype p; hair_type := hair_type p;
     age_days := age_days p; health := health p;
     happiness := happiness p; hunger := hunger p;
     cleanliness := cleanliness p; points := points p;
     genetic_code := genetic_code p; speed := speed p; endurance := v;
     rarity_score := rarity_score p; rarity_tier := rarity_tier p;
     market_value := market_value p; for_sale := for_sale p;
     asking_price := asking_price p |}.

Definition set_rarity_score (v : Z) (p : Pet) : Pet :=
  {| id := id p; owner_id := owner_id p; name := name p;
     species := species p; color := color p;
     color_phenotype := color_phenotype p; hair_type := hair_type p;
     age_days := age_days p; health := health p;
     happiness := happiness p; hunger := hunger p;
     cleanliness := cleanliness p; points := points p;
     genetic_code := genetic_code p; speed := speed p;
     endurance := endurance p;
     rarity_score := v; rarity_tier := rarity_tier p;
     market_value := market_value p; for_sale := for_sale p;
     asking_price := asking_price p |}.

Definition set_rarity_tier (v : option string) (p : Pet) : Pet :=
  {| id := id p; owner_id := owner_id p; name := name p;
     species := species p; color := color p;
     color_phenotype := color_phenotype p; hair_type := hair_type p;
     age_days := age_days p; health := health p;
     happiness := happiness p; hunger := hunger p;
     cleanliness := cleanliness p; points := points p;
     genetic_code := genetic_code p; speed := speed p;
     endurance := endurance p;
     rarity_score := rarity_score p; rarity_tier := v;
     market_value := market_value p; for_sale := for_sale p;
     asking_price := asking_price p |}.

Definition set_market_value (v : Z) (p : Pet) : Pet :=
  {| id := id p; owner_id := owner_id p; name := name p;
     species := species p; color := color p;
     color_phenotype := color_phenotype p; hair_type := hair_type p;
     age_days := age_days p; health := health p;
     happiness := happiness p; hunger := hunger p;
     cleanliness := cleanliness p; points := points p;
     genetic_code := genetic_code p; speed := speed p;
     endurance := endurance p;
     rarity_score := rarity_score p; rarity_tier := rarity_tier p;
     market_value := v; for_sale := for_sale p;
     asking_price := asking_price p |}.

Definition set_color_phenotype (v : option string) (p : Pet) : Pet :=
  {| id := id p; owner_id := owner_id p; name := name p;
     species := species p; color := color p;
     color_phenotype := v; hair_type := hair_type p;
     age_days := age_days p; health := health p;
     happiness := happiness p; hunger := hunger p;
     cleanliness := cleanliness p; points := points p;
     genetic_code := genetic_code p; speed := speed p;
     endurance := endurance p;
     rarity_score := rarity_score p; rarity_tier := rarity_tier p;
     market_value := market_value p; for_sale := for_sale p;
     asking_price := asking_price p |}.

Definition set_hair_type (v : string) (p : Pet) : Pet :=
  {| id := id p; owner_id := owner_id p; name := name p;
     species := species p; color := color p;
     color_phenotype := color_phenotype p; hair_type := v;
     age_days := age_days p; health := health p;
     happiness := happiness p; hunger := hunger p;
     cleanliness := cleanliness p; points := points p;
     genetic_code := genetic_code p; speed := speed p;
     endurance := endurance p;
     rarity_score := rarity_score p; rarity_tier := rarity_tier p;
     market_value := market_value p; for_sale := for_sale p;
     asking_price := asking_price p |}.

End models.

Import models.

(* ===================================================================== *)
(** * genetics.py: Punnett squares *)
(* ===================================================================== *)

Module PunnettSquare.

(** The dictionary [calculate] returns. *)
Record square : Type := {
  punnett_square : list (list string);
  possible_offspring : list string;
  probabilities : list (string * float);
  offspring_genotypes : list string
}.

(** The dictionary [get_phenotype] returns; the keys ["genotype"] and
    ["is_pure"] exist on the coat-colour paths only. *)
Record phenotype_info : Type := {
  phenotype : string;
  genotype : option string;
  info_effect_value : Z;
  inheritance_type : string;
  is_pure : option bool
}.

(** [genotype_counts[genotype] = genotype_counts.get(genotype, 0) + 1]
    on a dict that keeps its insertion order. *)
Fixpoint count_up (genotype : string) (genotype_counts : list (string * Z))
  : list (string * Z) :=
  match genotype_counts with
  | [] => [(genotype, 1)]
  | (k, n) :: rest =>
      if String.eqb k genotype then (k, n + 1) :: rest
      else (k, n) :: count_up genotype rest
  end.

(** One cell: ["".join(tuple(sorted([p1_allele, p2_allele])))]. *)
Definition cell (p1_allele p2_allele : string) : string :=
  join "" (sorted2 p1_allele p2_allele).

Definition calculate (parent1_alleles parent2_alleles : string * string)
  : result square :=
  let p1_alleles := [parent1_alleles.1; parent1_alleles.2] in
  let p2_alleles := [parent2_alleles.1; parent2_alleles.2] in
  let punnett_grid :=
    map (fun p1_allele => map (fun p2_allele => cell p1_allele p2_allele)
                            p2_alleles) p1_alleles in
  let offspring_genotypes := concat punnett_grid in
  let genotype_counts :=
    foldl (fun counts genotype => count_up genotype counts)
          [] offspring_genotypes in
  probabilities ←
    mapM (fun gc : string * Z =>
            share ← truediv gc.2 (Z.of_nat (length offspring_genotypes));
            mret (gc.1, fmul share (flit 100)))
         genotype_counts;
  mret {| punnett_square := punnett_grid;
          possible_offspring := map fst genotype_counts;
          probabilities := probabilities;
          offspring_genotypes := offspring_genotypes |}.

(** [dominance_order.get(sym, 0)]. *)
Definition dominance_order (sym : string) : Z :=
  if String.eqb sym "B" then 3
  else if String.eqb sym "O" then 2
  else if String.eqb sym "W" then 1
  else 0.

Definition get_phenotype (allele1 allele2 : Allele)
  (gene_name : option string) : result phenotype_info :=
  if bool_decide (gene_name = Some "coat_color") then
    let a1_sym := symbol allele1 in
    let a2_sym := symbol allele2 in
    let a1_dom := dominance_order a1_sym in
    let a2_dom := dominance_order a2_sym in
    if String.eqb a1_sym a2_sym then
      mret {| phenotype := allele_name allele1 +:+ " (pure)";
              genotype := Some (a1_sym +:+ a2_sym);
              info_effect_value := effect_value allele1;
              inheritance_type := "homozygous";
              is_pure := Some true |}
    else
      avg_effect ← truediv (effect_value allele1 + effect_value allele2) 2;
      let dominant := if a2_dom <? a1_dom then allele1 else allele2 in
      let recessive := if a2_dom <? a1_dom then allele2 else allele1 in
      effect ← int_of_float avg_effect;
      mret {| phenotype :=
                allele_name dominant +:+ "-" +:+ allele_name recessive
                +:+ " mix";
              genotype := Some (join "" (sorted2 a1_sym a2_sym));
              info_effect_value := effect;
              inheritance_type := "heterozygous";
              is_pure := Some false |}
  else if dominance_level allele2 <? dominance_level allele1 then
    mret {| phenotype := symbol allele1;
            genotype := None;
            info_effect_value := effect_value allele1;
            inheritance_type := "dominant";
            is_pure := None |}
  else if dominance_level allele1 <? dominance_level allele2 then
    mret {| phenotype := symbol allele2;
            genotype := None;
            info_effect_value := effect_value allele2;
            inheritance_type := "dominant";
            is_pure := None |}
  else
    avg_effect ← truediv (effect_value allele1 + effect_value allele2) 2;
    effect ← int_of_float avg_effect;
    mret {| phenotype := symbol allele1 +:+ "/" +:+ symbol allele2;
            genotype := None;
            info_effect_value := effect;
            inheritance_type := "co-dominant";
            is_pure := None |}.

End PunnettSquare.

(* ===================================================================== *)
(** * genetics.py: the genetic code *)
(* ===================================================================== *)

Module GeneticCode.

(** [f"{pg.gene.name}:{pg.allele1.symbol}-{pg.allele2.symbol}"]. *)
Definition encode_entry (pg : PetGenetics) : result string :=
  g ← attr (gene pg);
  a1 ← attr (allele1 pg);
  a2 ← attr (allele2 pg);
  mret (gene_name g +:+ ":" +:+ symbol a1 +:+ "-" +:+ symbol a2).

Definition encode (pet_genetics : list PetGenetics) : result string :=
  genetic_codes ← mapM encode_entry pet_genetics;
  mret (join ";" genetic_codes).

(** The body of the loop of [decode] over the segments still to read;
    each of the two tuple assignments raises [ValueError] unless its
    [split] yields exactly two pieces. *)
Fixpoint decode_segments (segments : list string)
  (genes : gmap string (string * string))
  : result (gmap string (string * string)) :=
  match segments with
  | [] => mret genes
  | gene_pair :: rest =>
      if contains ":"%char gene_pair then
        match split ":"%char gene_pair with
        | [gene_name; alleles] =>
            match split "-"%char alleles with
            | [allele1; allele2] =>
                decode_segments rest
                  (<[gene_name := (allele1, allele2)]> genes)
            | _ => Raise ValueError
            end
        | _ => Raise ValueError
        end
      else decode_segments rest genes
  end.

Definition decode (genetic_code : string)
  : result (gmap string (string * string)) :=
  decode_segments (split ";"%char genetic_code) ∅.

End GeneticCode.

(* ===================================================================== *)
(** * pricing.py: rarity and market value *)
(* ===================================================================== *)

Module RarityCalculator.

(** The dictionary [get_coat_phenotype] returns. *)
Record coat_info : Type := {
  coat_phenotype : string;
  coat_genotype : string;
  coat_is_pure : bool;
  coat_rarity_bonus : Z
}.

(** The dictionary [get_hair_type] returns. *)
Record hair_info : Type := {
  hair_kind : string;
  hair_genotype : string;
  is_fluffy : bool;
  hair_rarity_bonus : Z
}.

(** The dictionary [calculate_and_store_valuation] returns. *)
Record valuation : Type := {
  v_rarity_score : Z;
  v_rarity_tier : option string;
  v_market_value : Z;
  v_coat_color : string;
  v_hair_type : string;
  v_speed : Z;
  v_endurance : Z
}.

(** [x or d] on a nullable string. *)
Definition or_else (x : option string) (d : string) : string :=
  match x with
  | Some (String c s) => String c s
  | _ => d
  end.

(** [not x] on a nullable string. *)
Definition falsy (x : option string) : bool :=
  match x with
  | Some (String _ _) => false
  | _ => true
  end.

Fixpoint parse_segments (segments : list string) (genes : gmap string string)
  : result (gmap string string) :=
  match segments with
  | [] => mret genes
  | gene_pair :: rest =>
      if contains ":"%char gene_pair then
        match split ":"%char gene_pair with
        | [gene_name; alleles] =>
            parse_segments rest (<[strip gene_name := strip alleles]> genes)
        | _ => Raise ValueError
        end
      else parse_segments rest genes
  end.

Definition parse_genetic_code (genetic_code : string)
  : result (gmap string string) :=
  match genetic_code with
  | EmptyString => mret ∅
  | _ => parse_segments (split ";"%char genetic_code) ∅
  end.

(** [dominance.get(allele, 0)]. *)
Definition dominance (allele : string) : Z :=
  if String.eqb allele "B" then 3
  else if String.eqb allele "O" then 2
  else if String.eqb allele "W" then 1
  else 0.

(** [color_names.get(allele, 'Unknown')]. *)
Definition color_names (allele : string) : string :=
  if String.eqb allele "B" then "Brown"
  else if String.eqb allele "O" then "Orange"
  else if String.eqb allele "W" then "White"
  else "Unknown".

Definition get_coat_phenotype (genetic_code : string) : result coat_info :=
  genes ← parse_genetic_code genetic_code;
  let coat_genotype := default "WW" (genes !! "coat_color") in
  allele1 ← index (chars coat_genotype) 0;
  allele2 ← index (chars coat_genotype) 1;
  let dom1 := dominance allele1 in
  let dom2 := dominance allele2 in
  if String.eqb allele1 allele2 then
    mret {| coat_phenotype := color_names allele1 +:+ " (pure)";
            coat_genotype := coat_genotype;
            coat_is_pure := true;
            coat_rarity_bonus := 5 |}
  else
    let dominant := if dom2 <? dom1 then allele1 else allele2 in
    let recessive := if dom2 <? dom1 then allele2 else allele1 in
    mret {| coat_phenotype :=
              color_names dominant +:+ "-" +:+ color_names recessive
              +:+ " mix";
            coat_genotype := coat_genotype;
            coat_is_pure := false;
            coat_rarity_bonus := 2 |}.

Definition get_hair_type (genetic_code : string) : result hair_info :=
  genes ← parse_genetic_code genetic_code;
  let hair_genotype := default "HH" (genes !! "hair_length") in
  let is_fluffy :=
    contains "h"%char hair_genotype && (1 <=? count "h"%char hair_genotype) in
  let is_homozygous_recessive := String.eqb hair_genotype "hh" in
  mret {| hair_kind := if is_fluffy then "fluffy" else "short";
          hair_genotype := hair_genotype;
          is_fluffy := is_fluffy;
          hair_rarity_bonus :=
            if is_homozygous_recessive then 3
            else if is_fluffy then 1 else 0 |}.

Definition calculate_rarity_score (pet : Pet) : result Z :=
  let score := 0 in
  if falsy (genetic_code pet) then mret score
  else
    let code := or_else (genetic_code pet) "" in
    genes ← parse_genetic_code code;
    coat_info ← get_coat_phenotype code;
    let score := score + coat_rarity_bonus coat_info in
    hair_info ← get_hair_type code;
    let score := score + hair_rarity_bonus hair_info in
    let speed_genotype := default "Ff" (genes !! "speed") in
    let endurance_genotype := default "Ee" (genes !! "endurance") in
    let score :=
      if String.eqb speed_genotype "FF" || String.eqb speed_genotype "ff"
      then score + 2 else score + 1 in
    let score :=
      if String.eqb endurance_genotype "EE"
         || String.eqb endurance_genotype "ee"
      then score + 2 else score + 1 in
    stat_avg ← truediv (speed pet + endurance pet) 2;
    let score :=
      if fge stat_avg (flit 80) then score + 5
      else if fge stat_avg (flit 70) then score + 3
      else if fge stat_avg (flit 60) then score + 1
      else score in
    mret score.

Definition get_rarity_tier (rarity_score : Z) : string :=
  if 16 <=? rarity_score then "Legendary"
  else if 11 <=? rarity_score then "Rare"
  else if 6 <=? rarity_score then "Uncommon"
  else "Common".

(** [base_prices.get(tier, 100)]. *)
Definition base_prices (tier : string) : Z :=
  if String.eqb tier "Common" then 100
  else if String.eqb tier "Uncommon" then 500
  else if String.eqb tier "Rare" then 2000
  else if String.eqb tier "Legendary" then 10000
  else 100.

(** Lines 199-232 of [calculate_market_value]: the price of a pet whose
    rarity fields are settled; the pet is only read. *)
Definition price (pet : Pet) : result Z :=
  let tier := or_else (rarity_tier pet) "Common" in
  let base_price := base_prices tier in
  stat_avg ← truediv (speed pet + endurance pet) 2;
  let stat_multiplier :=
    fadd (fdec 1 2) (fmul (fdiv stat_avg (flit 100)) (fdec 3 2)) in
  coat_info ← get_coat_phenotype (or_else (genetic_code pet) "");
  let color_multiplier :=
    if coat_is_pure coat_info then fdec 3 2 else flit 1 in
  hair_info ← get_hair_type (or_else (genetic_code pet) "");
  let hair_multiplier :=
    if is_fluffy hair_info then fdec 13 10 else flit 1 in
  base ← float_of_int base_price;
  price ←
    int_of_float
      (fmul (fmul (fmul base stat_multiplier) color_multiplier)
            hair_multiplier);
  mret (Z.max price 50).

(** Lines 194-197 of [calculate_market_value]: the rarity fields are
    computed when the score is still 0.  The two assignments happen
    together or, when [calculate_rarity_score] raises, not at all. *)
Definition refresh_rarity (pet : Pet) : result Pet :=
  if rarity_score pet =? 0 then
    score ← calculate_rarity_score pet;
    let pet := set_rarity_score score pet in
    mret (set_rarity_tier (Some (get_rarity_tier (rarity_score pet))) pet)
  else mret pet.

(** [calculate_market_value(pet, db)]: the value returned or the exception
    raised, and the pet object as the call leaves it. *)
Definition calculate_market_value (pet : Pet) : result Z * Pet :=
  match refresh_rarity pet with
  | Raise e => (Raise e, pet)
  | Ok pet => (price pet, pet)
  end.

(** [calculate_and_store_valuation(pet, db)]: as above, the pet object is
    returned in the state the call leaves it in. *)
Definition calculate_and_store_valuation (pet : Pet)
  : result valuation * Pet :=
  match calculate_rarity_score pet with
  | Raise e => (Raise e, pet)
  | Ok score =>
      let pet := set_rarity_score score pet in
      let pet := set_rarity_tier (Some (get_rarity_tier (rarity_score pet)))
                                 pet in
      match calculate_market_value pet with
      | (Raise e, pet) => (Raise e, pet)
      | (Ok value, pet) =>
          let pet := set_market_value value pet in
          match get_coat_phenotype (or_else (genetic_code pet) "") with
          | Raise e => (Raise e, pet)
          | Ok coat_info =>
              match get_hair_type (or_else (genetic_code pet) "") with
              | Raise e => (Raise e, pet)
              | Ok hair_info =>
                  let pet :=
                    set_color_phenotype (Some (coat_phenotype coat_info))
                                        pet in
                  let pet := set_hair_type (hair_kind hair_info) pet in
                  (Ok {| v_rarity_score := rarity_score pet;
                         v_rarity_tier := rarity_tier pet;
                         v_market_value := market_value pet;
                         v_coat_color := coat_phenotype coat_info;
                         v_hair_type := hair_kind hair_info;
                         v_speed := speed pet;
                         v_endurance := endurance pet |}, pet)
              end
          end
      end
  end.

End RarityCalculator.

(* ===================================================================== *)
(** * The SQLAlchemy session *)
(* ===================================================================== *)

Module db.

(** A row of the table [pet_genetics]. *)
Record pet_genetics_row : Type := {
  row_id : Z;
  row_pet_id : Z;
  row_gene_id : Z;
  row_allele1_id : Z;
  row_allele2_id : Z
}.

(** One entry of the list [punnett_squares] that [breed] builds. *)
Record punnett_entry : Type := {
  entry_gene_name : string;
  parent1_genotype : string;
  parent2_genotype : string;
  entry_possible_offspring : list string;
  entry_probabilities : list (string * float);
  entry_punnett_square : list (list string);
  offspring_genotype : string
}.

(** A row of the table [offspring]; [punnett_square_data] holds the list
    that the source serialises with [json.dumps], [breeding_date] is left
    out. *)
Record Offspring : Type := {
  parent1_id : Z;
  parent2_id : Z;
  child_id : Z;
  punnett_square_data : list punnett_entry;
  inheritance_notes : string
}.

(** The tables as the session sees them, flushed rows included. *)
Record Session : Type := {
  genes : list Gene;
  alleles : list Allele;
  pet_genetics : list pet_genetics_row;
  pets : list Pet;
  offspring : list Offspring
}.

(** The primary key given to a new row: one above the largest in use. *)
Definition fresh_id (ids : list Z) : Z := 1 + foldr Z.max 0 ids.

(** The instance for a row, its relationships resolved by primary key. *)
Definition load (s : Session) (r : pet_genetics_row) : PetGenetics :=
  {| pg_id := row_id r;
     pet_id := row_pet_id r;
     pg_gene_id := row_gene_id r;
     allele1_id := row_allele1_id r;
     allele2_id := row_allele2_id r;
     gene := List.find (fun g => gene_id g =? row_gene_id r) (genes s);
     allele1 :=
       List.find (fun a => allele_id a =? row_allele1_id r) (alleles s);
     allele2 :=
       List.find (fun a => allele_id a =? row_allele2_id r) (alleles s) |}.

(** [db.query(models.PetGenetics).filter(
       models.PetGenetics.pet_id == pet_id).all()]. *)
Definition query_pet_genetics (s : Session) (pet_id : Z)
  : list PetGenetics :=
  map (load s)
      (List.filter (fun r => row_pet_id r =? pet_id) (pet_genetics s)).

(** [db.query(models.Allele).filter(models.Allele.gene_id == gene_id,
       models.Allele.symbol == sym).first()]. *)
Definition query_allele (s : Session) (gene_id : Z) (sym : string)
  : option Allele :=
  List.find (fun a => (allele_gene_id a =? gene_id)
                      && String.eqb (symbol a) sym) (alleles s).

(** [db.add(offspring); db.flush()]: the pet receives its primary key. *)
Definition add_pet (s : Session) (p : Pet) : Session :=
  {| genes := genes s; alleles := alleles s;
     pet_genetics := pet_genetics s;
     pets := pets s ++ [p];
     offspring := offspring s |}.

(** [db.add(pet_genetics)] followed by the flush of the next query: the
    session is taken to autoflush, as a SQLAlchemy session does unless it
    is made otherwise, so that the query that follows sees the row.  On a
    session made with [autoflush=False] that query would see none of the
    pending rows. *)
Definition add_pet_genetics (s : Session) (pet_id gene_id a1 a2 : Z)
  : Session :=
  {| genes := genes s; alleles := alleles s;
     pet_genetics :=
       pet_genetics s ++
         [{| row_id := fresh_id (map row_id (pet_genetics s));
             row_pet_id := pet_id; row_gene_id := gene_id;
             row_allele1_id := a1; row_allele2_id := a2 |}];
     pets := pets s;
     offspring := offspring s |}.

Definition add_offspring (s : Session) (o : Offspring) : Session :=
  {| genes := genes s; alleles := alleles s;
     pet_genetics := pet_genetics s;
     pets := pets s;
     offspring := offspring s ++ [o] |}.

(** The flush of a pet already in the session: its row takes the values
    of the object. *)
Definition update_pet (s : Session) (p : Pet) : Session :=
  {| genes := genes s; alleles := alleles s;
     pet_genetics := pet_genetics s;
     pets := map (fun q => if id q =? id p then p else q) (pets s);
     offspring := offspring s |}.

End db.

Import db.

(* ===================================================================== *)
(** * genetics.py: breeding and stats *)
(* ===================================================================== *)

Module BreedingEngine.

(** The three accumulators of the loop of [breed]; [offspring_alleles] is
    a dict keyed by gene id whose insertion order is iterated later. *)
Record crossing : Type := {
  punnett_squares : list punnett_entry;
  offspring_alleles : list (Z * (Allele * Allele));
  inheritance_notes_acc : list string
}.

(** [d[k] = v] on a dict that keeps its insertion order. *)
Fixpoint dict_set {V : Type} (k : Z) (v : V) (d : list (Z * V))
  : list (Z * V) :=
  match d with
  | [] => [(k, v)]
  | (k', v') :: rest =>
      if k' =? k then (k, v) :: rest else (k', v') :: dict_set k v rest
  end.

(** [random.choice(l)] with the draw [n]. *)
Definition choice {A : Type} (l : list A) (n : nat) : result A :=
  index l (n mod length l)%nat.

(** [gene_stat_mapping]. *)
Definition speed_traits : list string := ["speed"; "agility"; "movement"].
Definition endurance_traits : list string :=
  ["endurance"; "stamina"; "energy"].

(** [any(trait in gene_trait for trait in trait_names)]. *)
Definition any_in (trait_names : list string) (gene_trait : string) : bool :=
  existsb (fun trait => str_in trait gene_trait) trait_names.

(** The loop of [update_stats_from_genetics] over the rows still to read,
    with the two entries of [stat_modifiers]. *)
Fixpoint stat_modifiers (pet_genetics : list PetGenetics)
  (speed_mod endurance_mod : Z) : result (Z * Z) :=
  match pet_genetics with
  | [] => mret (speed_mod, endurance_mod)
  | pg :: rest =>
      g ← attr (gene pg);
      let gene_trait := lower (gene_name g) in
      a1 ← attr (allele1 pg);
      a2 ← attr (allele2 pg);
      phenotype_info ← PunnettSquare.get_phenotype a1 a2 (Some (gene_name g));
      let effect_value := PunnettSquare.info_effect_value phenotype_info in
      let speed_mod :=
        if any_in speed_traits gene_trait
        then speed_mod + effect_value else speed_mod in
      let endurance_mod :=
        if any_in endurance_traits gene_trait
        then endurance_mod + effect_value else endurance_mod in
      stat_modifiers rest speed_mod endurance_mod
  end.

(** [int(50 + (modifier * randomization_bias) + random.randint(-5, 5))]
    with the draw [r]. *)
Definition stat_value (modifier r : Z) : result Z :=
  m ← float_of_int modifier;
  draw ← float_of_int r;
  int_of_float (fadd (fadd (flit 50) (fmul m (fdec 7 10))) draw).

(** [max(0, min(100, v))]. *)
Definition clamp (v : Z) : Z := Z.max 0 (Z.min 100 v).

(** [update_stats_from_genetics(db, pet)] with the two draws of
    [random.randint(-5, 5)]: the outcome and the pet as the call leaves
    it.  When the first assignment has been made and the second raises,
    the first one stays. *)
Definition update_stats_from_genetics (s : Session) (pet : Pet)
  (r_speed r_endurance : Z) : result unit * Pet :=
  let pet_genetics := query_pet_genetics s (id pet) in
  match pet_genetics with
  | [] => (Ok tt, pet)
  | _ :: _ =>
      match stat_modifiers pet_genetics 0 0 with
      | Raise e => (Raise e, pet)
      | Ok (speed_mod, endurance_mod) =>
          match stat_value speed_mod r_speed with
          | Raise e => (Raise e, pet)
          | Ok v_speed =>
              let pet := set_speed v_speed pet in
              match stat_value endurance_mod r_endurance with
              | Raise e => (Raise e, pet)
              | Ok v_endurance =>
                  let pet := set_endurance v_endurance pet in
                  let pet := set_speed (clamp (speed pet)) pet in
                  let pet := set_endurance (clamp (endurance pet)) pet in
                  (Ok tt, pet)
              end
          end
      end
  end.

(** One turn of the loop of [breed] on a pair of rows with the same
    [gene_id], with the draw [n] of [random.choice]. *)
Definition cross_gene (s : Session) (parent1 parent2 : Pet)
  (p1_gene p2_gene : PetGenetics) (n : nat) (acc : crossing)
  : result crossing :=
  let gene := gene p1_gene in
  p1_a1 ← attr (allele1 p1_gene);
  p1_a2 ← attr (allele2 p1_gene);
  let p1_alleles := (symbol p1_a1, symbol p1_a2) in
  p2_a1 ← attr (allele1 p2_gene);
  p2_a2 ← attr (allele2 p2_gene);
  let p2_alleles := (symbol p2_a1, symbol p2_a2) in
  ps_result ← PunnettSquare.calculate p1_alleles p2_alleles;
  offspring_genotype ←
    choice (PunnettSquare.offspring_genotypes ps_result) n;
  let allele_symbols := chars offspring_genotype in
  g ← attr gene;
  sym0 ← index allele_symbols 0;
  let allele1_obj := query_allele s (gene_id g) sym0 in
  sym1 ← index allele_symbols 1;
  let allele2_obj := query_allele s (gene_id g) sym1 in
  let offspring_alleles :=
    match allele1_obj, allele2_obj with
    | Some a1, Some a2 =>
        dict_set (gene_id g) (a1, a2) (offspring_alleles acc)
    | _, _ => offspring_alleles acc
    end in
  mret {| punnett_squares :=
            punnett_squares acc ++
              [{| entry_gene_name := gene_name g;
                  parent1_genotype := join "" [p1_alleles.1; p1_alleles.2];
                  parent2_genotype := join "" [p2_alleles.1; p2_alleles.2];
                  entry_possible_offspring :=
                    PunnettSquare.possible_offspring ps_result;
                  entry_probabilities :=
                    PunnettSquare.probabilities ps_result;
                  entry_punnett_square :=
                    PunnettSquare.punnett_square ps_result;
                  offspring_genotype := offspring_genotype |}];
          offspring_alleles := offspring_alleles;
          inheritance_notes_acc :=
            inheritance_notes_acc acc ++
              [gene_trait g +:+ ": " +:+ offspring_genotype +:+ " (from "
               +:+ name parent1 +:+ ":" +:+ p1_alleles.1 +:+ "/"
               +:+ p1_alleles.2 +:+ " x "
               +:+ name parent2 +:+ ":" +:+ p2_alleles.1 +:+ "/"
               +:+ p2_alleles.2 +:+ ")"] |}.

(** The loop over [zip(parent1_genetics, parent2_genetics)]; [draws k] is
    the draw of the k-th call to [random.choice]. *)
Fixpoint cross_genes (s : Session) (parent1 parent2 : Pet)
  (pairs : list (PetGenetics * PetGenetics)) (draws : nat -> nat)
  (acc : crossing) : result crossing :=
  match pairs with
  | [] => mret acc
  | (p1_gene, p2_gene) :: rest =>
      if negb (pg_gene_id p1_gene =? pg_gene_id p2_gene) then
        cross_genes s parent1 parent2 rest draws acc
      else
        acc ← cross_gene s parent1 parent2 p1_gene p2_gene (draws 0%nat) acc;
        cross_genes s parent1 parent2 rest (fun k => draws (S k)) acc
  end.

(** [models.Pet(owner_id=..., name=..., species=..., color=...)] once
    flushed: the primary key and the column defaults are set. *)
Definition new_pet (pet_id owner_id : Z) (name species color : string)
  : Pet :=
  {| id := pet_id; owner_id := owner_id; name := name;
     species := species; color := color;
     color_phenotype := None; hair_type := "short";
     age_days := 0; health := 100; happiness := 100; hunger := 3;
     cleanliness := 100; points := 0;
     genetic_code := None; speed := 50; endurance := 50;
     rarity_score := 0; rarity_tier := Some "Common";
     market_value := 100; for_sale := 0; asking_price := None |}.

(** The rows created from [offspring_alleles.items()]. *)
Definition add_genetics (s : Session) (pet_id : Z)
  (offspring_alleles : list (Z * (Allele * Allele))) : Session :=
  foldl (fun s entry =>
           add_pet_genetics s pet_id entry.1
             (allele_id entry.2.1) (allele_id entry.2.2))
        s offspring_alleles.

(** [breed(db, parent1, parent2, child_name, child_species, child_color,
    owner_id)] with the draws of [random.choice] and of the two
    [random.randint]: the tuple returned or the exception raised, and the
    session as the call leaves it.  When an exception is raised after the
    offspring has been flushed, the session holds the offspring's row as
    it was flushed; what was assigned to the object since is not written
    to the row. *)
Definition breed (s : Session) (parent1 parent2 : Pet)
  (child_name child_species child_color : string) (owner_id : Z)
  (draws : nat -> nat) (r_speed r_endurance : Z)
  : result (Pet * list punnett_entry * string) * Session :=
  let parent1_genetics := query_pet_genetics s (id parent1) in
  let parent2_genetics := query_pet_genetics s (id parent2) in
  match parent1_genetics, parent2_genetics with
  | [], _ | _, [] => (Raise ValueError, s)
  | _, _ =>
      match cross_genes s parent1 parent2
              (zip parent1_genetics parent2_genetics) draws
              {| punnett_squares := []; offspring_alleles := [];
                 inheritance_notes_acc := [] |} with
      | Raise e => (Raise e, s)
      | Ok crossed =>
          let offspring :=
            new_pet (fresh_id (map id (pets s))) owner_id
                    child_name child_species child_color in
          let s := add_pet s offspring in
          let s := add_genetics s (id offspring)
                                (offspring_alleles crossed) in
          let offspring_genetics := query_pet_genetics s (id offspring) in
          match GeneticCode.encode offspring_genetics with
          | Raise e => (Raise e, s)
          | Ok code =>
              let offspring := set_genetic_code (Some code) offspring in
              match update_stats_from_genetics s offspring
                      r_speed r_endurance with
              | (Raise e, _) => (Raise e, s)
              | (Ok _, offspring) =>
                  match RarityCalculator.calculate_and_store_valuation
                          offspring with
                  | (Raise e, _) => (Raise e, s)
                  | (Ok _, offspring) =>
                      let inheritance_summary :=
                        join " | " (inheritance_notes_acc crossed) in
                      let s :=
                        add_offspring s
                          {| parent1_id := id parent1;
                             parent2_id := id parent2;
                             child_id := id offspring;
                             punnett_square_data := punnett_squares crossed;
                             inheritance_notes := inheritance_summary |} in
                      let s := update_pet s offspring in
                      (Ok (offspring, punnett_squares crossed,
                           inheritance_summary), s)
                  end
              end
          end
      end
  end.

End BreedingEngine.

(* ===================================================================== *)
(** * genetics.py: the seeded catalogue *)
(* ===================================================================== *)

Module Catalog.

(** One entry of [genetics_data]: name, trait, description and the
    alleles as (name, symbol, dominance, effect). *)
Definition gene_data : Type :=
  (string * string * string * list (string * string * Z * Z))%type.

Definition genetics_data : list gene_data :=
  [ ("coat_color", "Coat Color",
     "Determines guinea pig coat color with 3 possible colors",
     [("Brown", "B", 3, 20); ("Orange", "O", 2, 10); ("White", "W", 1, 0)]);
    ("hair_length", "Hair Length",
     "Determines hair length (short vs fluffy/long)",
     [("Short", "H", 2, 5); ("Fluffy", "h", 1, 15)]);
    ("speed", "Movement Speed",
     "Affects movement speed and agility",
     [("Fast", "F", 2, 20); ("Slow", "f", 1, -20)]);
    ("endurance", "Energy Level",
     "Affects endurance and stamina",
     [("Energetic", "E", 2, 20); ("Lazy", "e", 1, -20)]) ].

(** The inner loop: one allele is added and flushed. *)
Definition add_allele (gid : Z) (trait : string) (s : Session)
  (a : string * string * Z * Z) : Session :=
  let '(a_name, a_symbol, a_dominance, a_effect) := a in
  {| genes := genes s;
     alleles :=
       alleles s ++
         [{| allele_id := fresh_id (map allele_id (alleles s));
             allele_gene_id := gid;
             allele_name := a_name;
             symbol := a_symbol;
             dominance_level := a_dominance;
             effect_value := a_effect;
             allele_description :=
               Some (a_name +:+ " allele for " +:+ trait) |}];
     pet_genetics := pet_genetics s;
     pets := pets s;
     offspring := offspring s |}.

(** The outer loop: the gene is flushed, then its alleles; the first
    allele becomes the gene's default. *)
Definition add_gene (s : Session) (d : gene_data) : Session :=
  let '(g_name, g_trait, g_description, g_alleles) := d in
  let gid := fresh_id (map gene_id (genes s)) in
  let first_allele := fresh_id (map allele_id (alleles s)) in
  let s :=
    {| genes :=
         genes s ++
           [{| gene_id := gid;
               gene_name := g_name;
               gene_trait := g_trait;
               gene_description := Some g_description;
               default_allele_id :=
                 match g_alleles with
                 | [] => None
                 | _ :: _ => Some first_allele
                 end |}];
       alleles := alleles s;
       pet_genetics := pet_genetics s;
       pets := pets s;
       offspring := offspring s |} in
  foldl (add_allele gid g_trait) s g_alleles.

Definition initialize_genetics_system (s : Session) : Session :=
  match genes s with
  | _ :: _ => s
  | [] => foldl add_gene s genetics_data
  end.

Definition empty : Session :=
  {| genes := []; alleles := []; pet_genetics := []; pets := [];
     offspring := [] |}.

(** The catalogue after the first start of the server. *)
Definition seeded : Session := initialize_genetics_system empty.

End Catalog.

(* ===================================================================== *)
(** * The specification's vocabulary *)
(* ===================================================================== *)

Module Spec.

(** Two allele symbols in canonical order: the alphabetically smaller one
    first. *)
Definition canonical (x y : string) : string :=
  if String.leb x y then x +:+ y else y +:+ x.

(** A genotype entry: a gene name and its two allele symbols. *)
Definition entry : Type := (string * (string * string))%type.

(** The entry a [PetGenetics] instance stands for, when its gene and its
    two alleles exist. *)
Definition entry_of (pg : PetGenetics) : option entry :=
  match gene pg, allele1 pg, allele2 pg with
  | Some g, Some a1, Some a2 => Some (gene_name g, (symbol a1, symbol a2))
  | _, _, _ => None
  end.

(** The wire form of one entry: ["<gene>:<a1>-<a2>"]. *)
Definition segment_of (e : entry) : string :=
  e.1 +:+ ":" +:+ e.2.1 +:+ "-" +:+ e.2.2.

Definition one_char (s : string) : bool :=
  match s with
  | String _ EmptyString => true
  | _ => false
  end.

(** No [':'], [';'] or ['-'] occurs in [s]. *)
Definition delimiter_free (s : string) : bool :=
  negb (contains ":"%char s) && negb (contains ";"%char s)
  && negb (contains "-"%char s).

(** An entry is well formed, in the words of the round-trip property: two
    one-character allele symbols and a gene name without delimiters. *)
Definition well_formed_as_claimed (e : entry) : bool :=
  delimiter_free e.1 && one_char e.2.1 && one_char e.2.2.

(** Well formed for the wire format: moreover no allele symbol is itself
    a delimiter. *)
Definition well_formed (e : entry) : bool :=
  well_formed_as_claimed e && delimiter_free e.2.1 && delimiter_free e.2.2.

(** How [decode] reads one segment: a segment without [':'] is skipped; a
    segment ["name:a1-a2"] with no other [':'] and no other ['-'] after the
    [':'] yields an entry. *)
Inductive segment : string -> option entry -> Prop :=
| segment_skipped (s : string) :
    contains ":"%char s = false -> segment s None
| segment_entry (gene_name a1 a2 : string) :
    contains ":"%char gene_name = false ->
    contains ":"%char a1 = false -> contains ":"%char a2 = false ->
    contains "-"%char a1 = false -> contains "-"%char a2 = false ->
    segment (segment_of (gene_name, (a1, a2))) (Some (gene_name, (a1, a2))).

(** The entries among the readings of a list of segments, in order. *)
Definition entries_read (items : list (option entry)) : list entry :=
  omap (fun item => item) items.

(** The base price of a tier; a tier outside the table counts as Common. *)
Definition base_table : list (string * Z) :=
  [("Common", 100); ("Uncommon", 500); ("Rare", 2000); ("Legendary", 10000)].

Definition base (tier : string) : Z :=
  match List.find (fun row => String.eqb row.1 tier) base_table with
  | Some row => row.2
  | None => 100
  end.

(** A coat genotype string is homozygous when its two symbols agree. *)
Definition homozygous (genotype : string) : bool :=
  match genotype with
  | String a (String b _) => Ascii.eqb a b
  | _ => false
  end.

(** [base * stat_multiplier * color_multiplier * hair_multiplier] turned
    into an integer by [to_int], for the sum [total] of speed and
    endurance: [stat_multiplier = 0.5 + (avg / 100) * 1.5] with
    [avg = total / 2], [color_multiplier] 1.5 for a pure coat, else 1.0,
    and [hair_multiplier] 1.3 for fluffy hair, else 1.0. *)
Definition product (to_int : float -> result Z) (base total : Z)
  (pure fluffy : bool) : result Z :=
  avg ← truediv total 2;
  let stat_multiplier :=
    fadd (fdec 1 2) (fmul (fdiv avg (flit 100)) (fdec 3 2)) in
  let color_multiplier := if pure then fdec 3 2 else flit 1 in
  let hair_multiplier := if fluffy then fdec 13 10 else flit 1 in
  to_int (fmul (fmul (fmul (flit base) stat_multiplier) color_multiplier)
               hair_multiplier).

(** The market value as the pricing formula words it, floored at 50;
    [to_int] is [round_float] in the formula as written and [int_of_float]
    for a truncating conversion. *)
Definition market_value (to_int : float -> result Z) (tier : string)
  (speed endurance : Z) (coat_genotype hair_genotype : string) : result Z :=
  value ← product to_int (base tier) (speed + endurance)
            (homozygous coat_genotype) (contains "h"%char hair_genotype);
  mret (Z.max value 50).

(** [50 + modifier * 0.7 + r] in double precision, turned into an integer
    by [to_int]. *)
Definition stat (to_int : float -> result Z) (modifier r : Z) : result Z :=
  m ← float_of_int modifier;
  draw ← float_of_int r;
  to_int (fadd (fadd (flit 50) (fmul m (fdec 7 10))) draw).

(** [int(50 + modifier * 0.7 + r)] in exact arithmetic: the quotient of
    [500 + 7 * modifier + 10 * r] by 10, truncated toward zero. *)
Definition truncated_stat (modifier r : Z) : Z :=
  Z.quot (500 + 7 * modifier + 10 * r) 10.

(** The same with rounding to the nearest integer, ties to even. *)
Definition rounded_stat (modifier r : Z) : Z :=
  let n := 500 + 7 * modifier + 10 * r in
  let q := n / 10 in
  let rem := n mod 10 in
  if rem <? 5 then q
  else if 5 <? rem then q + 1
  else if Z.even q then q else q + 1.

(** [clamp(0, 100, v)]. *)
Definition clamp (v : Z) : Z :=
  if v <? 0 then 0 else if 100 <? v then 100 else v.

(** The effect value of one instance: that of its phenotype. *)
Definition effect_of (pg : PetGenetics) : result Z :=
  g ← attr (gene pg);
  a1 ← attr (allele1 pg);
  a2 ← attr (allele2 pg);
  info ← PunnettSquare.get_phenotype a1 a2 (Some (gene_name g));
  mret (PunnettSquare.info_effect_value info).

(** An instance is routed to a stat when the lower-cased name of its gene
    contains one of the stat's keywords. *)
Definition routed (keywords : list string) (pg : PetGenetics) : bool :=
  match gene pg with
  | Some g =>
      existsb (fun keyword => str_in keyword (lower (gene_name g))) keywords
  | None => false
  end.

(** A position of the two parents' lists whose entries reference the same
    gene id. *)
Definition same_gene (pair : PetGenetics * PetGenetics) : bool :=
  pg_gene_id pair.1 =? pg_gene_id pair.2.

(** The positions [breed] walks through: the two parents' entries paired
    in order. *)
Definition positions (s : Session) (parent1 parent2 : Pet)
  : list (PetGenetics * PetGenetics) :=
  zip (query_pet_genetics s (id parent1)) (query_pet_genetics s (id parent2)).

(** The accumulators of [breed] before the loop. *)
Definition start : BreedingEngine.crossing :=
  {| BreedingEngine.punnett_squares := [];
     BreedingEngine.offspring_alleles := [];
     BreedingEngine.inheritance_notes_acc := [] |}.

(** An entry of [offspring_alleles] stays within one gene: both alleles are
    alleles of the catalogue that belong to the gene of the key, and the
    key is the gene id shared by the two parents at some position. *)
Definition within_gene (s : Session)
  (pairs : list (PetGenetics * PetGenetics))
  (e : Z * (Allele * Allele)) : Prop :=
  In e.2.1 (alleles s) /\ In e.2.2 (alleles s) /\
  allele_gene_id e.2.1 = e.1 /\ allele_gene_id e.2.2 = e.1 /\
  exists pair, In pair pairs /\ same_gene pair = true /\
               pg_gene_id pair.1 = e.1.

(** The same for a row of [pet_genetics]. *)
Definition row_within_gene (s : Session)
  (pairs : list (PetGenetics * PetGenetics))
  (r : pet_genetics_row) : Prop :=
  exists a1 a2,
    In a1 (alleles s) /\ In a2 (alleles s) /\
    allele_id a1 = row_allele1_id r /\ allele_id a2 = row_allele2_id r /\
    allele_gene_id a1 = row_gene_id r /\ allele_gene_id a2 = row_gene_id r /\
    exists pair, In pair pairs /\ same_gene pair = true /\
                 pg_gene_id pair.1 = row_gene_id r.

(** The modifier of a stat: the sum of the effect values of the instances
    routed to it. *)
Fixpoint modifier (keywords : list string) (pet_genetics : list PetGenetics)
  (effects : list Z) : Z :=
  match pet_genetics, effects with
  | pg :: pgs, effect :: effects =>
      (if routed keywords pg then effect else 0)
      + modifier keywords pgs effects
  | _, _ => 0
  end.

End Spec.

(* ===================================================================== *)
(** * Concrete data used in examples *)
(* ===================================================================== *)

Module Examples.

(** The allele [Brown] of [coat_color] as the catalogue seeds it. *)
Definition brown : Allele :=
  {| allele_id := 1; allele_gene_id := 1; allele_name := "Brown";
     symbol := "B"; dominance_level := 3; effect_value := 20;
     allele_description := Some "Brown allele for Coat Color" |}.

(** The allele [Fast] of [speed] as the catalogue seeds it. *)
Definition fast : Allele :=
  {| allele_id := 6; allele_gene_id := 3; allele_name := "Fast";
     symbol := "F"; dominance_level := 2; effect_value := 20;
     allele_description := Some "Fast allele for Movement Speed" |}.

(** A pet with the given genetic code, stats and rarity fields, the other
    columns at their defaults. *)
Definition pet_with (code : option string) (speed endurance score : Z)
  (tier : option string) : Pet :=
  {| id := 1; owner_id := 1; name := "Peanut"; species := "Guinea Pig";
     color := "brown"; color_phenotype := None; hair_type := "short";
     age_days := 0; health := 100; happiness := 100; hunger := 3;
     cleanliness := 100; points := 0;
     genetic_code := code; speed := speed; endurance := endurance;
     rarity_score := score; rarity_tier := tier;
     market_value := 100; for_sale := 0; asking_price := None |}.

(** Two pets of one owner in the seeded catalogue.  Ann carries
    [coat_color] B/O and [speed] F/f; Bob carries [coat_color] O/W and
    [speed] f/f. *)
Definition ann : Pet :=
  BreedingEngine.new_pet 1 7 "Ann" "Guinea Pig" "brown".
Definition bob : Pet :=
  BreedingEngine.new_pet 2 7 "Bob" "Guinea Pig" "white".

(** A pet of the same owner without any genetics row. *)
Definition stray : Pet :=
  BreedingEngine.new_pet 9 7 "Stray" "Guinea Pig" "grey".

(** A pet never valued, whose code gives [coat_color] one symbol only. *)
Definition truncated_coat : Pet :=
  pet_with (Some "coat_color:B") 50 50 0 (Some "Rare").

(** A pet never valued, with a pure coat, fluffy hair and high stats. *)
Definition champion : Pet :=
  pet_with (Some "coat_color:BB;hair_length:hh;speed:FF") 85 85 0
           (Some "Common").

(** A Common pet already valued, mixed coat, short hair, stats 2 and 3. *)
Definition runt : Pet :=
  pet_with (Some "coat_color:BO") 2 3 1 (Some "Common").

(** A gene ["x"] whose first allele has the symbol ["-"]: an instance as
    the session would hand it out for a pet carrying the pair. *)
Definition dash_pair : PetGenetics :=
  {| pg_id := 1; pet_id := 1; pg_gene_id := 5;
     allele1_id := 10; allele2_id := 11;
     gene := Some {| gene_id := 5; gene_name := "x"; gene_trait := "X";
                     gene_description := None;
                     default_allele_id := Some 10 |};
     allele1 := Some {| allele_id := 10; allele_gene_id := 5;
                        allele_name := "Dash"; symbol := "-";
                        dominance_level := 2; effect_value := 0;
                        allele_description := None |};
     allele2 := Some {| allele_id := 11; allele_gene_id := 5;
                        allele_name := "Plain"; symbol := "a";
                        dominance_level := 1; effect_value := 0;
                        allele_description := None |} |}.

Definition kennel : Session :=
  let s := add_pet (add_pet Catalog.seeded ann) bob in
  let s := add_pet_genetics s 1 1 1 2 in
  let s := add_pet_genetics s 1 3 6 7 in
  let s := add_pet_genetics s 2 1 2 3 in
  add_pet_genetics s 2 3 7 7.

(** A pet in the seeded catalogue to which one allele of [speed] has been
    added, [Brisk] with effect 1; the pet carries it twice. *)
Definition dot : Pet :=
  BreedingEngine.new_pet 1 7 "Dot" "Guinea Pig" "cream".

Definition paddock : Session :=
  let s := Catalog.add_allele 3 "Movement Speed" Catalog.seeded
             ("Brisk", "b", 1, 1) in
  add_pet_genetics (add_pet s dot) 1 3 10 10.

(** A kennel in which Bob carries [endurance] e/e where Ann carries
    [speed]: the two parents' lists agree at the first position and
    disagree at the second. *)
Definition kennel_misaligned : Session :=
  let s := add_pet (add_pet Catalog.seeded ann) bob in
  let s := add_pet_genetics s 1 1 1 2 in
  let s := add_pet_genetics s 1 3 6 7 in
  let s := add_pet_genetics s 2 1 2 3 in
  add_pet_genetics s 2 4 9 9.

End Examples.

(* ===================================================================== *)
(** * genetics.py: the random genetic code of a new pet *)
(* ===================================================================== *)

Module Generation.

(** [gene.alleles]: the alleles of the catalogue whose [gene_id] is the
    gene's. *)
Definition gene_alleles (s : Session) (g : Gene) : list Allele :=
  List.filter (fun a => allele_gene_id a =? gene_id g) (alleles s).

(** The loop of [generate_random_genetic_code] over the genes still to
    read; a gene without alleles is passed over and draws nothing,
    [draws k] is the draw of the k-th call to [random.choice]. *)
Fixpoint generate_codes (s : Session) (genes : list Gene)
  (draws : nat -> nat) : result (list string) :=
  match genes with
  | [] => mret []
  | gene :: rest =>
      match gene_alleles s gene with
      | [] => generate_codes s rest draws
      | _ :: _ =>
          allele1 ← BreedingEngine.choice (gene_alleles s gene) (draws 0%nat);
          allele2 ← BreedingEngine.choice (gene_alleles s gene) (draws 1%nat);
          let code :=
            gene_name gene +:+ ":" +:+ symbol allele1 +:+ "-"
            +:+ symbol allele2 in
          genetic_codes ←
            generate_codes s rest (fun k => draws (S (S k)));
          mret (code :: genetic_codes)
      end
  end.

(** [generate_random_genetic_code(db, num_genes)]:
    [db.query(models.Gene).limit(num_genes).all()] is the first
    [num_genes] genes of the table. *)
Definition generate_random_genetic_code (s : Session) (num_genes : nat)
  (draws : nat -> nat) : result string :=
  let genes := take num_genes (genes s) in
  genetic_codes ← generate_codes s genes draws;
  mret (match genetic_codes with
        | [] => ""
        | _ :: _ => join ";" genetic_codes
        end).

End Generation.

(* ===================================================================== *)
(** * Vocabulary of the further properties *)
(* ===================================================================== *)

Module Laws.

(** [sum(values)] on floats, from the left, starting at 0. *)
Definition total (values : list float) : float :=
  foldl fadd (S754_zero false) values.

(** What the pricing code reads for a gene of an encoded genotype: a
    value that holds a ['-'] and whose first two characters, when it has
    two, differ. *)
Definition dashed (v : string) : bool :=
  contains "-"%char v
  && match v with
     | String a (String b _) => negb (Ascii.eqb a b)
     | _ => true
     end.

(** The pet once its score and the tier of that score are assigned. *)
Definition rated (score : Z) (pet : Pet) : Pet :=
  set_rarity_tier (Some (RarityCalculator.get_rarity_tier score))
                  (set_rarity_score score pet).

(** The offspring of [breed] once flushed, and the session once its
    genetics rows are added. *)
Definition newborn (s : Session) (owner_id : Z)
  (name species color : string) : Pet :=
  BreedingEngine.new_pet (fresh_id (map id (pets s))) owner_id
                         name species color.

Definition nursery (s : Session) (offspring : Pet)
  (crossed : BreedingEngine.crossing) : Session :=
  BreedingEngine.add_genetics (add_pet s offspring) (id offspring)
                              (BreedingEngine.offspring_alleles crossed).

(** An entry of [punnett_squares] whose drawn genotype is one of the
    cells of its grid and is listed, once, among the possible ones. *)
Definition drawn (e : punnett_entry) : Prop :=
  offspring_genotype e ∈ entry_possible_offspring e /\
  offspring_genotype e ∈ concat (entry_punnett_square e) /\
  NoDup (entry_possible_offspring e).

(** A catalogue that [encode] can write down: gene names without
    delimiters and allele symbols of one character that is no delimiter. *)
Definition writable (s : Session) : bool :=
  forallb (fun g => Spec.delimiter_free (gene_name g)) (genes s)
  && forallb (fun a => Spec.one_char (symbol a)
                       && Spec.delimiter_free (symbol a)) (alleles s).

End Laws.

(* ===================================================================== *)
(** * Properties *)
(* ===================================================================== *)

(** ** The result monad *)

Lemma bind_ok {A B : Type} (m : result A) (k : A -> result B) (a : A) :
  m = Ok a -> (x ← m; k x) = k a.
Proof. intros ->. reflexivity. Qed.

Lemma bind_raise {A B : Type} (m : result A) (k : A -> result B) e :
  m = Raise e -> (x ← m; k x) = Raise e.
Proof. intros ->. reflexivity. Qed.

Lemma bind_inv_ok {A B : Type} (m : result A) (k : A -> result B) (b : B) :
  (x ← m; k x) = Ok b -> exists a, m = Ok a /\ k a = Ok b.
Proof. destruct m as [a|e]; [eauto | discriminate]. Qed.

Lemma mapM_ok {A B : Type} (f : A -> result B) (l : list A) (l' : list B) :
  Forall2 (fun a b => f a = Ok b) l l' -> mapM f l = Ok l'.
Proof.
  induction 1 as [|a b l l' Hab _ IH]; [reflexivity|].
  cbn. rewrite Hab. cbn. rewrite IH. reflexivity.
Qed.

Lemma mapM_total {A B : Type} (f : A -> result B) (l : list A) :
  Forall (fun a => exists b, f a = Ok b) l ->
  exists l', mapM f l = Ok l' /\ Forall2 (fun a b => f a = Ok b) l l'.
Proof.
  induction 1 as [|a l [b Hb] _ [l' [IH1 IH2]]].
  - exists []. split; [reflexivity | constructor].
  - exists (b :: l'). split; [|constructor; assumption].
    cbn. rewrite Hb. cbn. rewrite IH1. reflexivity.
Qed.

(** ** The alphabetical order on symbols *)

Lemma ltb_leb_swap (x y : string) : String.ltb y x = negb (String.leb x y).
Proof.
  unfold String.ltb, String.leb.
  rewrite (String.compare_antisym x y).
  destruct (String.compare y x); reflexivity.
Qed.

Lemma leb_antisym (x y : string) :
  String.leb x y = true -> String.leb y x = true -> x = y.
Proof.
  unfold String.leb. rewrite (String.compare_antisym x y).
  destruct (String.compare y x) eqn:E; cbn; try discriminate.
  intros _ _. symmetry. apply String.compare_eq_iff. assumption.
Qed.

Lemma leb_total (x y : string) :
  String.leb x y = true \/ String.leb y x = true.
Proof.
  unfold String.leb. rewrite (String.compare_antisym x y).
  destruct (String.compare y x); cbn; auto.
Qed.

Lemma join_empty_pair (x y : string) : join "" [x; y] = x +:+ y.
Proof. reflexivity. Qed.

Lemma cell_canonical (x y : string) :
  PunnettSquare.cell x y = Spec.canonical x y.
Proof.
  unfold PunnettSquare.cell, Spec.canonical, sorted2.
  rewrite ltb_leb_swap.
  destruct (String.leb x y); reflexivity.
Qed.

Lemma canonical_comm (x y : string) : Spec.canonical x y = Spec.canonical y x.
Proof.
  unfold Spec.canonical.
  destruct (String.leb x y) eqn:Hxy, (String.leb y x) eqn:Hyx;
    try reflexivity.
  - rewrite (leb_antisym x y Hxy Hyx). reflexivity.
  - destruct (leb_total x y); congruence.
Qed.

(** ** The genotype counts of a Punnett square *)

Lemma count_up_keys (g x : string) (d : list (string * Z)) :
  g ∈ map fst (PunnettSquare.count_up x d) <-> g = x \/ g ∈ map fst d.
Proof.
  induction d as [|[k n] d IH]; cbn.
  - rewrite list_elem_of_singleton, elem_of_nil. tauto.
  - destruct (String.eqb_spec k x) as [->|Hne]; cbn.
    + rewrite elem_of_cons. tauto.
    + rewrite !elem_of_cons, IH. tauto.
Qed.

Lemma counts_keys (l : list string) (d : list (string * Z)) (g : string) :
  g ∈ map fst (foldl (fun counts x => PunnettSquare.count_up x counts) d l)
  <-> g ∈ l \/ g ∈ map fst d.
Proof.
  revert d. induction l as [|x l IH]; intros d; cbn.
  - rewrite elem_of_nil. tauto.
  - rewrite IH, count_up_keys, elem_of_cons. tauto.
Qed.

Lemma count_up_bound (x : string) (d : list (string * Z)) (lo hi : Z) :
  lo <= 1 -> 0 <= hi ->
  Forall (fun kn => lo <= kn.2 <= hi) d ->
  Forall (fun kn => lo <= kn.2 <= hi + 1) (PunnettSquare.count_up x d).
Proof.
  intros Hlo Hhi. induction 1 as [|[k n] d Hn Hd IH]; cbn in *.
  - repeat constructor; cbn; lia.
  - destruct (String.eqb k x); constructor; cbn; try lia; try assumption.
    eapply Forall_impl; [exact Hd|]. cbn. intros; lia.
Qed.

Lemma counts_bound (l : list string) (d : list (string * Z)) (hi : Z) :
  0 <= hi ->
  Forall (fun kn => 1 <= kn.2 <= hi) d ->
  Forall (fun kn => 1 <= kn.2 <= hi + Z.of_nat (length l))
         (foldl (fun counts x => PunnettSquare.count_up x counts) d l).
Proof.
  revert d hi. induction l as [|x l IH]; intros d hi Hhi Hd.
  - cbn. eapply Forall_impl; [exact Hd|]. cbn. intros; lia.
  - cbn [foldl length].
    replace (hi + Z.of_nat (S (length l)))
      with ((hi + 1) + Z.of_nat (length l)) by lia.
    apply IH; [lia|].
    apply count_up_bound; [lia | lia | assumption].
Qed.

Lemma truediv_quarters (n : Z) :
  1 <= n <= 4 -> exists f, truediv n 4 = Ok f.
Proof.
  intros Hn.
  assert (n = 1 \/ n = 2 \/ n = 3 \/ n = 4) as [-> | [-> | [-> | ->]]] by lia;
    eexists; vm_compute; reflexivity.
Qed.

(** ** C3 *)

(** C3.  For every two pairs of allele symbols [calculate] returns a grid
    of two rows of two cells, each cell being the two contributing symbols
    in alphabetical order (so a cell does not depend on which parent gave
    which symbol), the flat list of offspring genotypes is the four cells,
    and calling it with the parents swapped yields the same set of possible
    offspring genotypes. *)
Theorem calculate_four_canonical_cells (a b c d : string) :
  exists sq sq',
    PunnettSquare.calculate (a, b) (c, d) = Ok sq /\
    PunnettSquare.calculate (c, d) (a, b) = Ok sq' /\
    PunnettSquare.punnett_square sq =
      [[Spec.canonical a c; Spec.canonical a d];
       [Spec.canonical b c; Spec.canonical b d]] /\
    PunnettSquare.offspring_genotypes sq =
      concat (PunnettSquare.punnett_square sq) /\
    length (PunnettSquare.offspring_genotypes sq) = 4%nat /\
    (forall x y, Spec.canonical x y = Spec.canonical y x) /\
    (forall g, g ∈ PunnettSquare.possible_offspring sq <->
               g ∈ PunnettSquare.possible_offspring sq').
Proof.
  assert (Hret : forall p q r t : string,
    exists probs,
      PunnettSquare.calculate (p, q) (r, t) =
        Ok {| PunnettSquare.punnett_square :=
                [[PunnettSquare.cell p r; PunnettSquare.cell p t];
                 [PunnettSquare.cell q r; PunnettSquare.cell q t]];
              PunnettSquare.possible_offspring :=
                map fst (foldl (fun counts x => PunnettSquare.count_up x counts)
                           []
                           [PunnettSquare.cell p r; PunnettSquare.cell p t;
                            PunnettSquare.cell q r; PunnettSquare.cell q t]);
              PunnettSquare.probabilities := probs;
              PunnettSquare.offspring_genotypes :=
                [PunnettSquare.cell p r; PunnettSquare.cell p t;
                 PunnettSquare.cell q r; PunnettSquare.cell q t] |}).
  { intros p q r t. unfold PunnettSquare.calculate.
    cbn [fst snd map concat app length].
    set (cells := [PunnettSquare.cell p r; PunnettSquare.cell p t;
                   PunnettSquare.cell q r; PunnettSquare.cell q t]).
    set (counts := foldl _ [] cells).
    destruct (mapM_total
                (fun gc : string * Z =>
                   share ← truediv gc.2 (Z.of_nat 4);
                   mret (gc.1, fmul share (flit 100))) counts)
      as [probs [Hprobs _]].
    { pose proof (counts_bound cells [] 0 ltac:(lia) ltac:(constructor))
        as Hb.
      eapply Forall_impl; [exact Hb|].
      intros [k n] Hn. unfold cells in Hn. cbn in Hn.
      destruct (truediv_quarters n ltac:(lia)) as [f Hf].
      eexists. cbn [fst snd]. change (Z.of_nat 4) with 4.
      rewrite Hf. reflexivity. }
    exists probs. rewrite Hprobs. reflexivity. }
  destruct (Hret a b c d) as [probs Hsq].
  destruct (Hret c d a b) as [probs' Hsq'].
  eexists _, _. split; [exact Hsq|]. split; [exact Hsq'|].
  cbn [PunnettSquare.punnett_square PunnettSquare.offspring_genotypes
       PunnettSquare.possible_offspring].
  rewrite !cell_canonical.
  split; [reflexivity|]. split; [reflexivity|]. split; [reflexivity|].
  split; [exact canonical_comm|].
  intros g. rewrite !counts_keys. cbn [map].
  rewrite !elem_of_cons, !elem_of_nil.
  rewrite (canonical_comm c a), (canonical_comm c b),
          (canonical_comm d a), (canonical_comm d b).
  tauto.
Qed.

(** ** C6 *)

(** The phenotype of two copies of [Fast] under the gene name ["speed"]:
    the pair is read as a tie of dominance levels. *)
Lemma get_phenotype_fast_fast :
  PunnettSquare.get_phenotype Examples.fast Examples.fast (Some "speed") =
    Ok {| PunnettSquare.phenotype := "F/F";
          PunnettSquare.genotype := None;
          PunnettSquare.info_effect_value := 20;
          PunnettSquare.inheritance_type := "co-dominant";
          PunnettSquare.is_pure := None |}.
Proof. vm_compute. reflexivity. Qed.

(** C6, as stated, fails outside [coat_color]: for the gene [speed] and its
    allele [Fast] taken twice (equal symbols) the phenotype string is
    ["F/F"], not ["Fast (pure)"]. *)
Lemma get_phenotype_homozygous_speed_not_pure :
  symbol Examples.fast = symbol Examples.fast /\
  exists info,
    PunnettSquare.get_phenotype Examples.fast Examples.fast (Some "speed")
      = Ok info /\
    PunnettSquare.phenotype info = "F/F" /\
    PunnettSquare.phenotype info <>
      allele_name Examples.fast +:+ " (pure)".
Proof.
  split; [reflexivity|].
  eexists. split; [exact get_phenotype_fast_fast|].
  split; [reflexivity | discriminate].
Qed.

(** [int((e + e) / 2)] is [e] again, in double precision, for every effect
    value between -3000 and 3000. *)
Lemma truediv_doubled (e : Z) :
  -3000 <= e <= 3000 ->
  (avg ← truediv (e + e) 2; int_of_float avg) = Ok e.
Proof.
  intros He.
  pose (own := fun e : Z =>
          match (avg ← truediv (e + e) 2; int_of_float avg) with
          | Ok v => v =? e
          | Raise _ => false
          end).
  assert (Hall : forallb own (seqZ (-3000) 6001) = true)
    by (vm_compute; reflexivity).
  assert (Hown : own e = true).
  { eapply forallb_forall; [exact Hall|].
    apply list_elem_of_In, elem_of_seqZ. lia. }
  unfold own in Hown.
  destruct (avg ← truediv (e + e) 2; int_of_float avg) as [v|err];
    [|discriminate].
  apply Z.eqb_eq in Hown. congruence.
Qed.

(** C6, amended.  For every pair of alleles whose symbols are equal:
    under the gene name ["coat_color"], [get_phenotype] reports the
    homozygous case, the phenotype string being the first allele's name
    followed by [" (pure)"] and the effect value that allele's own effect
    value; under any other gene name no homozygous case exists, whatever is
    returned carries no ["is_pure"] and no ["genotype"] key and its
    phenotype string is the symbol or the symbol twice around a ['/'];
    under every gene name, when the two alleles carry the same effect
    value, between -3000 and 3000, [get_phenotype] returns and the effect
    value is that allele's own effect value. *)
Theorem get_phenotype_coat_homozygous (allele1 allele2 : Allele) :
  symbol allele1 = symbol allele2 ->
  PunnettSquare.get_phenotype allele1 allele2 (Some "coat_color") =
    Ok {| PunnettSquare.phenotype := allele_name allele1 +:+ " (pure)";
          PunnettSquare.genotype := Some (symbol allele1 +:+ symbol allele2);
          PunnettSquare.info_effect_value := effect_value allele1;
          PunnettSquare.inheritance_type := "homozygous";
          PunnettSquare.is_pure := Some true |}
  /\ (forall gene_name info,
        gene_name <> Some "coat_color" ->
        PunnettSquare.get_phenotype allele1 allele2 gene_name = Ok info ->
        PunnettSquare.is_pure info = None /\
        PunnettSquare.genotype info = None /\
        PunnettSquare.inheritance_type info <> "homozygous" /\
        (PunnettSquare.phenotype info = symbol allele1 \/
         PunnettSquare.phenotype info
           = symbol allele1 +:+ "/" +:+ symbol allele1))
  /\ (forall gene_name,
        effect_value allele1 = effect_value allele2 ->
        -3000 <= effect_value allele1 <= 3000 ->
        exists info,
          PunnettSquare.get_phenotype allele1 allele2 gene_name = Ok info /\
          PunnettSquare.info_effect_value info = effect_value allele1).
Proof.
  intros Hsym. split; [|split].
  - unfold PunnettSquare.get_phenotype.
    rewrite bool_decide_eq_true_2 by reflexivity.
    rewrite Hsym, String.eqb_refl. reflexivity.
  - intros gene_name info Hname. unfold PunnettSquare.get_phenotype.
    rewrite bool_decide_eq_false_2 by assumption. rewrite <- Hsym.
    destruct (dominance_level allele2 <? dominance_level allele1);
      [intros [= <-]; cbn; repeat split; try discriminate; auto|].
    destruct (dominance_level allele1 <? dominance_level allele2);
      [intros [= <-]; cbn; repeat split; try discriminate; auto|].
    intros H.
    apply bind_inv_ok in H as [avg [_ H]].
    apply bind_inv_ok in H as [effect [_ H]].
    injection H as <-. cbn. repeat split; try discriminate; auto.
  - intros gene_name Heffect Hbound. unfold PunnettSquare.get_phenotype.
    rewrite <- Heffect.
    pose proof (truediv_doubled (effect_value allele1) Hbound) as Hown.
    destruct (bool_decide (gene_name = Some "coat_color")).
    + rewrite Hsym, String.eqb_refl. eexists. split; reflexivity.
    + destruct (dominance_level allele2 <? dominance_level allele1);
        [eexists; split; reflexivity|].
      destruct (dominance_level allele1 <? dominance_level allele2);
        [eexists; split; reflexivity|].
      destruct (truediv (effect_value allele1 + effect_value allele1) 2)
        as [avg|err]; cbn [mbind result_bind bind] in Hown |- *;
        [|discriminate].
      rewrite Hown. eexists. split; reflexivity.
Qed.

Lemma get_phenotype_coat_homozygous_witness :
  symbol Examples.brown = symbol Examples.brown /\
  PunnettSquare.get_phenotype Examples.brown Examples.brown
    (Some "coat_color") =
    Ok {| PunnettSquare.phenotype := "Brown (pure)";
          PunnettSquare.genotype := Some "BB";
          PunnettSquare.info_effect_value := 20;
          PunnettSquare.inheritance_type := "homozygous";
          PunnettSquare.is_pure := Some true |} /\
  exists info,
    PunnettSquare.get_phenotype Examples.brown Examples.brown
      (Some "speed") = Ok info /\
    PunnettSquare.info_effect_value info = 20.
Proof.
  split; [reflexivity|]. split.
  - exact (proj1 (get_phenotype_coat_homozygous
                    Examples.brown Examples.brown eq_refl)).
  - exact (proj2 (proj2 (get_phenotype_coat_homozygous
                           Examples.brown Examples.brown eq_refl))
             (Some "speed") eq_refl ltac:(cbn; lia)).
Defined.

(** ** C9 *)

(** C9.  For every pet whose genetic code is unset or empty,
    [calculate_rarity_score] returns exactly 0, whatever the speed and the
    endurance: no default genotype and no stat bonus is counted. *)
Theorem calculate_rarity_score_no_code (pet : Pet) :
  genetic_code pet = None \/ genetic_code pet = Some "" ->
  RarityCalculator.calculate_rarity_score pet = Ok 0.
Proof.
  intros [H|H]; unfold RarityCalculator.calculate_rarity_score;
    rewrite H; reflexivity.
Qed.

Lemma calculate_rarity_score_no_code_witness :
  (genetic_code (Examples.pet_with None 100 100 0 (Some "Common")) = None \/
   genetic_code (Examples.pet_with None 100 100 0 (Some "Common")) = Some "")
  /\ RarityCalculator.calculate_rarity_score
       (Examples.pet_with None 100 100 0 (Some "Common")) = Ok 0.
Proof.
  split; [left; reflexivity|].
  apply calculate_rarity_score_no_code. left. reflexivity.
Defined.

(** ** C10 *)

(** C10, as stated, fails when the rarity computation raises: a pet whose
    score is 0 and whose code gives [coat_color] a single symbol makes
    [calculate_rarity_score] raise [IndexError]; the call raises and the
    pet is left as it was. *)
Lemma calculate_market_value_score_zero_unchanged :
  rarity_score Examples.truncated_coat = 0 /\
  RarityCalculator.calculate_rarity_score Examples.truncated_coat
    = Raise IndexError /\
  RarityCalculator.calculate_market_value Examples.truncated_coat
    = (Raise IndexError, Examples.truncated_coat).
Proof. repeat split; vm_compute; reflexivity. Qed.

(** C10, amended.  [calculate_market_value] changes the pet only when
    [pet.rarity_score] equals 0.  In that case, when
    [calculate_rarity_score] returns a score, [rarity_score] and
    [rarity_tier] are overwritten with the score and its tier before
    pricing, the price is computed on the updated pet and no other field
    changes; when [calculate_rarity_score] raises, the call raises the same
    exception and the pet is unchanged.  When [pet.rarity_score] is not 0
    every field is left unchanged and the price is computed on the pet as
    it is. *)
Theorem calculate_market_value_frame (pet : Pet) :
  (rarity_score pet <> 0 ->
   RarityCalculator.calculate_market_value pet =
     (RarityCalculator.price pet, pet)) /\
  (rarity_score pet = 0 ->
   (forall score,
      RarityCalculator.calculate_rarity_score pet = Ok score ->
      let pet' :=
        set_rarity_tier (Some (RarityCalculator.get_rarity_tier score))
                        (set_rarity_score score pet) in
      RarityCalculator.calculate_market_value pet =
        (RarityCalculator.price pet', pet')) /\
   (forall e,
      RarityCalculator.calculate_rarity_score pet = Raise e ->
      RarityCalculator.calculate_market_value pet = (Raise e, pet))).
Proof.
  unfold RarityCalculator.calculate_market_value,
         RarityCalculator.refresh_rarity.
  split.
  - intros Hne. apply Z.eqb_neq in Hne. rewrite Hne. reflexivity.
  - intros Hz. apply Z.eqb_eq in Hz. rewrite Hz.
    split; [intros score Hs | intros e He].
    + rewrite Hs. reflexivity.
    + rewrite He. reflexivity.
Qed.

Lemma calculate_market_value_frame_witness :
  rarity_score Examples.champion = 0 /\
  RarityCalculator.calculate_rarity_score Examples.champion = Ok 16 /\
  RarityCalculator.calculate_market_value Examples.champion =
    (Ok 34612,
     set_rarity_tier (Some "Legendary")
                     (set_rarity_score 16 Examples.champion)).
Proof.
  assert (Hz : rarity_score Examples.champion = 0) by reflexivity.
  assert (Hs : RarityCalculator.calculate_rarity_score Examples.champion
               = Ok 16)
    by (vm_compute; reflexivity).
  split; [exact Hz|]. split; [exact Hs|].
  rewrite (proj1 (proj2 (calculate_market_value_frame Examples.champion) Hz)
             16 Hs).
  vm_compute. reflexivity.
Defined.

(** ** C2 *)

(** C2.  When either parent has no genotype entry, [breed] raises
    [ValueError] and leaves the session as it found it: no pet, no
    genetics row and no offspring record is added. *)
Theorem breed_without_genetics (s : Session) (parent1 parent2 : Pet)
  (child_name child_species child_color : string) (owner_id : Z)
  (draws : nat -> nat) (r_speed r_endurance : Z) :
  query_pet_genetics s (id parent1) = [] \/
  query_pet_genetics s (id parent2) = [] ->
  BreedingEngine.breed s parent1 parent2 child_name child_species
    child_color owner_id draws r_speed r_endurance
  = (Raise ValueError, s).
Proof.
  intros H. unfold BreedingEngine.breed.
  destruct H as [-> | ->]; [reflexivity|].
  destruct (query_pet_genetics s (id parent1)); reflexivity.
Qed.

Lemma breed_without_genetics_witness :
  (query_pet_genetics Examples.kennel (id Examples.ann) = [] \/
   query_pet_genetics Examples.kennel (id Examples.stray) = []) /\
  BreedingEngine.breed Examples.kennel Examples.ann Examples.stray
    "Kid" "Guinea Pig" "Mixed" 7 (fun _ => 0%nat) 0 0
  = (Raise ValueError, Examples.kennel).
Proof.
  assert (H : query_pet_genetics Examples.kennel (id Examples.ann) = [] \/
              query_pet_genetics Examples.kennel (id Examples.stray) = [])
    by (right; reflexivity).
  split; [exact H|].
  exact (breed_without_genetics Examples.kennel Examples.ann Examples.stray
           "Kid" "Guinea Pig" "Mixed" 7 (fun _ => 0%nat) 0 0 H).
Defined.

(** ** Splitting and joining strings *)

#[local] Arguments String.append !s1 s2 : simpl nomatch.

Lemma contains_app (c : ascii) (a b : string) :
  contains c (a +:+ b) = contains c a || contains c b.
Proof.
  induction a as [|x a IH]; cbn; [reflexivity|].
  destruct (Ascii.eqb x c); [reflexivity | exact IH].
Qed.

Lemma split_nonempty (sep : ascii) (s : string) : split sep s <> [].
Proof.
  destruct s as [|c s]; cbn; [discriminate|].
  destruct (Ascii.eqb c sep); [discriminate|].
  destruct (split sep s); discriminate.
Qed.

Lemma split_no_sep (sep : ascii) (s : string) :
  contains sep s = false -> split sep s = [s].
Proof.
  induction s as [|c s IH]; cbn; [reflexivity|].
  destruct (Ascii.eqb c sep); [discriminate|].
  intros H. rewrite (IH H). reflexivity.
Qed.

Lemma split_app_sep (sep : ascii) (a b : string) :
  contains sep a = false ->
  split sep (a +:+ String sep b) = a :: split sep b.
Proof.
  induction a as [|c a IH]; cbn.
  - intros _. rewrite Ascii.eqb_refl. reflexivity.
  - destruct (Ascii.eqb c sep); [discriminate|].
    intros H. rewrite (IH H). reflexivity.
Qed.

Lemma split_join (sep : ascii) (l : list string) :
  l <> [] ->
  Forall (fun x => contains sep x = false) l ->
  split sep (join (String sep EmptyString) l) = l.
Proof.
  intros Hne Hl. induction Hl as [|x l Hx Hl IH]; [congruence|].
  destruct l as [|y l].
  - cbn. apply split_no_sep. assumption.
  - change (join (String sep EmptyString) (x :: y :: l))
      with (x +:+ String sep (join (String sep EmptyString) (y :: l))).
    rewrite split_app_sep by assumption.
    rewrite IH by discriminate. reflexivity.
Qed.

Lemma split_pieces (sep : ascii) (s : string) :
  Forall (fun x => contains sep x = false) (split sep s).
Proof.
  induction s as [|c s IH]; cbn.
  - repeat constructor.
  - destruct (Ascii.eqb c sep) eqn:E.
    + constructor; [reflexivity | exact IH].
    + destruct (split sep s) as [|piece pieces]; [repeat constructor|].
      * cbn. rewrite E. reflexivity.
      * inversion IH; subst. constructor; [|assumption].
        cbn. rewrite E. assumption.
Qed.

Lemma join_split (sep : ascii) (s : string) :
  join (String sep EmptyString) (split sep s) = s.
Proof.
  induction s as [|c s IH]; cbn; [reflexivity|].
  destruct (Ascii.eqb_spec c sep) as [->|Hne].
  - pose proof (split_nonempty sep s) as Hs.
    destruct (split sep s) as [|piece pieces]; [congruence|].
    cbn in *. rewrite IH. reflexivity.
  - destruct (split sep s) as [|piece pieces].
    + cbn in IH. subst s. reflexivity.
    + destruct pieces as [|p ps]; cbn in *; rewrite <- IH; reflexivity.
Qed.

(** ** Reading the segments of a genetic code *)

Lemma segment_of_has_colon (e : Spec.entry) :
  contains ":"%char (Spec.segment_of e) = true.
Proof.
  unfold Spec.segment_of. rewrite contains_app. cbn.
  apply orb_true_r.
Qed.

Lemma segment_of_split_colon (e : Spec.entry) :
  contains ":"%char e.1 = false ->
  contains ":"%char e.2.1 = false -> contains ":"%char e.2.2 = false ->
  split ":"%char (Spec.segment_of e) = [e.1; e.2.1 +:+ "-" +:+ e.2.2].
Proof.
  intros Hn H1 H2. unfold Spec.segment_of.
  change (":" +:+ e.2.1 +:+ "-" +:+ e.2.2)
    with (String ":"%char (e.2.1 +:+ "-" +:+ e.2.2)).
  rewrite split_app_sep by assumption.
  rewrite split_no_sep; [reflexivity|].
  rewrite contains_app, H1. cbn. exact H2.
Qed.

Lemma alleles_split_dash (a1 a2 : string) :
  contains "-"%char a1 = false -> contains "-"%char a2 = false ->
  split "-"%char (a1 +:+ "-" +:+ a2) = [a1; a2].
Proof.
  intros H1 H2.
  change ("-" +:+ a2) with (String "-"%char a2).
  rewrite split_app_sep by assumption.
  rewrite split_no_sep by assumption. reflexivity.
Qed.

(** The mapping built by inserting the entries from left to right, a later
    entry replacing an earlier one of the same name. *)
Lemma decode_segments_spec (segments : list string)
  (items : list (option Spec.entry)) (genes : gmap string (string * string)) :
  Forall2 Spec.segment segments items ->
  GeneticCode.decode_segments segments genes =
    Ok (foldr (fun (e : Spec.entry) acc => <[e.1 := e.2]> acc) genes
              (reverse (Spec.entries_read items))).
Proof.
  intros H. revert genes.
  induction H as [|seg item segments items Hseg _ IH]; intros genes.
  - reflexivity.
  - destruct Hseg as [s Hs | gene_name a1 a2 Hn H1 H2 H3 H4].
    + cbn [GeneticCode.decode_segments]. rewrite Hs. exact (IH genes).
    + cbn [GeneticCode.decode_segments].
      rewrite segment_of_has_colon.
      rewrite segment_of_split_colon by assumption.
      cbn [fst snd]. rewrite alleles_split_dash by assumption.
      rewrite IH.
      change (Spec.entries_read (Some (gene_name, (a1, a2)) :: items))
        with ((gene_name, (a1, a2)) :: Spec.entries_read items).
      rewrite reverse_cons, foldr_app.
      reflexivity.
Qed.

(** A segment that [decode] does not skip and that is not of the form
    ["name:a1-a2"] makes the tuple assignments fail. *)
Lemma decode_segment_step (gene_pair : string) (rest : list string)
  (genes : gmap string (string * string)) :
  (exists item, Spec.segment gene_pair item) \/
  GeneticCode.decode_segments (gene_pair :: rest) genes = Raise ValueError.
Proof.
  cbn [GeneticCode.decode_segments].
  destruct (contains ":"%char gene_pair) eqn:Hc;
    [|left; eexists; apply Spec.segment_skipped; assumption].
  pose proof (join_split ":"%char gene_pair) as Hjoin.
  pose proof (split_pieces ":"%char gene_pair) as Hpieces.
  destruct (split ":"%char gene_pair) as [|gene_name [|alleles [|x xs]]];
    try (right; reflexivity).
  pose proof (join_split "-"%char alleles) as Hjoin'.
  pose proof (split_pieces "-"%char alleles) as Hpieces'.
  destruct (split "-"%char alleles) as [|a1 [|a2 [|y ys]]];
    try (right; reflexivity).
  left. exists (Some (gene_name, (a1, a2))).
  cbn in Hjoin, Hjoin'. subst alleles.
  inversion Hpieces as [|? ? Hn Hrest]; subst.
  inversion Hrest as [|? ? Hal _]; subst.
  inversion Hpieces' as [|? ? Ha1 Hrest']; subst.
  inversion Hrest' as [|? ? Ha2 _]; subst.
  rewrite contains_app in Hal. cbn in Hal.
  apply orb_false_elim in Hal as [Hal1 Hal2].
  exact (Spec.segment_entry gene_name a1 a2 Hn Hal1 Hal2 Ha1 Ha2).
Qed.

Lemma decode_segments_raise (segments : list string)
  (genes : gmap string (string * string)) :
  (exists seg, seg ∈ segments /\ forall item, ~ Spec.segment seg item) ->
  GeneticCode.decode_segments segments genes = Raise ValueError.
Proof.
  revert genes. induction segments as [|gene_pair rest IH]; intros genes.
  - intros [seg [Hin _]]. apply elem_of_nil in Hin. contradiction.
  - intros [seg [Hin Hbad]].
    destruct (decode_segment_step gene_pair rest genes) as [[item Hitem]|Hr];
      [|exact Hr].
    apply elem_of_cons in Hin as [->|Hin]; [exfalso; eapply Hbad; eauto|].
    assert (Hrest : forall genes',
              GeneticCode.decode_segments rest genes' = Raise ValueError)
      by (intros genes'; apply IH; eauto).
    destruct Hitem as [s Hs | gene_name a1 a2 Hn H1 H2 H3 H4].
    + cbn [GeneticCode.decode_segments]. rewrite Hs. apply Hrest.
    + cbn [GeneticCode.decode_segments].
      rewrite segment_of_has_colon.
      rewrite segment_of_split_colon by assumption.
      cbn [fst snd]. rewrite alleles_split_dash by assumption.
      apply Hrest.
Qed.

(** ** C4 *)

(** C4, as stated, fails on a segment that has a [':'] but no ['-']: the
    second tuple assignment raises [ValueError]. *)
Lemma decode_missing_dash_raises :
  contains "-"%char "coat_color:BB" = false /\
  GeneticCode.decode "coat_color:BB" = Raise ValueError.
Proof. split; vm_compute; reflexivity. Qed.

(** C4, amended.  [decode] skips every segment that has no [':'] and reads
    every segment of the form ["name:a1-a2"] (no other [':'], no other
    ['-'] after it).  When every segment is of one of these two kinds it
    returns the mapping of the segments read, a later segment replacing an
    earlier one of the same name.  When some segment has a [':'] and is not
    of that form (no ['-'], a second ['-'], a second [':']) it raises
    [ValueError]. *)
Theorem decode_skips_or_raises (genetic_code : string) :
  (forall items,
     Forall2 Spec.segment (split ";"%char genetic_code) items ->
     GeneticCode.decode genetic_code
       = Ok (list_to_map (reverse (Spec.entries_read items)))) /\
  ((exists seg, seg ∈ split ";"%char genetic_code /\
                forall item, ~ Spec.segment seg item) ->
   GeneticCode.decode genetic_code = Raise ValueError).
Proof.
  unfold GeneticCode.decode. split.
  - intros items H. rewrite (decode_segments_spec _ _ ∅ H). reflexivity.
  - apply decode_segments_raise.
Qed.

Lemma decode_skips_or_raises_witness :
  Forall2 Spec.segment
    (split ";"%char "coat_color:B-B;hair_length:H-h;badseg")
    [Some ("coat_color", ("B", "B")); Some ("hair_length", ("H", "h"));
     None] /\
  GeneticCode.decode "coat_color:B-B;hair_length:H-h;badseg"
    = Ok (<["coat_color" := ("B", "B")]>
            (<["hair_length" := ("H", "h")]> ∅)).
Proof.
  assert (H : Forall2 Spec.segment
                (split ";"%char "coat_color:B-B;hair_length:H-h;badseg")
                [Some ("coat_color", ("B", "B"));
                 Some ("hair_length", ("H", "h")); None]).
  { change (split ";"%char "coat_color:B-B;hair_length:H-h;badseg")
      with ["coat_color:B-B"; "hair_length:H-h"; "badseg"].
    apply List.Forall2_cons;
      [exact (Spec.segment_entry "coat_color" "B" "B"
                eq_refl eq_refl eq_refl eq_refl eq_refl)|].
    apply List.Forall2_cons;
      [exact (Spec.segment_entry "hair_length" "H" "h"
                eq_refl eq_refl eq_refl eq_refl eq_refl)|].
    apply List.Forall2_cons;
      [exact (Spec.segment_skipped "badseg" eq_refl)|].
    apply List.Forall2_nil. }
  split; [exact H|].
  rewrite (proj1 (decode_skips_or_raises _) _ H).
  vm_compute. reflexivity.
Defined.

(** ** C1 *)

Lemma encode_entry_of (pg : PetGenetics) (e : Spec.entry) :
  Spec.entry_of pg = Some e ->
  GeneticCode.encode_entry pg = Ok (Spec.segment_of e).
Proof.
  unfold Spec.entry_of, GeneticCode.encode_entry.
  destruct (gene pg), (allele1 pg), (allele2 pg); try discriminate.
  intros [= <-]. reflexivity.
Qed.

Lemma encode_entries (pet_genetics : list PetGenetics)
  (entries : list Spec.entry) :
  Forall2 (fun pg e => Spec.entry_of pg = Some e) pet_genetics entries ->
  GeneticCode.encode pet_genetics
    = Ok (join ";" (map Spec.segment_of entries)).
Proof.
  intros H. unfold GeneticCode.encode.
  rewrite (mapM_ok _ _ (map Spec.segment_of entries)); [reflexivity|].
  induction H as [|pg e pgs es Hpg _ IH]; cbn; constructor;
    [apply encode_entry_of; assumption | exact IH].
Qed.

Lemma delimiter_free_spec (s : string) :
  Spec.delimiter_free s = true ->
  contains ":"%char s = false /\ contains ";"%char s = false /\
  contains "-"%char s = false.
Proof.
  unfold Spec.delimiter_free.
  rewrite !andb_true_iff, !negb_true_iff. tauto.
Qed.

Lemma well_formed_segment (e : Spec.entry) :
  Spec.well_formed e = true ->
  Spec.segment (Spec.segment_of e) (Some e) /\
  contains ";"%char (Spec.segment_of e) = false.
Proof.
  destruct e as [gene_name [a1 a2]].
  unfold Spec.well_formed, Spec.well_formed_as_claimed. cbn [fst snd].
  rewrite !andb_true_iff.
  intros [[[[Hn _] _] H1] H2].
  apply delimiter_free_spec in Hn as (Hn1 & Hn2 & _).
  apply delimiter_free_spec in H1 as (H11 & H12 & H13).
  apply delimiter_free_spec in H2 as (H21 & H22 & H23).
  split; [apply Spec.segment_entry; assumption|].
  unfold Spec.segment_of. cbn [fst snd].
  rewrite !contains_app, Hn2, H12, H22. reflexivity.
Qed.

Lemma entries_read_some (entries : list Spec.entry) :
  Spec.entries_read (map Some entries) = entries.
Proof.
  induction entries as [|e entries IH]; [reflexivity|].
  change (Spec.entries_read (map Some (e :: entries)))
    with (e :: Spec.entries_read (map Some entries)).
  rewrite IH. reflexivity.
Qed.

(** Decoding the code of a list of well-formed entries: the entries are
    inserted from left to right. *)
Lemma decode_encoded_entries (entries : list Spec.entry) :
  Forall (fun e => Spec.well_formed e = true) entries ->
  GeneticCode.decode (join ";" (map Spec.segment_of entries))
    = Ok (list_to_map (reverse entries)).
Proof.
  intros Hwf. unfold GeneticCode.decode.
  destruct entries as [|e entries]; [reflexivity|].
  change ";"%string with (String ";"%char EmptyString).
  rewrite split_join.
  - rewrite (decode_segments_spec _ (map Some (e :: entries))).
    + rewrite entries_read_some. reflexivity.
    + induction Hwf as [|e' es He' _ IH]; cbn; constructor;
        [apply well_formed_segment; assumption | exact IH].
  - discriminate.
  - induction Hwf as [|e' es He' _ IH]; cbn; constructor;
      [apply well_formed_segment; assumption | exact IH].
Qed.

(** C1, as stated, fails when an allele symbol is itself a delimiter: the
    mapping [{"x": ("-", "a")}] is well formed in the words of the claim,
    its code is ["x:--a"], and decoding that raises [ValueError]. *)
Lemma decode_encode_dash_symbol :
  Spec.entry_of Examples.dash_pair = Some ("x", ("-", "a")) /\
  Spec.well_formed_as_claimed ("x", ("-", "a")) = true /\
  GeneticCode.encode [Examples.dash_pair] = Ok "x:--a" /\
  GeneticCode.decode "x:--a" = Raise ValueError.
Proof. repeat split; vm_compute; reflexivity. Qed.

(** C1, amended.  For every genotype mapping whose entries are a gene name
    without [':'], [';'] or ['-'] and two one-character allele symbols, none
    of them [':'], [';'] or ['-'], [encode] returns a code and decoding it
    yields the mapping: each gene name bound to its pair of symbols.  The
    mapping is given by the entries of the instances, one per gene name, in
    the order they are encoded. *)
Theorem decode_encode_round_trip (pet_genetics : list PetGenetics)
  (entries : list Spec.entry) :
  Forall2 (fun pg e => Spec.entry_of pg = Some e) pet_genetics entries ->
  NoDup (entries.*1) ->
  Forall (fun e => Spec.well_formed e = true) entries ->
  exists code,
    GeneticCode.encode pet_genetics = Ok code /\
    GeneticCode.decode code = Ok (list_to_map entries).
Proof.
  intros Hentries Hnodup Hwf.
  exists (join ";" (map Spec.segment_of entries)).
  split; [apply encode_entries; assumption|].
  rewrite decode_encoded_entries by assumption.
  f_equal. apply list_to_map_proper.
  - rewrite fmap_reverse, reverse_Permutation. assumption.
  - apply reverse_Permutation.
Qed.

Lemma decode_encode_round_trip_witness :
  Forall2 (fun pg e => Spec.entry_of pg = Some e)
    (query_pet_genetics Examples.kennel 1)
    [("coat_color", ("B", "O")); ("speed", ("F", "f"))] /\
  NoDup ([("coat_color", ("B", "O")); ("speed", ("F", "f"))].*1) /\
  Forall (fun e => Spec.well_formed e = true)
    [("coat_color", ("B", "O")); ("speed", ("F", "f"))] /\
  exists code,
    GeneticCode.encode (query_pet_genetics Examples.kennel 1) = Ok code /\
    GeneticCode.decode code
      = Ok (list_to_map [("coat_color", ("B", "O")); ("speed", ("F", "f"))]).
Proof.
  assert (H1 : Forall2 (fun pg e => Spec.entry_of pg = Some e)
                 (query_pet_genetics Examples.kennel 1)
                 [("coat_color", ("B", "O")); ("speed", ("F", "f"))])
    by (repeat constructor).
  assert (H2 : NoDup ([("coat_color", ("B", "O"));
                       ("speed", ("F", "f"))].*1))
    by (cbn; repeat constructor; rewrite ?list_elem_of_singleton,
          ?elem_of_nil; try discriminate; tauto).
  assert (H3 : Forall (fun e => Spec.well_formed e = true)
                 [("coat_color", ("B", "O")); ("speed", ("F", "f"))])
    by (repeat constructor).
  split; [exact H1|]. split; [exact H2|]. split; [exact H3|].
  exact (decode_encode_round_trip _ _ H1 H2 H3).
Defined.

(** ** Float computations over a finite range *)

Lemma forallb_seqZ (f : Z -> bool) (lo n t : Z) :
  forallb f (seqZ lo n) = true -> lo <= t < lo + n -> f t = true.
Proof.
  intros H Ht. eapply forallb_forall; [exact H|].
  apply list_elem_of_In, elem_of_seqZ. assumption.
Qed.

Lemma is_ok_inv {A : Type} (m : result A) :
  is_ok m = true -> exists a, m = Ok a.
Proof. destruct m; [eauto | discriminate]. Qed.


Lemma product_total (b t : Z) (pure fluffy : bool) :
  In b [100; 500; 2000; 10000] -> 0 <= t <= 200 ->
  exists v, Spec.product int_of_float b t pure fluffy = Ok v.
Proof.
  intros Hb Ht. apply is_ok_inv.
  assert (Hgrid :
    forallb (fun t =>
      forallb (fun b =>
        forallb (fun p =>
          forallb (fun f => is_ok (Spec.product int_of_float b t p f))
                  [true; false])
          [true; false])
        [100; 500; 2000; 10000])
      (seqZ 0 201) = true) by (vm_compute; reflexivity).
  pose proof (forallb_seqZ _ 0 201 t Hgrid ltac:(lia)) as Hbases.
  cbv beta in Hbases.
  pose proof (proj1 (forallb_forall _ _) Hbases b Hb) as Hcell.
  cbn [forallb] in Hcell.
  rewrite !andb_true_iff in Hcell.
  destruct pure, fluffy; tauto.
Qed.

(** ** Reading the coat and the hair off a genetic code *)

Lemma base_prices_spec (tier : string) :
  RarityCalculator.base_prices tier = Spec.base tier.
Proof.
  unfold RarityCalculator.base_prices, Spec.base, Spec.base_table.
  cbn [List.find fst snd].
  rewrite (String.eqb_sym "Common" tier), (String.eqb_sym "Uncommon" tier),
          (String.eqb_sym "Rare" tier), (String.eqb_sym "Legendary" tier).
  destruct (String.eqb tier "Common"); [reflexivity|].
  destruct (String.eqb tier "Uncommon"); [reflexivity|].
  destruct (String.eqb tier "Rare"); [reflexivity|].
  destruct (String.eqb tier "Legendary"); reflexivity.
Qed.

Lemma base_in_table (tier : string) :
  In (Spec.base tier) [100; 500; 2000; 10000].
Proof.
  unfold Spec.base, Spec.base_table. cbn [List.find fst snd].
  destruct (String.eqb "Common" tier); [cbn; tauto|].
  destruct (String.eqb "Uncommon" tier); [cbn; tauto|].
  destruct (String.eqb "Rare" tier); [cbn; tauto|].
  destruct (String.eqb "Legendary" tier); cbn; tauto.
Qed.

Lemma float_of_base (tier : string) :
  float_of_int (Spec.base tier) = Ok (flit (Spec.base tier)).
Proof.
  pose proof (base_in_table tier) as H. cbn in H.
  destruct H as [<- | [<- | [<- | [<- | []]]]]; vm_compute; reflexivity.
Qed.








Lemma refresh_rarity_frame (pet pet' : Pet) :
  RarityCalculator.refresh_rarity pet = Ok pet' ->
  genetic_code pet' = genetic_code pet /\
  speed pet' = speed pet /\ endurance pet' = endurance pet.
Proof.
  unfold RarityCalculator.refresh_rarity.
  destruct (rarity_score pet =? 0).
  - intros H. apply bind_inv_ok in H as [score [_ H]].
    injection H as <-. repeat split; reflexivity.
  - intros [= <-]. repeat split; reflexivity.
Qed.

Lemma price_floor (pet : Pet) (value : Z) :
  RarityCalculator.price pet = Ok value -> 50 <= value.
Proof.
  unfold RarityCalculator.price. intros H.
  apply bind_inv_ok in H as [avg [_ H]].
  apply bind_inv_ok in H as [ci [_ H]].
  apply bind_inv_ok in H as [hi [_ H]].
  apply bind_inv_ok in H as [b [_ H]].
  apply bind_inv_ok in H as [p [_ H]].
  injection H as <-. lia.
Qed.

(** ** C5 *)




(** ** The stat modifiers *)

Lemma routed_any_in (keywords : list string) (pg : PetGenetics) (g : Gene) :
  gene pg = Some g ->
  Spec.routed keywords pg
    = BreedingEngine.any_in keywords (lower (gene_name g)).
Proof. unfold Spec.routed. intros ->. reflexivity. Qed.

(** The loop accumulates, for each stat, the effect values of the
    instances routed to it. *)
Lemma stat_modifiers_spec (pet_genetics : list PetGenetics)
  (effects : list Z) (speed_mod endurance_mod : Z) :
  Forall2 (fun pg e => Spec.effect_of pg = Ok e) pet_genetics effects ->
  BreedingEngine.stat_modifiers pet_genetics speed_mod endurance_mod =
    Ok (speed_mod
        + Spec.modifier BreedingEngine.speed_traits pet_genetics effects,
        endurance_mod
        + Spec.modifier BreedingEngine.endurance_traits pet_genetics effects).
Proof.
  intros H. revert speed_mod endurance_mod.
  induction H as [|pg e pgs es Hpg _ IH]; intros speed_mod endurance_mod.
  - cbn. f_equal. f_equal; lia.
  - cbn [BreedingEngine.stat_modifiers Spec.modifier].
    unfold Spec.effect_of in Hpg.
    destruct (gene pg) as [g|] eqn:Hg; [|discriminate].
    destruct (allele1 pg) as [a1|]; [|discriminate].
    destruct (allele2 pg) as [a2|]; [|discriminate].
    cbn [attr mbind result_bind bind] in *.
    destruct (PunnettSquare.get_phenotype a1 a2 (Some (gene_name g)))
      as [info|]; [|discriminate].
    cbn [mbind result_bind bind mret result_ret] in *.
    injection Hpg as <-.
    rewrite IH, !(routed_any_in _ pg g Hg).
    f_equal.
    destruct (BreedingEngine.any_in BreedingEngine.speed_traits _),
             (BreedingEngine.any_in BreedingEngine.endurance_traits _);
      f_equal; lia.
Qed.

Lemma clamp_spec (v : Z) : BreedingEngine.clamp v = Spec.clamp v.
Proof.
  unfold BreedingEngine.clamp, Spec.clamp.
  destruct (Z.ltb_spec v 0), (Z.ltb_spec 100 v); lia.
Qed.

(** Between -1000 and 1000 the double-precision evaluation of
    [int(50 + modifier * 0.7 + r)] returns, and after clamping it agrees
    with the exact truncated value. *)
Lemma stat_value_clamped (modifier r : Z) :
  -1000 <= modifier <= 1000 -> -5 <= r <= 5 ->
  exists v,
    BreedingEngine.stat_value modifier r = Ok v /\
    BreedingEngine.clamp v = Spec.clamp (Spec.truncated_stat modifier r).
Proof.
  intros Hm Hr.
  pose (agrees := fun m r =>
          match BreedingEngine.stat_value m r with
          | Ok v => BreedingEngine.clamp v
                    =? Spec.clamp (Spec.truncated_stat m r)
          | Raise _ => false
          end).
  assert (Hgrid :
    forallb (fun m => forallb (fun r => agrees m r) (seqZ (-5) 11))
            (seqZ (-1000) 2001) = true) by (vm_compute; reflexivity).
  pose proof (forallb_seqZ _ _ _ modifier Hgrid ltac:(lia)) as Hrow.
  cbv beta in Hrow.
  pose proof (forallb_seqZ _ _ _ r Hrow ltac:(lia)) as Hcell.
  unfold agrees in Hcell.
  destruct (BreedingEngine.stat_value modifier r) as [v|];
    [|discriminate].
  exists v. split; [reflexivity|]. apply Z.eqb_eq. assumption.
Qed.

(** ** C7 *)

(** C7, as stated, fails on the conversion to an integer: a pet carrying
    twice an allele of [speed] with effect 1 has the speed modifier 1; with
    both draws 0 the code sets the speed to [int(50.7) = 50] where the
    formula with [round] gives 51. *)
Lemma update_stats_truncates_example :
  mapM Spec.effect_of (query_pet_genetics Examples.paddock 1) = Ok [1] /\
  Spec.modifier BreedingEngine.speed_traits
    (query_pet_genetics Examples.paddock 1) [1] = 1 /\
  BreedingEngine.update_stats_from_genetics Examples.paddock Examples.dot 0 0
    = (Ok tt, set_endurance 50 (set_speed 50 Examples.dot)) /\
  Spec.stat round_float 1 0 = Ok 51 /\
  Spec.clamp (Spec.rounded_stat 1 0) = 51.
Proof. repeat split; vm_compute; reflexivity. Qed.

(** C7, amended.  For a pet without genotype entries
    [update_stats_from_genetics] changes nothing.  For every non-empty
    genotype whose entries resolve to a phenotype effect and every pair of
    draws, it sets each stat to
    [clamp(0, 100, int(50 + modifier*0.7 + r))], where [int] truncates
    toward zero and [modifier] is the sum of the phenotype effect values of
    the genes routed to that stat by the keyword lists (speed: "speed",
    "agility", "movement"; endurance: "endurance", "stamina", "energy"); no
    other field changes.  This holds in double precision whenever the two
    conversions return, and with modifiers between -1000 and 1000 and draws
    in [-5, 5] they do return and the clamped value is that of the exact
    expression truncated toward zero. *)
Theorem update_stats_formula (s : Session) (pet : Pet)
  (r_speed r_endurance : Z) (effects : list Z) :
  (query_pet_genetics s (id pet) = [] ->
   BreedingEngine.update_stats_from_genetics s pet r_speed r_endurance
     = (Ok tt, pet)) /\
  (query_pet_genetics s (id pet) <> [] ->
   Forall2 (fun pg e => Spec.effect_of pg = Ok e)
     (query_pet_genetics s (id pet)) effects ->
   forall v_speed v_endurance,
     Spec.stat int_of_float
       (Spec.modifier BreedingEngine.speed_traits
          (query_pet_genetics s (id pet)) effects) r_speed = Ok v_speed ->
     Spec.stat int_of_float
       (Spec.modifier BreedingEngine.endurance_traits
          (query_pet_genetics s (id pet)) effects) r_endurance
       = Ok v_endurance ->
     BreedingEngine.update_stats_from_genetics s pet r_speed r_endurance =
       (Ok tt,
        set_endurance (Spec.clamp v_endurance)
                      (set_speed (Spec.clamp v_speed) pet))) /\
  (query_pet_genetics s (id pet) <> [] ->
   Forall2 (fun pg e => Spec.effect_of pg = Ok e)
     (query_pet_genetics s (id pet)) effects ->
   -5 <= r_speed <= 5 -> -5 <= r_endurance <= 5 ->
   -1000 <= Spec.modifier BreedingEngine.speed_traits
              (query_pet_genetics s (id pet)) effects <= 1000 ->
   -1000 <= Spec.modifier BreedingEngine.endurance_traits
              (query_pet_genetics s (id pet)) effects <= 1000 ->
   BreedingEngine.update_stats_from_genetics s pet r_speed r_endurance =
     (Ok tt,
      set_endurance
        (Spec.clamp
           (Spec.truncated_stat
              (Spec.modifier BreedingEngine.endurance_traits
                 (query_pet_genetics s (id pet)) effects) r_endurance))
        (set_speed
           (Spec.clamp
              (Spec.truncated_stat
                 (Spec.modifier BreedingEngine.speed_traits
                    (query_pet_genetics s (id pet)) effects) r_speed))
           pet))).
Proof.
  unfold BreedingEngine.update_stats_from_genetics. split; [|split].
  - intros ->. reflexivity.
  - intros Hne Heffects vs ve Hvs Hve.
    rewrite (stat_modifiers_spec _ _ 0 0 Heffects), !Z.add_0_l.
    change (Spec.stat int_of_float) with BreedingEngine.stat_value in *.
    rewrite <- !clamp_spec.
    destruct (query_pet_genetics s (id pet)) as [|pg pgs];
      [congruence|].
    cbv beta iota. rewrite Hvs. cbv beta iota. rewrite Hve.
    reflexivity.
  - intros Hne Heffects Hrs Hre Hms Hme.
    rewrite (stat_modifiers_spec _ _ 0 0 Heffects), !Z.add_0_l.
    destruct (stat_value_clamped _ _ Hms Hrs) as [vs [Hvs Hcs]].
    destruct (stat_value_clamped _ _ Hme Hre) as [ve [Hve Hce]].
    rewrite <- Hcs, <- Hce.
    destruct (query_pet_genetics s (id pet)) as [|pg pgs];
      [congruence|].
    cbv beta iota. rewrite Hvs. cbv beta iota. rewrite Hve.
    reflexivity.
Qed.

Lemma update_stats_formula_witness :
  query_pet_genetics Examples.kennel (id Examples.ann) <> [] /\
  Forall2 (fun pg e => Spec.effect_of pg = Ok e)
    (query_pet_genetics Examples.kennel (id Examples.ann)) [15; 20] /\
  BreedingEngine.update_stats_from_genetics Examples.kennel Examples.ann
    5 (-5)
  = (Ok tt, set_endurance 45 (set_speed 69 Examples.ann)).
Proof.
  assert (Hne : query_pet_genetics Examples.kennel (id Examples.ann) <> [])
    by (vm_compute; discriminate).
  assert (Heffects :
    Forall2 (fun pg e => Spec.effect_of pg = Ok e)
      (query_pet_genetics Examples.kennel (id Examples.ann)) [15; 20]).
  { change (query_pet_genetics Examples.kennel (id Examples.ann))
      with [load Examples.kennel
              {| row_id := 1; row_pet_id := 1; row_gene_id := 1;
                 row_allele1_id := 1; row_allele2_id := 2 |};
            load Examples.kennel
              {| row_id := 2; row_pet_id := 1; row_gene_id := 3;
                 row_allele1_id := 6; row_allele2_id := 7 |}].
    apply List.Forall2_cons; [vm_compute; reflexivity|].
    apply List.Forall2_cons; [vm_compute; reflexivity|].
    apply List.Forall2_nil. }
  split; [exact Hne|]. split; [exact Heffects|].
  rewrite (proj2 (proj2 (update_stats_formula Examples.kennel Examples.ann
                           5 (-5) [15; 20]))
             Hne Heffects ltac:(lia) ltac:(lia)
             ltac:(vm_compute; split; discriminate)
             ltac:(vm_compute; split; discriminate)).
  vm_compute. reflexivity.
Defined.

(** ** The loop of [breed] *)

Lemma query_allele_some (s : Session) (gid : Z) (sym : string) (a : Allele) :
  query_allele s gid sym = Some a ->
  In a (alleles s) /\ allele_gene_id a = gid.
Proof.
  unfold query_allele. intros H. apply List.find_some in H as [Hin Hf].
  apply andb_true_iff in Hf as [Hg _]. apply Z.eqb_eq in Hg. auto.
Qed.

Lemma load_gene (s : Session) (r : pet_genetics_row) (g : Gene) :
  gene (load s r) = Some g -> gene_id g = pg_gene_id (load s r).
Proof.
  cbn. intros H. apply List.find_some in H as [_ Hf].
  apply Z.eqb_eq. assumption.
Qed.

Lemma positions_loaded (s : Session) (parent1 parent2 : Pet) :
  Forall (fun pair : PetGenetics * PetGenetics =>
            forall g, gene pair.1 = Some g -> gene_id g = pg_gene_id pair.1)
         (Spec.positions s parent1 parent2).
Proof.
  apply Forall_forall. intros [p1_gene p2_gene] Hin g Hg.
  apply elem_of_zip_l in Hin. apply list_elem_of_In in Hin.
  unfold query_pet_genetics in Hin.
  apply List.in_map_iff in Hin as [r [<- _]].
  apply load_gene. exact Hg.
Qed.

Lemma dict_set_Forall {V : Type} (P : Z * V -> Prop) (k : Z) (v : V)
  (d : list (Z * V)) :
  P (k, v) -> Forall P d -> Forall P (BreedingEngine.dict_set k v d).
Proof.
  intros Hkv. induction 1 as [|[k' v'] d Hk' Hd IH]; cbn.
  - repeat constructor. assumption.
  - destruct (k' =? k); constructor; assumption.
Qed.

(** One turn of the loop adds one Punnett entry and one note, and at most
    one pair of alleles, both found under the gene of the turn. *)
Lemma cross_gene_step (s : Session) (parent1 parent2 : Pet)
  (p1_gene p2_gene : PetGenetics) (n : nat)
  (acc acc' : BreedingEngine.crossing) :
  BreedingEngine.cross_gene s parent1 parent2 p1_gene p2_gene n acc
    = Ok acc' ->
  length (BreedingEngine.punnett_squares acc')
    = S (length (BreedingEngine.punnett_squares acc)) /\
  length (BreedingEngine.inheritance_notes_acc acc')
    = S (length (BreedingEngine.inheritance_notes_acc acc)) /\
  (BreedingEngine.offspring_alleles acc'
     = BreedingEngine.offspring_alleles acc \/
   exists g a1 a2,
     gene p1_gene = Some g /\
     In a1 (alleles s) /\ In a2 (alleles s) /\
     allele_gene_id a1 = gene_id g /\ allele_gene_id a2 = gene_id g /\
     BreedingEngine.offspring_alleles acc'
       = BreedingEngine.dict_set (gene_id g) (a1, a2)
           (BreedingEngine.offspring_alleles acc)).
Proof.
  unfold BreedingEngine.cross_gene. intros H.
  apply bind_inv_ok in H as [p1_a1 [_ H]].
  apply bind_inv_ok in H as [p1_a2 [_ H]].
  apply bind_inv_ok in H as [p2_a1 [_ H]].
  apply bind_inv_ok in H as [p2_a2 [_ H]].
  apply bind_inv_ok in H as [ps_result [_ H]].
  apply bind_inv_ok in H as [offspring_genotype [_ H]].
  apply bind_inv_ok in H as [g [Hg H]].
  apply bind_inv_ok in H as [sym0 [_ H]].
  apply bind_inv_ok in H as [sym1 [_ H]].
  injection H as <-.
  cbn [BreedingEngine.punnett_squares BreedingEngine.inheritance_notes_acc
       BreedingEngine.offspring_alleles].
  rewrite !length_app. cbn [length].
  split; [lia|]. split; [lia|].
  destruct (gene p1_gene) as [g'|]; [|discriminate].
  injection Hg as ->.
  destruct (query_allele s (gene_id g) sym0) as [a1|] eqn:H1; [|left; reflexivity].
  destruct (query_allele s (gene_id g) sym1) as [a2|] eqn:H2; [|left; reflexivity].
  apply query_allele_some in H1 as [Hin1 Hg1].
  apply query_allele_some in H2 as [Hin2 Hg2].
  right. exists g, a1, a2. repeat split; assumption.
Qed.

(** Positions whose two entries reference different genes are passed over:
    the loop behaves as on the list of the other positions. *)
Lemma cross_genes_skips (s : Session) (parent1 parent2 : Pet)
  (pairs : list (PetGenetics * PetGenetics)) (draws : nat -> nat)
  (acc : BreedingEngine.crossing) :
  BreedingEngine.cross_genes s parent1 parent2 pairs draws acc =
  BreedingEngine.cross_genes s parent1 parent2
    (List.filter Spec.same_gene pairs) draws acc.
Proof.
  revert draws acc.
  induction pairs as [|[p1_gene p2_gene] pairs IH]; intros draws acc;
    [reflexivity|].
  cbn [BreedingEngine.cross_genes List.filter].
  unfold Spec.same_gene at 1. cbn [fst snd].
  destruct (pg_gene_id p1_gene =? pg_gene_id p2_gene) eqn:Hsame;
    cbn [negb].
  - cbn [BreedingEngine.cross_genes]. rewrite Hsame. cbn [negb].
    destruct (BreedingEngine.cross_gene s parent1 parent2 p1_gene p2_gene
                (draws 0%nat) acc); [|reflexivity].
    cbn [mbind result_bind bind]. apply IH.
  - apply IH.
Qed.

Lemma cross_genes_invariant (s : Session) (parent1 parent2 : Pet)
  (all pairs : list (PetGenetics * PetGenetics)) :
  (forall pair, In pair pairs -> In pair all) ->
  Forall (fun pair : PetGenetics * PetGenetics =>
            forall g, gene pair.1 = Some g -> gene_id g = pg_gene_id pair.1)
         pairs ->
  forall (draws : nat -> nat) (acc crossed : BreedingEngine.crossing),
  Forall (Spec.within_gene s all) (BreedingEngine.offspring_alleles acc) ->
  BreedingEngine.cross_genes s parent1 parent2 pairs draws acc
    = Ok crossed ->
  length (BreedingEngine.punnett_squares crossed)
    = (length (BreedingEngine.punnett_squares acc)
       + length (List.filter Spec.same_gene pairs))%nat /\
  length (BreedingEngine.inheritance_notes_acc crossed)
    = (length (BreedingEngine.inheritance_notes_acc acc)
       + length (List.filter Spec.same_gene pairs))%nat /\
  Forall (Spec.within_gene s all) (BreedingEngine.offspring_alleles crossed).
Proof.
  induction pairs as [|[p1_gene p2_gene] pairs IH];
    intros Hall Hloaded draws acc crossed Hacc Hrun.
  - injection Hrun as <-. cbn. repeat split; [lia | lia | assumption].
  - cbn [BreedingEngine.cross_genes List.filter] in *.
    inversion Hloaded as [|? ? Hhead Htail]; subst.
    assert (Hall' : forall pair, In pair pairs -> In pair all)
      by (intros pair Hin; apply Hall; right; assumption).
    change (Spec.same_gene (p1_gene, p2_gene))
      with (pg_gene_id p1_gene =? pg_gene_id p2_gene).
    destruct (pg_gene_id p1_gene =? pg_gene_id p2_gene) eqn:Hsame;
      cbn [negb] in Hrun.
    + apply bind_inv_ok in Hrun as [acc1 [Hstep Hrun]].
      apply cross_gene_step in Hstep as (Hp & Hn & Halleles).
      assert (Hacc1 : Forall (Spec.within_gene s all)
                        (BreedingEngine.offspring_alleles acc1)).
      { destruct Halleles as [-> | (g & a1 & a2 & Hg & Hin1 & Hin2
                                     & Hg1 & Hg2 & ->)]; [assumption|].
        apply dict_set_Forall; [|assumption].
        unfold Spec.within_gene. cbn [fst snd].
        repeat split; try assumption.
        exists (p1_gene, p2_gene). repeat split.
        - apply Hall. left. reflexivity.
        - exact Hsame.
        - cbn. symmetry. apply Hhead. assumption. }
      destruct (IH Hall' Htail _ _ _ Hacc1 Hrun) as (IHp & IHn & IHa).
      cbn [length]. repeat split; [lia | lia | assumption].
    + exact (IH Hall' Htail _ _ _ Hacc Hrun).
Qed.

(** ** The rows [breed] creates *)

Lemma add_genetics_rows (pet_id : Z)
  (offspring_alleles : list (Z * (Allele * Allele))) (s : Session) :
  exists rows,
    pet_genetics (BreedingEngine.add_genetics s pet_id offspring_alleles)
      = pet_genetics s ++ rows /\
    Forall2 (fun (e : Z * (Allele * Allele)) r =>
               row_pet_id r = pet_id /\ row_gene_id r = e.1 /\
               row_allele1_id r = allele_id e.2.1 /\
               row_allele2_id r = allele_id e.2.2)
            offspring_alleles rows.
Proof.
  unfold BreedingEngine.add_genetics. revert s.
  induction offspring_alleles as [|e es IH]; intros s.
  - exists []. cbn. rewrite app_nil_r. split; [reflexivity | constructor].
  - cbn [foldl].
    destruct (IH (add_pet_genetics s pet_id e.1 (allele_id e.2.1)
                    (allele_id e.2.2))) as [rows [Hrows Hall]].
    eexists (_ :: rows). split.
    + rewrite Hrows. cbn [pet_genetics add_pet_genetics].
      rewrite <- app_assoc. reflexivity.
    + constructor; [|exact Hall]. cbn. auto.
Qed.

Lemma rows_within_gene (s : Session) (pet_id : Z)
  (pairs : list (PetGenetics * PetGenetics))
  (entries : list (Z * (Allele * Allele))) (rows : list pet_genetics_row) :
  Forall (Spec.within_gene s pairs) entries ->
  Forall2 (fun (e : Z * (Allele * Allele)) r =>
             row_pet_id r = pet_id /\ row_gene_id r = e.1 /\
             row_allele1_id r = allele_id e.2.1 /\
             row_allele2_id r = allele_id e.2.2) entries rows ->
  Forall (Spec.row_within_gene s pairs) rows.
Proof.
  intros Hentries Hrows.
  induction Hrows as [|e r es rs (_ & Hg & H1 & H2) _ IH]; [constructor|].
  inversion Hentries as [|? ? He Hes]; subst.
  constructor; [|apply IH; assumption].
  destruct He as (Hin1 & Hin2 & Hg1 & Hg2 & pair & Hpair & Hsame & Hkey).
  exists e.2.1, e.2.2. rewrite H1, H2, Hg.
  repeat split; try assumption.
  exists pair. auto.
Qed.

(** Whatever the outcome of [breed], the table [pet_genetics] is either
    untouched or extended with the rows of the loop's [offspring_alleles]. *)
Lemma breed_session (s : Session) (parent1 parent2 : Pet)
  (child_name child_species child_color : string) (owner_id : Z)
  (draws : nat -> nat) (r_speed r_endurance : Z)
  (r : result (Pet * list punnett_entry * string)) (s' : Session) :
  BreedingEngine.breed s parent1 parent2 child_name child_species
    child_color owner_id draws r_speed r_endurance = (r, s') ->
  pet_genetics s' = pet_genetics s \/
  exists crossed pet_id,
    BreedingEngine.cross_genes s parent1 parent2
      (Spec.positions s parent1 parent2) draws Spec.start = Ok crossed /\
    pet_genetics s' =
      pet_genetics
        (BreedingEngine.add_genetics
           (add_pet s (BreedingEngine.new_pet pet_id owner_id child_name
                         child_species child_color))
           pet_id (BreedingEngine.offspring_alleles crossed)).
Proof.
  unfold BreedingEngine.breed, Spec.positions, Spec.start.
  generalize (query_pet_genetics s (id parent1))
             (query_pet_genetics s (id parent2)).
  intros g1 g2.
  destruct g1 as [|x1 g1], g2 as [|x2 g2];
    try (intros [= <- <-]; left; reflexivity).
  destruct (BreedingEngine.cross_genes s parent1 parent2
              (zip (x1 :: g1) (x2 :: g2)) draws _)
    as [crossed|e] eqn:Hcross;
    [|intros [= <- <-]; left; reflexivity].
  cbv zeta.
  repeat match goal with
         | |- context [match ?x with _ => _ end] => destruct x
         end;
    intros [= <- <-];
    right; exists crossed, (fresh_id (map id (pets s)));
    (split; [reflexivity|]); reflexivity.
Qed.

(** ** C8 *)

(** C8.  In [breed], a position where the two parents' entries reference
    different gene ids is passed over: the loop gives the same outcome as
    on the list of the other positions alone, so such a position adds no
    alleles, no Punnett entry and no inheritance note.  When the loop
    completes there is one Punnett entry and one note per position with a
    common gene id, and every pair of alleles kept for the offspring
    consists of two alleles of the catalogue that both belong to the gene
    of the pair, the gene both parents reference at that position.
    Whatever the outcome of the call, the rows added to [pet_genetics]
    are rows of such pairs: no row joins alleles of different genes. *)
Theorem breed_pairs_within_one_gene (s : Session) (parent1 parent2 : Pet)
  (child_name child_species child_color : string) (owner_id : Z)
  (draws : nat -> nat) (r_speed r_endurance : Z) :
  BreedingEngine.cross_genes s parent1 parent2
    (Spec.positions s parent1 parent2) draws Spec.start
  = BreedingEngine.cross_genes s parent1 parent2
      (List.filter Spec.same_gene (Spec.positions s parent1 parent2))
      draws Spec.start
  /\ (forall crossed,
        BreedingEngine.cross_genes s parent1 parent2
          (Spec.positions s parent1 parent2) draws Spec.start = Ok crossed ->
        length (BreedingEngine.punnett_squares crossed)
          = length (List.filter Spec.same_gene
                      (Spec.positions s parent1 parent2)) /\
        length (BreedingEngine.inheritance_notes_acc crossed)
          = length (List.filter Spec.same_gene
                      (Spec.positions s parent1 parent2)) /\
        Forall (Spec.within_gene s (Spec.positions s parent1 parent2))
               (BreedingEngine.offspring_alleles crossed))
  /\ (forall r s',
        BreedingEngine.breed s parent1 parent2 child_name child_species
          child_color owner_id draws r_speed r_endurance = (r, s') ->
        exists rows,
          pet_genetics s' = pet_genetics s ++ rows /\
          Forall (Spec.row_within_gene s (Spec.positions s parent1 parent2))
                 rows).
Proof.
  assert (Hloop : forall crossed,
    BreedingEngine.cross_genes s parent1 parent2
      (Spec.positions s parent1 parent2) draws Spec.start = Ok crossed ->
    length (BreedingEngine.punnett_squares crossed)
      = length (List.filter Spec.same_gene
                  (Spec.positions s parent1 parent2)) /\
    length (BreedingEngine.inheritance_notes_acc crossed)
      = length (List.filter Spec.same_gene
                  (Spec.positions s parent1 parent2)) /\
    Forall (Spec.within_gene s (Spec.positions s parent1 parent2))
           (BreedingEngine.offspring_alleles crossed)).
  { intros crossed Hrun.
    exact (cross_genes_invariant s parent1 parent2 _ _
             (fun pair Hin => Hin) (positions_loaded s parent1 parent2)
             draws Spec.start crossed (List.Forall_nil _) Hrun). }
  split; [apply cross_genes_skips|]. split; [exact Hloop|].
  intros r s' Hbreed.
  apply breed_session in Hbreed
    as [Hsame | (crossed & pet_id & Hrun & Hrows)].
  - exists []. rewrite app_nil_r. split; [exact Hsame | constructor].
  - destruct (add_genetics_rows pet_id
                (BreedingEngine.offspring_alleles crossed)
                (add_pet s (BreedingEngine.new_pet pet_id owner_id
                              child_name child_species child_color)))
      as [rows [Hadd Hshape]].
    exists rows. split; [rewrite Hrows, Hadd; reflexivity|].
    eapply rows_within_gene; [|exact Hshape].
    exact (proj2 (proj2 (Hloop crossed Hrun))).
Qed.

Lemma breed_pairs_within_one_gene_witness :
  length (Spec.positions Examples.kennel_misaligned
            Examples.ann Examples.bob) = 2%nat /\
  length (List.filter Spec.same_gene
            (Spec.positions Examples.kennel_misaligned
               Examples.ann Examples.bob)) = 1%nat /\
  exists out s' rows,
    BreedingEngine.breed Examples.kennel_misaligned Examples.ann
      Examples.bob "Kid" "Guinea Pig" "Mixed" 7 (fun _ => 1%nat) 2 (-3)
    = (Ok out, s') /\
    length out.1.2 = 1%nat /\
    pet_genetics s' = pet_genetics Examples.kennel_misaligned ++ rows /\
    length rows = 1%nat /\
    Forall (Spec.row_within_gene Examples.kennel_misaligned
              (Spec.positions Examples.kennel_misaligned
                 Examples.ann Examples.bob)) rows.
Proof.
  split; [vm_compute; reflexivity|]. split; [vm_compute; reflexivity|].
  destruct (BreedingEngine.breed Examples.kennel_misaligned Examples.ann
              Examples.bob "Kid" "Guinea Pig" "Mixed" 7 (fun _ => 1%nat)
              2 (-3)) as [r s'] eqn:Hbreed.
  destruct (proj2 (proj2 (breed_pairs_within_one_gene
                            Examples.kennel_misaligned Examples.ann
                            Examples.bob "Kid" "Guinea Pig" "Mixed" 7
                            (fun _ => 1%nat) 2 (-3))) r s' Hbreed)
    as [rows [Hrows Hwithin]].
  vm_compute in Hbreed.
  injection Hbreed as <- <-.
  eexists _, _, rows. split; [reflexivity|].
  split; [reflexivity|]. split; [exact Hrows|]. split; [|exact Hwithin].
  apply (f_equal (@length _)) in Hrows.
  rewrite length_app in Hrows. cbn in Hrows. lia.
Defined.

(* ===================================================================== *)
(** * Further properties *)
(* ===================================================================== *)

(** ** The Punnett square: genotype counts and probabilities *)

Lemma mapM_map {A B : Type} (f : A -> result B) (g : A -> B) (l : list A) :
  Forall (fun a => f a = Ok (g a)) l -> mapM f l = Ok (map g l).
Proof.
  induction 1 as [|a l Ha _ IH]; [reflexivity|].
  cbn. rewrite Ha. cbn. rewrite IH. reflexivity.
Qed.

(** A count out of four as a percentage is computed exactly. *)
Lemma quarter_percentage (n : Z) :
  1 <= n <= 4 ->
  (share ← truediv n 4; mret (fmul share (flit 100))) = Ok (flit (25 * n)).
Proof.
  intros Hn.
  assert (n = 1 \/ n = 2 \/ n = 3 \/ n = 4) as [-> | [-> | [-> | ->]]] by lia;
    vm_compute; reflexivity.
Qed.

(** What [calculate] returns, field by field. *)
Lemma calculate_returns (a b c d : string) :
  PunnettSquare.calculate (a, b) (c, d) =
    Ok {| PunnettSquare.punnett_square :=
            [[PunnettSquare.cell a c; PunnettSquare.cell a d];
             [PunnettSquare.cell b c; PunnettSquare.cell b d]];
          PunnettSquare.possible_offspring :=
            map fst (foldl (fun counts x => PunnettSquare.count_up x counts)
                       []
                       [PunnettSquare.cell a c; PunnettSquare.cell a d;
                        PunnettSquare.cell b c; PunnettSquare.cell b d]);
          PunnettSquare.probabilities :=
            map (fun gc : string * Z => (gc.1, flit (25 * gc.2)))
                (foldl (fun counts x => PunnettSquare.count_up x counts)
                   []
                   [PunnettSquare.cell a c; PunnettSquare.cell a d;
                    PunnettSquare.cell b c; PunnettSquare.cell b d]);
          PunnettSquare.offspring_genotypes :=
            [PunnettSquare.cell a c; PunnettSquare.cell a d;
             PunnettSquare.cell b c; PunnettSquare.cell b d] |}.
Proof.
  unfold PunnettSquare.calculate.
  cbn [fst snd map concat app length].
  set (cells := [PunnettSquare.cell a c; PunnettSquare.cell a d;
                 PunnettSquare.cell b c; PunnettSquare.cell b d]).
  rewrite (mapM_map _ (fun gc : string * Z => (gc.1, flit (25 * gc.2)))).
  - reflexivity.
  - pose proof (counts_bound cells [] 0 ltac:(lia) ltac:(constructor)) as Hb.
    eapply Forall_impl; [exact Hb|].
    intros [k n] Hn. unfold cells in Hn. cbn in Hn. cbn [fst snd].
    change (Z.of_nat 4) with 4.
    pose proof (quarter_percentage n ltac:(lia)) as Hq.
    destruct (truediv n 4) as [share|]; [|discriminate].
    cbn in Hq |- *. injection Hq as ->. reflexivity.
Qed.

Lemma count_up_sum (x : string) (d : list (string * Z)) :
  foldr Z.add 0 (map snd (PunnettSquare.count_up x d))
  = foldr Z.add 0 (map snd d) + 1.
Proof.
  induction d as [|[k n] d IH]; cbn; [reflexivity|].
  destruct (String.eqb k x); cbn; [lia | rewrite IH; lia].
Qed.

Lemma counts_sum (l : list string) (d : list (string * Z)) :
  foldr Z.add 0
    (map snd (foldl (fun counts x => PunnettSquare.count_up x counts) d l))
  = foldr Z.add 0 (map snd d) + Z.of_nat (length l).
Proof.
  revert d. induction l as [|x l IH]; intros d; cbn [foldl length].
  - cbn. lia.
  - rewrite IH, count_up_sum. lia.
Qed.

Lemma count_up_NoDup (x : string) (d : list (string * Z)) :
  NoDup (map fst d) -> NoDup (map fst (PunnettSquare.count_up x d)).
Proof.
  induction d as [|[k n] d IH]; cbn.
  - intros _. apply NoDup_singleton.
  - intros Hd. apply NoDup_cons in Hd as [Hk Hd].
    destruct (String.eqb_spec k x) as [->|Hne]; cbn.
    + apply NoDup_cons. split; assumption.
    + apply NoDup_cons. split; [|apply IH; assumption].
      intros Hin. apply count_up_keys in Hin as [->|Hin]; [congruence|].
      apply Hk. exact Hin.
Qed.

Lemma counts_NoDup (l : list string) (d : list (string * Z)) :
  NoDup (map fst d) ->
  NoDup (map fst (foldl (fun counts x => PunnettSquare.count_up x counts)
                    d l)).
Proof.
  revert d. induction l as [|x l IH]; intros d Hd; cbn [foldl];
    [assumption|].
  apply IH, count_up_NoDup. assumption.
Qed.

(** Percentages of positive counts that add up to four add up to 100,
    exactly, whatever the number of genotypes. *)
Lemma percentages_total (counts : list Z) :
  Forall (fun n => 1 <= n <= 4) counts ->
  foldr Z.add 0 counts = 4 ->
  Laws.total (map (fun n => flit (25 * n)) counts) = flit 100.
Proof.
  intros Hall Hsum.
  assert (Hlong : forall l : list Z,
            Forall (fun n => 1 <= n <= 4) l -> 0 <= foldr Z.add 0 l).
  { induction 1; cbn; lia. }
  destruct counts as [|n1 [|n2 [|n3 [|n4 [|n5 rest]]]]];
    repeat match goal with
           | H : Forall _ (_ :: _) |- _ =>
               apply Forall_cons in H as [? H]
           end;
    cbn in Hsum;
    try (pose proof (Hlong _ Hall)); try lia.
  - assert (n1 = 4) as -> by lia. vm_compute. reflexivity.
  - assert ((n1 = 1 /\ n2 = 3) \/ (n1 = 2 /\ n2 = 2) \/ (n1 = 3 /\ n2 = 1))
      as [[-> ->] | [[-> ->] | [-> ->]]] by lia;
      vm_compute; reflexivity.
  - assert ((n1 = 1 /\ n2 = 1 /\ n3 = 2) \/ (n1 = 1 /\ n2 = 2 /\ n3 = 1)
            \/ (n1 = 2 /\ n2 = 1 /\ n3 = 1))
      as [(-> & -> & ->) | [(-> & -> & ->) | (-> & -> & ->)]] by lia;
      vm_compute; reflexivity.
  - assert (n1 = 1 /\ n2 = 1 /\ n3 = 1 /\ n4 = 1)
      as (-> & -> & -> & ->) by lia.
    vm_compute. reflexivity.
Qed.

(** X1.  The probabilities of a cross add up to 100: for every two pairs
    of allele symbols [calculate] returns a table whose values, summed as
    floats, are exactly 100.0, each of them being 25, 50, 75 or 100. *)
Theorem calculate_probabilities_total (parent1_alleles parent2_alleles
  : string * string) :
  exists sq,
    PunnettSquare.calculate parent1_alleles parent2_alleles = Ok sq /\
    Laws.total (map snd (PunnettSquare.probabilities sq)) = flit 100 /\
    Forall (fun p : string * float =>
              p.2 = flit 25 \/ p.2 = flit 50 \/ p.2 = flit 75
              \/ p.2 = flit 100)
           (PunnettSquare.probabilities sq).
Proof.
  destruct parent1_alleles as [a b], parent2_alleles as [c d].
  eexists. split; [apply calculate_returns|].
  cbn [PunnettSquare.probabilities].
  set (cells := [PunnettSquare.cell a c; PunnettSquare.cell a d;
                 PunnettSquare.cell b c; PunnettSquare.cell b d]).
  set (counts := foldl _ [] cells).
  assert (Hb : Forall (fun kn : string * Z => 1 <= kn.2 <= 4) counts).
  { pose proof (counts_bound cells [] 0 ltac:(lia) ltac:(constructor)) as Hb.
    eapply Forall_impl; [exact Hb|]. intros kn Hkn.
    unfold cells in Hkn. cbn in Hkn. lia. }
  split.
  - rewrite map_map. cbn [snd].
    rewrite <- (map_map snd (fun n => flit (25 * n))).
    apply percentages_total.
    + apply Forall_fmap. exact Hb.
    + unfold counts. rewrite counts_sum. reflexivity.
  - apply Forall_fmap. eapply Forall_impl; [exact Hb|].
    intros [k n] Hn. cbn in Hn |- *.
    assert (n = 1 \/ n = 2 \/ n = 3 \/ n = 4) as [-> | [-> | [-> | ->]]]
      by lia; tauto.
Qed.

(** X2.  The list of possible offspring names each genotype of the grid
    once: it has no duplicates, it contains exactly the genotypes that occur
    among the four cells, and the probability table has the same keys in
    the same order. *)
Theorem calculate_possible_offspring_distinct (parent1_alleles
  parent2_alleles : string * string) :
  exists sq,
    PunnettSquare.calculate parent1_alleles parent2_alleles = Ok sq /\
    NoDup (PunnettSquare.possible_offspring sq) /\
    (forall g, g ∈ PunnettSquare.possible_offspring sq <->
               g ∈ PunnettSquare.offspring_genotypes sq) /\
    map fst (PunnettSquare.probabilities sq)
      = PunnettSquare.possible_offspring sq.
Proof.
  destruct parent1_alleles as [a b], parent2_alleles as [c d].
  eexists. split; [apply calculate_returns|].
  cbn [PunnettSquare.probabilities PunnettSquare.possible_offspring
       PunnettSquare.offspring_genotypes].
  split; [apply counts_NoDup; constructor|].
  split.
  - intros g. rewrite counts_keys. cbn [map]. rewrite elem_of_nil. tauto.
  - rewrite map_map. reflexivity.
Qed.

(** ** Phenotypes *)

(** X3.  The effect value and the inheritance type of a phenotype do not
    depend on the order of the two alleles: for every gene name, swapping
    the alleles gives the same effect value, the same inheritance type and
    the same error if any, provided that under ["coat_color"] two alleles
    with equal symbols carry equal effect values. *)
Theorem get_phenotype_effect_symmetric (allele1 allele2 : Allele)
  (gene_name : option string) :
  (gene_name = Some "coat_color" -> symbol allele1 = symbol allele2 ->
   effect_value allele1 = effect_value allele2) ->
  (info ← PunnettSquare.get_phenotype allele1 allele2 gene_name;
   mret (PunnettSquare.info_effect_value info,
         PunnettSquare.inheritance_type info))
  = (info ← PunnettSquare.get_phenotype allele2 allele1 gene_name;
     mret (PunnettSquare.info_effect_value info,
           PunnettSquare.inheritance_type info)).
Proof.
  intros Hcoat. unfold PunnettSquare.get_phenotype.
  rewrite (Z.add_comm (effect_value allele2) (effect_value allele1)).
  destruct (bool_decide (gene_name = Some "coat_color")) eqn:Hg.
  - apply bool_decide_eq_true_1 in Hg.
    rewrite (String.eqb_sym (symbol allele2) (symbol allele1)).
    destruct (String.eqb_spec (symbol allele1) (symbol allele2)) as [Hs|Hs].
    + cbn. rewrite (Hcoat Hg Hs). reflexivity.
    + destruct (truediv (effect_value allele1 + effect_value allele2) 2)
        as [avg|]; [|reflexivity].
      cbn. destruct (int_of_float avg); reflexivity.
  - destruct (Z.ltb_spec (dominance_level allele2) (dominance_level allele1)),
             (Z.ltb_spec (dominance_level allele1) (dominance_level allele2));
      try lia; try reflexivity.
    destruct (truediv (effect_value allele1 + effect_value allele2) 2)
      as [avg|]; [|reflexivity].
    cbn. destruct (int_of_float avg); reflexivity.
Qed.

Lemma get_phenotype_effect_symmetric_witness :
  (Some "speed" = Some "coat_color" ->
   symbol Examples.fast = symbol Examples.brown ->
   effect_value Examples.fast = effect_value Examples.brown) /\
  (info ← PunnettSquare.get_phenotype Examples.fast Examples.brown
            (Some "speed");
   mret (PunnettSquare.info_effect_value info,
         PunnettSquare.inheritance_type info))
  = (info ← PunnettSquare.get_phenotype Examples.brown Examples.fast
              (Some "speed");
     mret (PunnettSquare.info_effect_value info,
           PunnettSquare.inheritance_type info)).
Proof.
  assert (H : Some "speed" = Some "coat_color" ->
              symbol Examples.fast = symbol Examples.brown ->
              effect_value Examples.fast = effect_value Examples.brown)
    by discriminate.
  split; [exact H|].
  exact (get_phenotype_effect_symmetric Examples.fast Examples.brown
           (Some "speed") H).
Defined.

(** ** The rarity score and its tier *)

Lemma coat_bonus_cases (code : string) (info : RarityCalculator.coat_info) :
  RarityCalculator.get_coat_phenotype code = Ok info ->
  RarityCalculator.coat_rarity_bonus info = 2 \/
  RarityCalculator.coat_rarity_bonus info = 5.
Proof.
  unfold RarityCalculator.get_coat_phenotype. intros H.
  apply bind_inv_ok in H as [genes [_ H]].
  apply bind_inv_ok in H as [allele1 [_ H]].
  apply bind_inv_ok in H as [allele2 [_ H]].
  destruct (String.eqb allele1 allele2); injection H as <-; cbn; auto.
Qed.

Lemma hair_bonus_cases (code : string) (info : RarityCalculator.hair_info) :
  RarityCalculator.get_hair_type code = Ok info ->
  0 <= RarityCalculator.hair_rarity_bonus info <= 3.
Proof.
  unfold RarityCalculator.get_hair_type. intros H.
  apply bind_inv_ok in H as [genes [_ H]].
  injection H as <-. cbn.
  destruct (String.eqb _ "hh"); [lia|].
  destruct (_ && _); lia.
Qed.

(** X4.  The rarity score of a pet is 0 when it has no genetic code and
    lies between 4 and 17 otherwise: whenever [calculate_rarity_score]
    returns for a non-empty code, the coat gives 2 or 5 points, the hair 0
    to 3, speed and endurance 1 or 2 each and the stats 0 to 5. *)
Theorem calculate_rarity_score_range (pet : Pet) (score : Z) :
  RarityCalculator.calculate_rarity_score pet = Ok score ->
  (RarityCalculator.falsy (genetic_code pet) = true /\ score = 0) \/
  (RarityCalculator.falsy (genetic_code pet) = false /\ 4 <= score <= 17).
Proof.
  unfold RarityCalculator.calculate_rarity_score.
  destruct (RarityCalculator.falsy (genetic_code pet));
    [intros [= <-]; left; auto|].
  intros H. right. split; [reflexivity|].
  apply bind_inv_ok in H as [genes [_ H]].
  apply bind_inv_ok in H as [ci [Hci H]].
  apply bind_inv_ok in H as [hi [Hhi H]].
  apply bind_inv_ok in H as [avg [_ H]].
  injection H as <-.
  pose proof (coat_bonus_cases _ _ Hci) as Hc.
  pose proof (hair_bonus_cases _ _ Hhi) as Hh.
  cbv zeta. repeat case_match; lia.
Qed.

Lemma calculate_rarity_score_range_witness :
  RarityCalculator.calculate_rarity_score Examples.champion = Ok 16 /\
  ((RarityCalculator.falsy (genetic_code Examples.champion) = true
    /\ 16 = 0) \/
   (RarityCalculator.falsy (genetic_code Examples.champion) = false
    /\ 4 <= 16 <= 17)).
Proof.
  assert (H : RarityCalculator.calculate_rarity_score Examples.champion
              = Ok 16) by (vm_compute; reflexivity).
  split; [exact H|].
  exact (calculate_rarity_score_range Examples.champion 16 H).
Defined.

(** X5.  The tier never goes down when the score goes up: for two scores
    in order, the base price of the tier of the first is at most that of
    the tier of the second, and a tier is always one of the four priced
    ones. *)
Theorem get_rarity_tier_monotone (score score' : Z) :
  score <= score' ->
  RarityCalculator.base_prices (RarityCalculator.get_rarity_tier score)
  <= RarityCalculator.base_prices (RarityCalculator.get_rarity_tier score')
  /\ In (RarityCalculator.get_rarity_tier score)
        ["Common"; "Uncommon"; "Rare"; "Legendary"].
Proof.
  intros Hle. unfold RarityCalculator.get_rarity_tier.
  destruct (Z.leb_spec 16 score), (Z.leb_spec 11 score),
    (Z.leb_spec 6 score), (Z.leb_spec 16 score'), (Z.leb_spec 11 score'),
    (Z.leb_spec 6 score'); try lia;
    (split; [vm_compute; discriminate | cbn; tauto]).
Qed.

Lemma get_rarity_tier_monotone_witness :
  10 <= 11 /\
  RarityCalculator.base_prices (RarityCalculator.get_rarity_tier 10)
  <= RarityCalculator.base_prices (RarityCalculator.get_rarity_tier 11)
  /\ In (RarityCalculator.get_rarity_tier 10)
        ["Common"; "Uncommon"; "Rare"; "Legendary"].
Proof.
  split; [lia|]. apply get_rarity_tier_monotone. lia.
Defined.

(** ** The price *)

(** The price is the floored product of the pet's tier, stats, coat and
    hair. *)
Lemma price_product (pet : Pet) (value : Z) :
  RarityCalculator.price pet = Ok value ->
  exists ci hi v,
    RarityCalculator.get_coat_phenotype
      (RarityCalculator.or_else (genetic_code pet) "") = Ok ci /\
    RarityCalculator.get_hair_type
      (RarityCalculator.or_else (genetic_code pet) "") = Ok hi /\
    Spec.product int_of_float
      (Spec.base (RarityCalculator.or_else (rarity_tier pet) "Common"))
      (speed pet + endurance pet)
      (RarityCalculator.coat_is_pure ci) (RarityCalculator.is_fluffy hi)
      = Ok v /\
    value = Z.max v 50.
Proof.
  unfold RarityCalculator.price, Spec.product. intros H.
  rewrite base_prices_spec, float_of_base in H.
  apply bind_inv_ok in H as [avg [Havg H]].
  apply bind_inv_ok in H as [ci [Hci H]].
  apply bind_inv_ok in H as [hi [Hhi H]].
  cbn [mbind result_bind bind] in H.
  apply bind_inv_ok in H as [v [Hv H]].
  injection H as <-.
  exists ci, hi, v. rewrite Havg. cbn [mbind result_bind bind].
  auto.
Qed.

Lemma product_bounds (b t v : Z) (pure fluffy : bool) :
  In b [100; 500; 2000; 10000] -> 0 <= t <= 200 ->
  Spec.product int_of_float b t pure fluffy = Ok v ->
  b / 2 <= v <= 39000.
Proof.
  intros Hb Ht Hv.
  pose (within := fun b t p f =>
          match Spec.product int_of_float b t p f with
          | Ok v => (b / 2 <=? v) && (v <=? 39000)
          | Raise _ => false
          end).
  assert (Hgrid :
    forallb (fun t =>
      forallb (fun b =>
        forallb (fun p => forallb (fun f => within b t p f) [true; false])
                [true; false])
        [100; 500; 2000; 10000])
      (seqZ 0 201) = true) by (vm_compute; reflexivity).
  pose proof (forallb_seqZ _ 0 201 t Hgrid ltac:(lia)) as Hbases.
  cbv beta in Hbases.
  pose proof (proj1 (forallb_forall _ _) Hbases b Hb) as Hcell.
  cbn [forallb] in Hcell. rewrite !andb_true_iff in Hcell.
  assert (Hw : within b t pure fluffy = true)
    by (destruct pure, fluffy; tauto).
  unfold within in Hw. rewrite Hv in Hw.
  apply andb_true_iff in Hw as [H1 H2]. lia.
Qed.

Lemma product_step (b t v w : Z) (pure fluffy : bool) :
  In b [100; 500; 2000; 10000] -> 0 <= t < 200 ->
  Spec.product int_of_float b t pure fluffy = Ok v ->
  Spec.product int_of_float b (t + 1) pure fluffy = Ok w ->
  v <= w.
Proof.
  intros Hb Ht Hv Hw.
  pose (rises := fun b t p f =>
          match Spec.product int_of_float b t p f,
                Spec.product int_of_float b (t + 1) p f with
          | Ok v, Ok w => v <=? w
          | _, _ => false
          end).
  assert (Hgrid :
    forallb (fun t =>
      forallb (fun b =>
        forallb (fun p => forallb (fun f => rises b t p f) [true; false])
                [true; false])
        [100; 500; 2000; 10000])
      (seqZ 0 200) = true) by (vm_compute; reflexivity).
  pose proof (forallb_seqZ _ 0 200 t Hgrid ltac:(lia)) as Hbases.
  cbv beta in Hbases.
  pose proof (proj1 (forallb_forall _ _) Hbases b Hb) as Hcell.
  cbn [forallb] in Hcell. rewrite !andb_true_iff in Hcell.
  assert (Hr : rises b t pure fluffy = true)
    by (destruct pure, fluffy; tauto).
  unfold rises in Hr. rewrite Hv, Hw in Hr. lia.
Qed.

Lemma product_monotone (b : Z) (pure fluffy : bool) (n : nat) :
  In b [100; 500; 2000; 10000] ->
  forall t v w,
    0 <= t -> t + Z.of_nat n <= 200 ->
    Spec.product int_of_float b t pure fluffy = Ok v ->
    Spec.product int_of_float b (t + Z.of_nat n) pure fluffy = Ok w ->
    v <= w.
Proof.
  intros Hb. induction n as [|n IH]; intros t v w Ht Htn Hv Hw.
  - rewrite Z.add_0_r in Hw. rewrite Hv in Hw. injection Hw as <-. lia.
  - destruct (product_total b (t + 1) pure fluffy Hb ltac:(lia)) as [u Hu].
    pose proof (product_step b t v u pure fluffy Hb ltac:(lia) Hv Hu).
    replace (t + Z.of_nat (S n)) with ((t + 1) + Z.of_nat n) in * by lia.
    pose proof (IH (t + 1) u w ltac:(lia) ltac:(lia) Hu Hw). lia.
Qed.

(** X6.  With speed and endurance between 0 and 100, whatever
    [calculate_market_value] returns lies between 50 and 39000. *)
Theorem calculate_market_value_bounds (pet pet' : Pet) (value : Z) :
  0 <= speed pet <= 100 -> 0 <= endurance pet <= 100 ->
  RarityCalculator.calculate_market_value pet = (Ok value, pet') ->
  50 <= value <= 39000.
Proof.
  intros Hs He. unfold RarityCalculator.calculate_market_value.
  destruct (RarityCalculator.refresh_rarity pet) as [pet1|e] eqn:Hrefresh;
    [|discriminate].
  intros [= Hprice _].
  destruct (refresh_rarity_frame _ _ Hrefresh) as (_ & Hsp & Hen).
  apply price_product in Hprice as (ci & hi & v & _ & _ & Hv & ->).
  apply product_bounds in Hv; [|apply base_in_table | lia].
  lia.
Qed.

Lemma calculate_market_value_bounds_witness :
  0 <= speed Examples.champion <= 100 /\
  0 <= endurance Examples.champion <= 100 /\
  RarityCalculator.calculate_market_value Examples.champion
    = (Ok 34612,
       set_rarity_tier (Some "Legendary")
                       (set_rarity_score 16 Examples.champion)) /\
  50 <= 34612 <= 39000.
Proof.
  assert (Hs : 0 <= speed Examples.champion <= 100) by (cbn; lia).
  assert (He : 0 <= endurance Examples.champion <= 100) by (cbn; lia).
  assert (Hv : RarityCalculator.calculate_market_value Examples.champion
               = (Ok 34612,
                  set_rarity_tier (Some "Legendary")
                                  (set_rarity_score 16 Examples.champion)))
    by (vm_compute; reflexivity).
  split; [exact Hs|]. split; [exact He|]. split; [exact Hv|].
  exact (calculate_market_value_bounds _ _ _ Hs He Hv).
Defined.

(** X7.  Better stats never lower the price: for two pets already valued
    (non-zero score) with the same tier and the same genetic code, stats
    between 0 and 100 and the sum of speed and endurance of the first at
    most that of the second, the market value of the first is at most that
    of the second. *)
Theorem calculate_market_value_monotone (pet1 pet2 pet1' pet2' : Pet)
  (value1 value2 : Z) :
  rarity_score pet1 <> 0 -> rarity_score pet2 <> 0 ->
  rarity_tier pet1 = rarity_tier pet2 ->
  genetic_code pet1 = genetic_code pet2 ->
  0 <= speed pet1 /\ 0 <= endurance pet1 ->
  speed pet2 <= 100 /\ endurance pet2 <= 100 ->
  speed pet1 + endurance pet1 <= speed pet2 + endurance pet2 ->
  RarityCalculator.calculate_market_value pet1 = (Ok value1, pet1') ->
  RarityCalculator.calculate_market_value pet2 = (Ok value2, pet2') ->
  value1 <= value2.
Proof.
  intros Hz1 Hz2 Htier Hcode [Hs1 He1] [Hs2 He2] Hle.
  unfold RarityCalculator.calculate_market_value,
         RarityCalculator.refresh_rarity.
  apply Z.eqb_neq in Hz1, Hz2. rewrite Hz1, Hz2. cbn [mret result_ret].
  intros [= H1 _] [= H2 _].
  apply price_product in H1 as (ci1 & hi1 & v1 & Hci1 & Hhi1 & Hv1 & ->).
  apply price_product in H2 as (ci2 & hi2 & v2 & Hci2 & Hhi2 & Hv2 & ->).
  rewrite Hcode, Hci2 in Hci1. injection Hci1 as <-.
  rewrite Hcode, Hhi2 in Hhi1. injection Hhi1 as <-.
  rewrite Htier in Hv1.
  apply Z.max_le_compat_r.
  eapply (product_monotone _ _ _
            (Z.to_nat ((speed pet2 + endurance pet2)
                       - (speed pet1 + endurance pet1)))
            (base_in_table _) (speed pet1 + endurance pet1));
    [lia | lia | exact Hv1 |].
  replace (speed pet1 + endurance pet1
           + Z.of_nat (Z.to_nat ((speed pet2 + endurance pet2)
                                 - (speed pet1 + endurance pet1))))
    with (speed pet2 + endurance pet2) by lia.
  exact Hv2.
Qed.

Lemma calculate_market_value_monotone_witness :
  rarity_score Examples.runt <> 0 /\
  0 <= speed Examples.runt /\ 0 <= endurance Examples.runt /\
  RarityCalculator.calculate_market_value Examples.runt
    = (Ok 53, Examples.runt) /\
  RarityCalculator.calculate_market_value (set_speed 60 Examples.runt)
    = (Ok 97, set_speed 60 Examples.runt) /\
  53 <= 97.
Proof.
  assert (Hz : rarity_score Examples.runt <> 0) by (cbn; lia).
  assert (H1 : RarityCalculator.calculate_market_value Examples.runt
               = (Ok 53, Examples.runt)) by (vm_compute; reflexivity).
  assert (H2 : RarityCalculator.calculate_market_value
                 (set_speed 60 Examples.runt)
               = (Ok 97, set_speed 60 Examples.runt))
    by (vm_compute; reflexivity).
  split; [exact Hz|]. split; [cbn; lia|]. split; [cbn; lia|].
  split; [exact H1|]. split; [exact H2|].
  exact (calculate_market_value_monotone
           Examples.runt (set_speed 60 Examples.runt) _ _ 53 97
           Hz Hz eq_refl eq_refl
           ltac:(cbn; lia) ltac:(cbn; lia) ltac:(cbn; lia) H1 H2).
Defined.

(** ** Encoded genotypes under the pricing parser *)

Lemma parse_genetic_code_split (code : string) :
  RarityCalculator.parse_genetic_code code
  = RarityCalculator.parse_segments (split ";"%char code) ∅.
Proof. destruct code; reflexivity. Qed.

Lemma one_char_inv (s : string) :
  Spec.one_char s = true -> exists x, s = String x EmptyString.
Proof.
  destruct s as [|x [|y s]]; try discriminate. intros _. eauto.
Qed.

Lemma strip_alleles_dashed (x y : ascii) :
  x <> "-"%char -> y <> "-"%char ->
  Laws.dashed
    (strip (String x EmptyString +:+ "-" +:+ String y EmptyString)) = true.
Proof.
  intros Hx Hy.
  apply Ascii.eqb_neq in Hx as Hx1.
  assert (Hy1 : Ascii.eqb "-"%char y = false)
    by (apply Ascii.eqb_neq; congruence).
  unfold strip, Laws.dashed.
  destruct (isspace x) eqn:Hsx, (isspace y) eqn:Hsy;
    repeat first [ rewrite Hsx | rewrite Hsy | rewrite Hx1 | rewrite Hy1
                 | progress change (isspace "-"%char) with false
                 | progress cbn -[isspace Ascii.eqb]
                 | rewrite Ascii.eqb_refl ];
    reflexivity.
Qed.

Lemma dashed_not_double (v : string) (c : ascii) :
  Laws.dashed v = true ->
  String.eqb v (String c (String c EmptyString)) = false.
Proof.
  intros Hv. apply String.eqb_neq. intros ->.
  unfold Laws.dashed in Hv. rewrite Ascii.eqb_refl, andb_false_r in Hv.
  discriminate.
Qed.

Lemma default_not_double (genes : gmap string string) (k d : string)
  (c : ascii) :
  map_Forall (fun _ v => Laws.dashed v = true) genes ->
  String.eqb d (String c (String c EmptyString)) = false ->
  String.eqb (default d (genes !! k)) (String c (String c EmptyString))
    = false.
Proof.
  intros Hgenes Hd. destruct (genes !! k) as [v|] eqn:Hk; cbn [default].
  - apply dashed_not_double. exact (Hgenes k v Hk).
  - exact Hd.
Qed.

Lemma parse_segments_encoded (entries : list Spec.entry) :
  Forall (fun e => Spec.well_formed e = true) entries ->
  forall genes : gmap string string,
    map_Forall (fun _ v => Laws.dashed v = true) genes ->
    exists genes',
      RarityCalculator.parse_segments (map Spec.segment_of entries) genes
        = Ok genes' /\
      map_Forall (fun _ v => Laws.dashed v = true) genes' /\
      (forall k, is_Some (genes !! k) -> is_Some (genes' !! k)) /\
      Forall (fun e : Spec.entry => is_Some (genes' !! strip e.1)) entries.
Proof.
  induction 1 as [|e entries He _ IH]; intros genes Hgenes.
  - exists genes. cbn. auto.
  - unfold Spec.well_formed, Spec.well_formed_as_claimed in He.
    rewrite !andb_true_iff in He.
    destruct He as [[[[Hname H1] H2] Hd1] Hd2].
    apply delimiter_free_spec in Hname as (Hn & _ & _).
    apply delimiter_free_spec in Hd1 as (Hc1 & _ & Hm1).
    apply delimiter_free_spec in Hd2 as (Hc2 & _ & Hm2).
    cbn [map RarityCalculator.parse_segments].
    rewrite segment_of_has_colon, (segment_of_split_colon e Hn Hc1 Hc2).
    destruct (one_char_inv _ H1) as [x Hx].
    destruct (one_char_inv _ H2) as [y Hy].
    assert (Hval : Laws.dashed (strip (e.2.1 +:+ "-" +:+ e.2.2)) = true).
    { rewrite Hx, Hy. rewrite Hx in Hm1. rewrite Hy in Hm2. cbn in Hm1, Hm2.
      apply strip_alleles_dashed; apply Ascii.eqb_neq.
      - destruct (Ascii.eqb x "-"); [discriminate | reflexivity].
      - destruct (Ascii.eqb y "-"); [discriminate | reflexivity]. }
    destruct (IH (<[strip e.1 := strip (e.2.1 +:+ "-" +:+ e.2.2)]> genes))
      as (genes' & Hparse & Hall & Hkeep & Hentries).
    { apply map_Forall_insert_2; assumption. }
    exists genes'. split; [exact Hparse|]. split; [exact Hall|]. split.
    + intros k Hk. apply Hkeep.
      destruct (decide (strip e.1 = k)) as [<-|Hne].
      * rewrite lookup_insert_eq. eauto.
      * rewrite lookup_insert_ne by assumption. exact Hk.
    + constructor; [|exact Hentries].
      apply Hkeep. rewrite lookup_insert_eq. eauto.
Qed.

Lemma parse_encoded (entries : list Spec.entry) :
  Forall (fun e => Spec.well_formed e = true) entries ->
  exists genes,
    RarityCalculator.parse_genetic_code
      (join ";" (map Spec.segment_of entries)) = Ok genes /\
    map_Forall (fun _ v => Laws.dashed v = true) genes /\
    Forall (fun e : Spec.entry => is_Some (genes !! strip e.1)) entries.
Proof.
  intros Hwf. destruct entries as [|e entries].
  - exists ∅. split; [reflexivity|]. split; [apply map_Forall_empty|].
    constructor.
  - rewrite parse_genetic_code_split, split_join.
    + destruct (parse_segments_encoded (e :: entries) Hwf ∅)
        as (genes & Hparse & Hall & _ & Hkeys);
        [apply map_Forall_empty|].
      exists genes. auto.
    + discriminate.
    + apply Forall_fmap. eapply Forall_impl; [exact Hwf|].
      intros e' He'. exact (proj2 (well_formed_segment e' He')).
Qed.

Lemma coat_dashed (code v : string) (genes : gmap string string)
  (info : RarityCalculator.coat_info) :
  RarityCalculator.parse_genetic_code code = Ok genes ->
  genes !! "coat_color" = Some v -> Laws.dashed v = true ->
  RarityCalculator.get_coat_phenotype code = Ok info ->
  RarityCalculator.coat_is_pure info = false /\
  RarityCalculator.coat_rarity_bonus info = 2.
Proof.
  intros Hparse Hv Hd. unfold RarityCalculator.get_coat_phenotype.
  rewrite Hparse. cbn [mbind result_bind bind]. rewrite Hv. cbn [default].
  destruct v as [|a [|b rest]]; [discriminate | discriminate |].
  unfold Laws.dashed in Hd. apply andb_true_iff in Hd as [_ Hd].
  apply negb_true_iff in Hd.
  cbn -[Ascii.eqb]. rewrite Hd. cbn. intros [= <-]. auto.
Qed.

Lemma hair_dashed (code : string) (genes : gmap string string)
  (info : RarityCalculator.hair_info) :
  RarityCalculator.parse_genetic_code code = Ok genes ->
  map_Forall (fun _ v => Laws.dashed v = true) genes ->
  RarityCalculator.get_hair_type code = Ok info ->
  0 <= RarityCalculator.hair_rarity_bonus info <= 1.
Proof.
  intros Hparse Hall. unfold RarityCalculator.get_hair_type.
  rewrite Hparse. cbn [mbind result_bind bind]. intros [= <-].
  cbn [RarityCalculator.hair_rarity_bonus].
  rewrite (default_not_double genes "hair_length" "HH" "h" Hall eq_refl).
  destruct (_ && _); lia.
Qed.

Lemma rarity_score_dashed (pet : Pet) (code : string)
  (genes : gmap string string) (score : Z) :
  genetic_code pet = Some code ->
  RarityCalculator.parse_genetic_code code = Ok genes ->
  map_Forall (fun _ v => Laws.dashed v = true) genes ->
  RarityCalculator.calculate_rarity_score pet = Ok score ->
  score <= 13 /\ (is_Some (genes !! "coat_color") -> score <= 10).
Proof.
  intros Hcode Hparse Hall.
  unfold RarityCalculator.calculate_rarity_score. rewrite Hcode.
  destruct code as [|c code]; cbn [RarityCalculator.falsy];
    [intros [= <-]; split; [lia | intros _; lia]|].
  cbn [RarityCalculator.or_else]. rewrite Hparse.
  cbn [mbind result_bind bind]. intros H.
  apply bind_inv_ok in H as [ci [Hci H]].
  apply bind_inv_ok in H as [hi [Hhi H]].
  apply bind_inv_ok in H as [avg [_ H]].
  injection H as <-.
  pose proof (coat_bonus_cases _ _ Hci) as Hc.
  pose proof (hair_dashed _ _ _ Hparse Hall Hhi) as Hh.
  rewrite (default_not_double genes "speed" "Ff" "F" Hall eq_refl),
    (default_not_double genes "speed" "Ff" "f" Hall eq_refl),
    (default_not_double genes "endurance" "Ee" "E" Hall eq_refl),
    (default_not_double genes "endurance" "Ee" "e" Hall eq_refl).
  cbv zeta. cbn [orb]. split.
  - repeat case_match; lia.
  - intros [v Hv].
    destruct (coat_dashed _ _ _ _ Hparse Hv (Hall _ _ Hv) Hci) as [_ Hb].
    repeat case_match; lia.
Qed.

(** X8.  The pricing code never sees a pure coat in a code written by
    [encode]: for instances whose entries are well formed, one of them for
    the gene [coat_color], [encode] returns a code on which
    [get_coat_phenotype], when it returns, reports a coat that is not pure,
    with the bonus 2.  The symbols are written [a1-a2] and the pricing code
    reads the first two characters, [a1] and ['-']. *)
Theorem encoded_coat_never_pure (pet_genetics : list PetGenetics)
  (entries : list Spec.entry) :
  Forall2 (fun pg e => Spec.entry_of pg = Some e) pet_genetics entries ->
  Forall (fun e => Spec.well_formed e = true) entries ->
  (exists e : Spec.entry, e ∈ entries /\ e.1 = "coat_color") ->
  exists code,
    GeneticCode.encode pet_genetics = Ok code /\
    forall info,
      RarityCalculator.get_coat_phenotype code = Ok info ->
      RarityCalculator.coat_is_pure info = false /\
      RarityCalculator.coat_rarity_bonus info = 2.
Proof.
  intros Hentries Hwf (e & He & Hname).
  exists (join ";" (map Spec.segment_of entries)).
  split; [apply encode_entries; assumption|].
  intros info Hinfo.
  destruct (parse_encoded entries Hwf) as (genes & Hparse & Hall & Hkeys).
  rewrite Forall_forall in Hkeys. specialize (Hkeys e He).
  rewrite Hname in Hkeys. change (strip "coat_color") with "coat_color" in Hkeys.
  destruct Hkeys as [v Hv].
  exact (coat_dashed _ _ _ _ Hparse Hv (Hall _ _ Hv) Hinfo).
Qed.

Lemma encoded_coat_never_pure_witness :
  exists code,
    GeneticCode.encode (query_pet_genetics Examples.kennel 1) = Ok code /\
    forall info,
      RarityCalculator.get_coat_phenotype code = Ok info ->
      RarityCalculator.coat_is_pure info = false /\
      RarityCalculator.coat_rarity_bonus info = 2.
Proof.
  apply (encoded_coat_never_pure (query_pet_genetics Examples.kennel 1)
           [("coat_color", ("B", "O")); ("speed", ("F", "f"))]).
  - repeat constructor.
  - repeat constructor.
  - exists ("coat_color", ("B", "O")). split; [|reflexivity].
    apply elem_of_cons. left. reflexivity.
Defined.

(** X9.  A pet whose genetic code was written by [encode] is never
    Legendary: for instances whose entries are well formed, [encode]
    returns a code, and a pet carrying it has, whenever
    [calculate_rarity_score] returns, a score of at most 13; when one entry
    is for the gene [coat_color] the score is at most 10, so that its tier
    is Common or Uncommon. *)
Theorem encoded_rarity_capped (pet_genetics : list PetGenetics)
  (entries : list Spec.entry) :
  Forall2 (fun pg e => Spec.entry_of pg = Some e) pet_genetics entries ->
  Forall (fun e => Spec.well_formed e = true) entries ->
  exists code,
    GeneticCode.encode pet_genetics = Ok code /\
    forall pet score,
      genetic_code pet = Some code ->
      RarityCalculator.calculate_rarity_score pet = Ok score ->
      score <= 13 /\
      RarityCalculator.get_rarity_tier score <> "Legendary" /\
      ((exists e : Spec.entry, e ∈ entries /\ e.1 = "coat_color") ->
       score <= 10 /\
       (RarityCalculator.get_rarity_tier score = "Common" \/
        RarityCalculator.get_rarity_tier score = "Uncommon")).
Proof.
  intros Hentries Hwf.
  exists (join ";" (map Spec.segment_of entries)).
  split; [apply encode_entries; assumption|].
  intros pet score Hcode Hscore.
  destruct (parse_encoded entries Hwf) as (genes & Hparse & Hall & Hkeys).
  destruct (rarity_score_dashed _ _ _ _ Hcode Hparse Hall Hscore)
    as [H13 H10].
  split; [exact H13|]. split.
  - unfold RarityCalculator.get_rarity_tier.
    destruct (Z.leb_spec 16 score); [lia|].
    repeat case_match; discriminate.
  - intros (e & He & Hname).
    rewrite Forall_forall in Hkeys. specialize (Hkeys e He).
    rewrite Hname in Hkeys.
    change (strip "coat_color") with "coat_color" in Hkeys.
    specialize (H10 Hkeys). split; [exact H10|].
    unfold RarityCalculator.get_rarity_tier.
    destruct (Z.leb_spec 16 score); [lia|].
    destruct (Z.leb_spec 11 score); [lia|].
    destruct (6 <=? score); auto.
Qed.

Lemma encoded_rarity_capped_witness :
  exists code,
    GeneticCode.encode (query_pet_genetics Examples.kennel 1) = Ok code /\
    forall pet score,
      genetic_code pet = Some code ->
      RarityCalculator.calculate_rarity_score pet = Ok score ->
      score <= 13 /\
      RarityCalculator.get_rarity_tier score <> "Legendary" /\
      ((exists e : Spec.entry,
          e ∈ [("coat_color", ("B", "O")); ("speed", ("F", "f"))]
          /\ e.1 = "coat_color") ->
       score <= 10 /\
       (RarityCalculator.get_rarity_tier score = "Common" \/
        RarityCalculator.get_rarity_tier score = "Uncommon")).
Proof.
  apply (encoded_rarity_capped (query_pet_genetics Examples.kennel 1)
           [("coat_color", ("B", "O")); ("speed", ("F", "f"))]).
  - repeat constructor.
  - repeat constructor.
Defined.

(** ** The stored valuation *)

Lemma calculate_rarity_score_reads (p q : Pet) :
  genetic_code p = genetic_code q ->
  speed p = speed q -> endurance p = endurance q ->
  RarityCalculator.calculate_rarity_score p
  = RarityCalculator.calculate_rarity_score q.
Proof.
  intros Hc Hs He. unfold RarityCalculator.calculate_rarity_score.
  rewrite Hc, Hs, He. reflexivity.
Qed.

Lemma price_reads (p q : Pet) :
  genetic_code p = genetic_code q ->
  speed p = speed q -> endurance p = endurance q ->
  rarity_tier p = rarity_tier q ->
  RarityCalculator.price p = RarityCalculator.price q.
Proof.
  intros Hc Hs He Ht. unfold RarityCalculator.price.
  rewrite Hc, Hs, He, Ht. reflexivity.
Qed.

Lemma calculate_market_value_rated (pet : Pet) (score : Z) :
  RarityCalculator.calculate_rarity_score pet = Ok score ->
  RarityCalculator.calculate_market_value (Laws.rated score pet)
  = (RarityCalculator.price (Laws.rated score pet), Laws.rated score pet).
Proof.
  intros Hscore.
  unfold RarityCalculator.calculate_market_value,
         RarityCalculator.refresh_rarity.
  change (rarity_score (Laws.rated score pet)) with score.
  destruct (score =? 0); [|reflexivity].
  rewrite (calculate_rarity_score_reads (Laws.rated score pet) pet
             eq_refl eq_refl eq_refl), Hscore.
  reflexivity.
Qed.

Lemma calculate_and_store_valuation_inv (pet pet' : Pet)
  (v : RarityCalculator.valuation) :
  RarityCalculator.calculate_and_store_valuation pet = (Ok v, pet') ->
  exists score value ci hi,
    RarityCalculator.calculate_rarity_score pet = Ok score /\
    RarityCalculator.price (Laws.rated score pet) = Ok value /\
    RarityCalculator.get_coat_phenotype
      (RarityCalculator.or_else (genetic_code pet) "") = Ok ci /\
    RarityCalculator.get_hair_type
      (RarityCalculator.or_else (genetic_code pet) "") = Ok hi /\
    pet' = set_hair_type (RarityCalculator.hair_kind hi)
             (set_color_phenotype (Some (RarityCalculator.coat_phenotype ci))
                (set_market_value value (Laws.rated score pet))) /\
    v = {| RarityCalculator.v_rarity_score := score;
           RarityCalculator.v_rarity_tier :=
             Some (RarityCalculator.get_rarity_tier score);
           RarityCalculator.v_market_value := value;
           RarityCalculator.v_coat_color :=
             RarityCalculator.coat_phenotype ci;
           RarityCalculator.v_hair_type := RarityCalculator.hair_kind hi;
           RarityCalculator.v_speed := speed pet;
           RarityCalculator.v_endurance := endurance pet |}.
Proof.
  unfold RarityCalculator.calculate_and_store_valuation.
  destruct (RarityCalculator.calculate_rarity_score pet) as [score|e]
    eqn:Hscore; [|discriminate].
  cbv zeta.
  change (set_rarity_tier
            (Some (RarityCalculator.get_rarity_tier
                     (rarity_score (set_rarity_score score pet))))
            (set_rarity_score score pet))
    with (Laws.rated score pet).
  rewrite (calculate_market_value_rated pet score Hscore).
  destruct (RarityCalculator.price (Laws.rated score pet)) as [value|e]
    eqn:Hprice; [|discriminate].
  change (genetic_code (set_market_value value (Laws.rated score pet)))
    with (genetic_code pet).
  destruct (RarityCalculator.get_coat_phenotype _) as [ci|e] eqn:Hci;
    [|discriminate].
  destruct (RarityCalculator.get_hair_type _) as [hi|e] eqn:Hhi;
    [|discriminate].
  intros [= <- <-]. exists score, value, ci, hi.
  repeat split; reflexivity || assumption.
Qed.

(** X10.  What [calculate_and_store_valuation] leaves on the pet is
    consistent: when it returns, the stored score is the one
    [calculate_rarity_score] gives for the pet, the stored tier is the tier
    of the stored score, the stored market value is at least 50, the hair
    type is ["fluffy"] or ["short"], the dictionary returned repeats the
    stored columns, and no column other than the five assigned ones
    differs from the pet passed in. *)
Theorem calculate_and_store_valuation_consistent (pet pet' : Pet)
  (v : RarityCalculator.valuation) :
  RarityCalculator.calculate_and_store_valuation pet = (Ok v, pet') ->
  RarityCalculator.calculate_rarity_score pet = Ok (rarity_score pet') /\
  rarity_tier pet'
    = Some (RarityCalculator.get_rarity_tier (rarity_score pet')) /\
  50 <= market_value pet' /\
  (hair_type pet' = "fluffy" \/ hair_type pet' = "short") /\
  v = {| RarityCalculator.v_rarity_score := rarity_score pet';
         RarityCalculator.v_rarity_tier := rarity_tier pet';
         RarityCalculator.v_market_value := market_value pet';
         RarityCalculator.v_coat_color :=
           default "" (color_phenotype pet');
         RarityCalculator.v_hair_type := hair_type pet';
         RarityCalculator.v_speed := speed pet;
         RarityCalculator.v_endurance := endurance pet |} /\
  is_Some (color_phenotype pet') /\
  pet' = set_hair_type (hair_type pet')
           (set_color_phenotype (color_phenotype pet')
              (set_market_value (market_value pet')
                 (set_rarity_tier (rarity_tier pet')
                    (set_rarity_score (rarity_score pet') pet)))).
Proof.
  intros H.
  apply calculate_and_store_valuation_inv in H
    as (score & value & ci & hi & Hscore & Hprice & Hci & Hhi & -> & ->).
  split; [exact Hscore|]. split; [reflexivity|].
  split; [exact (price_floor _ _ Hprice)|]. split.
  - unfold RarityCalculator.get_hair_type in Hhi.
    apply bind_inv_ok in Hhi as [genes [_ Hhi]]. injection Hhi as <-.
    cbn. destruct (_ && _); auto.
  - split; [reflexivity|]. split; [cbn; eauto | reflexivity].
Qed.

Lemma calculate_and_store_valuation_consistent_witness :
  exists v pet',
    RarityCalculator.calculate_and_store_valuation Examples.champion
      = (Ok v, pet') /\
    RarityCalculator.calculate_rarity_score Examples.champion
      = Ok (rarity_score pet') /\
    rarity_tier pet'
      = Some (RarityCalculator.get_rarity_tier (rarity_score pet')) /\
    50 <= market_value pet' /\
    (hair_type pet' = "fluffy" \/ hair_type pet' = "short") /\
    v = {| RarityCalculator.v_rarity_score := rarity_score pet';
           RarityCalculator.v_rarity_tier := rarity_tier pet';
           RarityCalculator.v_market_value := market_value pet';
           RarityCalculator.v_coat_color :=
             default "" (color_phenotype pet');
           RarityCalculator.v_hair_type := hair_type pet';
           RarityCalculator.v_speed := speed Examples.champion;
           RarityCalculator.v_endurance := endurance Examples.champion |} /\
    is_Some (color_phenotype pet') /\
    pet' = set_hair_type (hair_type pet')
             (set_color_phenotype (color_phenotype pet')
                (set_market_value (market_value pet')
                   (set_rarity_tier (rarity_tier pet')
                      (set_rarity_score (rarity_score pet')
                                        Examples.champion)))).
Proof.
  destruct (RarityCalculator.calculate_and_store_valuation Examples.champion)
    as [[v|e] pet'] eqn:H; [|vm_compute in H; discriminate].
  exists v, pet'. split; [reflexivity|].
  exact (calculate_and_store_valuation_consistent _ _ _ H).
Defined.

(** X11.  Valuing a pet twice changes nothing: when
    [calculate_and_store_valuation] returns, calling it again on the pet it
    left returns the same dictionary and leaves the same pet, and
    [calculate_market_value] on that pet returns the stored market value
    without changing the pet. *)
Theorem calculate_and_store_valuation_idempotent (pet pet' : Pet)
  (v : RarityCalculator.valuation) :
  RarityCalculator.calculate_and_store_valuation pet = (Ok v, pet') ->
  RarityCalculator.calculate_and_store_valuation pet' = (Ok v, pet') /\
  RarityCalculator.calculate_market_value pet'
    = (Ok (market_value pet'), pet').
Proof.
  intros H.
  apply calculate_and_store_valuation_inv in H
    as (score & value & ci & hi & Hscore & Hprice & Hci & Hhi & -> & ->).
  set (pet' := set_hair_type (RarityCalculator.hair_kind hi)
                 (set_color_phenotype
                    (Some (RarityCalculator.coat_phenotype ci))
                    (set_market_value value (Laws.rated score pet)))).
  assert (Hscore' : RarityCalculator.calculate_rarity_score pet' = Ok score)
    by (rewrite <- Hscore;
        exact (calculate_rarity_score_reads pet' pet
                 eq_refl eq_refl eq_refl)).
  assert (Hprice' :
    RarityCalculator.price (Laws.rated score pet') = Ok value)
    by (rewrite <- Hprice;
        exact (price_reads (Laws.rated score pet') (Laws.rated score pet)
                 eq_refl eq_refl eq_refl eq_refl)).
  split.
  - unfold RarityCalculator.calculate_and_store_valuation.
    rewrite Hscore'. cbv zeta.
    change (set_rarity_tier
              (Some (RarityCalculator.get_rarity_tier
                       (rarity_score (set_rarity_score score pet'))))
              (set_rarity_score score pet'))
      with (Laws.rated score pet').
    rewrite (calculate_market_value_rated pet' score Hscore'), Hprice'.
    change (genetic_code (set_market_value value (Laws.rated score pet')))
      with (genetic_code pet).
    rewrite Hci, Hhi. reflexivity.
  - change pet' with (Laws.rated score pet') at 1.
    rewrite (calculate_market_value_rated pet' score Hscore'), Hprice'.
    reflexivity.
Qed.

Lemma calculate_and_store_valuation_idempotent_witness :
  exists v pet',
    RarityCalculator.calculate_and_store_valuation Examples.champion
      = (Ok v, pet') /\
    RarityCalculator.calculate_and_store_valuation pet' = (Ok v, pet') /\
    RarityCalculator.calculate_market_value pet'
      = (Ok (market_value pet'), pet').
Proof.
  destruct (RarityCalculator.calculate_and_store_valuation Examples.champion)
    as [[v|e] pet'] eqn:H; [|vm_compute in H; discriminate].
  exists v, pet'. split; [reflexivity|].
  exact (calculate_and_store_valuation_idempotent _ _ _ H).
Defined.

(** ** Stats from genetics *)

(** X12.  [update_stats_from_genetics] leaves a pet without genetics rows
    as it is; otherwise, when it returns, speed and endurance lie between
    0 and 100 and no other column differs from the pet passed in. *)
Theorem update_stats_within_bounds (s : Session) (pet pet' : Pet)
  (r_speed r_endurance : Z) :
  BreedingEngine.update_stats_from_genetics s pet r_speed r_endurance
    = (Ok tt, pet') ->
  (query_pet_genetics s (id pet) = [] /\ pet' = pet) \/
  (query_pet_genetics s (id pet) <> [] /\
   0 <= speed pet' <= 100 /\ 0 <= endurance pet' <= 100 /\
   pet' = set_endurance (endurance pet') (set_speed (speed pet') pet)).
Proof.
  unfold BreedingEngine.update_stats_from_genetics.
  destruct (query_pet_genetics s (id pet)) as [|pg pgs] eqn:Hq.
  - intros [= <-]. left. auto.
  - destruct (BreedingEngine.stat_modifiers _ _ _)
      as [[speed_mod endurance_mod]|e]; [|discriminate].
    destruct (BreedingEngine.stat_value speed_mod r_speed)
      as [v_speed|e]; [|discriminate].
    destruct (BreedingEngine.stat_value endurance_mod r_endurance)
      as [v_endurance|e]; [|discriminate].
    intros [= <-]. right. split; [discriminate|].
    cbn. unfold BreedingEngine.clamp. repeat split; lia.
Qed.

Lemma update_stats_within_bounds_witness :
  exists pet',
    BreedingEngine.update_stats_from_genetics Examples.kennel Examples.ann
      5 (-5) = (Ok tt, pet') /\
    ((query_pet_genetics Examples.kennel (id Examples.ann) = []
      /\ pet' = Examples.ann) \/
     (query_pet_genetics Examples.kennel (id Examples.ann) <> [] /\
      0 <= speed pet' <= 100 /\ 0 <= endurance pet' <= 100 /\
      pet' = set_endurance (endurance pet')
               (set_speed (speed pet') Examples.ann))).
Proof.
  destruct (BreedingEngine.update_stats_from_genetics Examples.kennel
              Examples.ann 5 (-5)) as [[[]|e] pet'] eqn:H;
    [|vm_compute in H; discriminate].
  exists pet'. split; [reflexivity|].
  exact (update_stats_within_bounds _ _ _ _ _ H).
Defined.

(** ** Breeding: what a successful call leaves behind *)

Lemma fresh_id_above (ids : list Z) (x : Z) : x ∈ ids -> x < fresh_id ids.
Proof.
  unfold fresh_id. induction ids as [|y ids IH]; intros H.
  - apply elem_of_nil in H. contradiction.
  - apply elem_of_cons in H as [->|H]; cbn [foldr];
      [lia | specialize (IH H); lia].
Qed.

Lemma add_genetics_frame (entries : list (Z * (Allele * Allele))) :
  forall (s : Session) (pet_id : Z),
    genes (BreedingEngine.add_genetics s pet_id entries) = genes s /\
    alleles (BreedingEngine.add_genetics s pet_id entries) = alleles s /\
    pets (BreedingEngine.add_genetics s pet_id entries) = pets s /\
    offspring (BreedingEngine.add_genetics s pet_id entries) = offspring s.
Proof.
  unfold BreedingEngine.add_genetics.
  induction entries as [|e entries IH]; intros s pet_id; [cbn; auto|].
  cbn [foldl].
  destruct (IH (add_pet_genetics s pet_id e.1 (allele_id e.2.1)
                  (allele_id e.2.2)) pet_id) as (Hg & Ha & Hp & Ho).
  rewrite Hg, Ha, Hp, Ho. cbn. auto.
Qed.

Lemma query_pet_genetics_reads (s s' : Session) (pet_id : Z) :
  genes s' = genes s -> alleles s' = alleles s ->
  pet_genetics s' = pet_genetics s ->
  query_pet_genetics s' pet_id = query_pet_genetics s pet_id.
Proof.
  intros Hg Ha Hp. unfold query_pet_genetics, load.
  rewrite Hg, Ha, Hp. reflexivity.
Qed.

Lemma update_stats_from_genetics_inv (s : Session) (pet pet' : Pet)
  (r_speed r_endurance : Z) :
  BreedingEngine.update_stats_from_genetics s pet r_speed r_endurance
    = (Ok tt, pet') ->
  pet' = pet \/
  exists v e,
    pet' = set_endurance (BreedingEngine.clamp e)
             (set_speed (BreedingEngine.clamp v) pet).
Proof.
  unfold BreedingEngine.update_stats_from_genetics.
  destruct (query_pet_genetics s (id pet)) as [|pg pgs].
  - intros [= <-]. left. reflexivity.
  - destruct (BreedingEngine.stat_modifiers _ _ _)
      as [[speed_mod endurance_mod]|e]; [|discriminate].
    destruct (BreedingEngine.stat_value speed_mod r_speed)
      as [v_speed|e]; [|discriminate].
    destruct (BreedingEngine.stat_value endurance_mod r_endurance)
      as [v_endurance|e]; [|discriminate].
    intros [= <-]. right. exists v_speed, v_endurance. reflexivity.
Qed.

Lemma breed_inv (s : Session) (parent1 parent2 : Pet)
  (child_name child_species child_color : string) (owner_id : Z)
  (draws : nat -> nat) (r_speed r_endurance : Z)
  (child : Pet) (squares : list punnett_entry) (summary : string)
  (s' : Session) :
  BreedingEngine.breed s parent1 parent2 child_name child_species
    child_color owner_id draws r_speed r_endurance
    = (Ok (child, squares, summary), s') ->
  exists crossed code child1 v,
    BreedingEngine.cross_genes s parent1 parent2
      (Spec.positions s parent1 parent2) draws Spec.start = Ok crossed /\
    GeneticCode.encode
      (query_pet_genetics
         (Laws.nursery s
            (Laws.newborn s owner_id child_name child_species child_color)
            crossed)
         (id (Laws.newborn s owner_id child_name child_species
                child_color)))
      = Ok code /\
    BreedingEngine.update_stats_from_genetics
      (Laws.nursery s
         (Laws.newborn s owner_id child_name child_species child_color)
         crossed)
      (set_genetic_code (Some code)
         (Laws.newborn s owner_id child_name child_species child_color))
      r_speed r_endurance = (Ok tt, child1) /\
    RarityCalculator.calculate_and_store_valuation child1 = (Ok v, child) /\
    squares = BreedingEngine.punnett_squares crossed /\
    summary = join " | " (BreedingEngine.inheritance_notes_acc crossed) /\
    s' = update_pet
           (add_offspring
              (Laws.nursery s
                 (Laws.newborn s owner_id child_name child_species
                    child_color)
                 crossed)
              {| parent1_id := id parent1;
                 parent2_id := id parent2;
                 child_id := id child;
                 punnett_square_data := squares;
                 inheritance_notes := summary |})
           child.
Proof.
  unfold BreedingEngine.breed, Spec.positions, Spec.start, Laws.nursery,
         Laws.newborn.
  generalize (query_pet_genetics s (id parent1))
             (query_pet_genetics s (id parent2)).
  intros g1 g2.
  destruct g1 as [|x1 g1], g2 as [|x2 g2]; try discriminate.
  destruct (BreedingEngine.cross_genes s parent1 parent2
              (zip (x1 :: g1) (x2 :: g2)) draws _)
    as [crossed|e] eqn:Hcross; [|discriminate].
  cbv zeta.
  destruct (GeneticCode.encode _) as [code|e] eqn:Hcode; [|discriminate].
  destruct (BreedingEngine.update_stats_from_genetics _ _ _ _)
    as [[[]|e] child1] eqn:Hstats; [|discriminate].
  destruct (RarityCalculator.calculate_and_store_valuation child1)
    as [[v|e] child2] eqn:Hval; [|discriminate].
  intros [= <- <- <- <-].
  exists crossed, code, child1, v.
  split; [reflexivity|]. split; [exact Hcode|]. split; [exact Hstats|].
  split; [exact Hval|]. auto.
Qed.

Lemma bred_child (s : Session) (nb child1 child : Pet) (code : string)
  (r_speed r_endurance : Z) (v : RarityCalculator.valuation) :
  BreedingEngine.update_stats_from_genetics s
    (set_genetic_code (Some code) nb) r_speed r_endurance = (Ok tt, child1) ->
  RarityCalculator.calculate_and_store_valuation child1 = (Ok v, child) ->
  speed nb = 50 -> endurance nb = 50 ->
  id child = id nb /\ owner_id child = owner_id nb /\
  name child = name nb /\ species child = species nb /\
  color child = color nb /\
  genetic_code child = Some code /\ genetic_code child1 = Some code /\
  0 <= speed child <= 100 /\ 0 <= endurance child <= 100 /\
  50 <= market_value child <= 39000 /\
  RarityCalculator.calculate_rarity_score child1
    = Ok (rarity_score child) /\
  rarity_tier child
    = Some (RarityCalculator.get_rarity_tier (rarity_score child)).
Proof.
  intros Hstats Hval Hs He.
  apply calculate_and_store_valuation_inv in Hval
    as (score & value & ci & hi & Hscore & Hprice & _ & _ & -> & _).
  assert (Hin : 0 <= speed child1 <= 100 /\ 0 <= endurance child1 <= 100).
  { apply update_stats_from_genetics_inv in Hstats
      as [-> | (x & y & ->)]; cbn; unfold BreedingEngine.clamp; lia. }
  assert (Hkeep : id child1 = id nb /\ owner_id child1 = owner_id nb /\
                  name child1 = name nb /\ species child1 = species nb /\
                  color child1 = color nb /\
                  genetic_code child1 = Some code).
  { apply update_stats_from_genetics_inv in Hstats
      as [-> | (x & y & ->)]; cbn; auto 10. }
  destruct Hkeep as (H1 & H2 & H3 & H4 & H5 & H6).
  cbn. repeat (split; [assumption || lia|]).
  split; [|split; [exact Hscore | reflexivity]].
  split; [exact (price_floor _ _ Hprice)|].
  apply price_product in Hprice as (ci' & hi' & p & _ & _ & Hp & ->).
  apply product_bounds in Hp; [|apply base_in_table | cbn; lia].
  lia.
Qed.

(** X13.  A successful [breed] adds exactly one pet and one offspring
    row: the catalogue of genes and alleles is unchanged, the pets of the
    session are the former ones followed by the child, whose id is above
    every former id and whose owner, name, species and colour are the
    arguments of the call, and the offspring table gains one row that
    names the two parents, the child, and holds the Punnett entries and the
    summary returned. *)
Theorem breed_adds_one_pet (s : Session) (parent1 parent2 : Pet)
  (child_name child_species child_color : string) (owner_id : Z)
  (draws : nat -> nat) (r_speed r_endurance : Z)
  (child : Pet) (squares : list punnett_entry) (summary : string)
  (s' : Session) :
  BreedingEngine.breed s parent1 parent2 child_name child_species
    child_color owner_id draws r_speed r_endurance
    = (Ok (child, squares, summary), s') ->
  genes s' = genes s /\ alleles s' = alleles s /\
  pets s' = pets s ++ [child] /\
  Forall (fun p => id p < id child) (pets s) /\
  models.owner_id child = owner_id /\ name child = child_name /\
  species child = child_species /\ color child = child_color /\
  offspring s' =
    offspring s ++ [{| parent1_id := id parent1;
                       parent2_id := id parent2;
                       child_id := id child;
                       punnett_square_data := squares;
                       inheritance_notes := summary |}].
Proof.
  intros H.
  apply breed_inv in H
    as (crossed & code & child1 & v & _ & _ & Hstats & Hval & _ & _ & ->).
  destruct (bred_child _ _ _ _ _ _ _ _ Hstats Hval eq_refl eq_refl)
    as (Hid & Ho & Hn & Hsp & Hc & _).
  destruct (add_genetics_frame (BreedingEngine.offspring_alleles crossed)
              (add_pet s (Laws.newborn s owner_id child_name child_species
                            child_color))
              (id (Laws.newborn s owner_id child_name child_species
                     child_color)))
    as (Hg & Ha & Hp & Hoff).
  assert (Hfresh : Forall (fun p => id p < id child) (pets s)).
  { rewrite Hid. apply Forall_forall. intros p Hp'.
    apply fresh_id_above. apply list_elem_of_fmap. eauto. }
  cbn [genes alleles pets offspring update_pet add_offspring].
  unfold Laws.nursery. rewrite Hg, Ha, Hp, Hoff.
  cbn [genes alleles pets offspring add_pet].
  split; [reflexivity|]. split; [reflexivity|]. split.
  - rewrite map_app. cbn [map]. rewrite Hid, Z.eqb_refl. f_equal.
    rewrite <- Hid. clear - Hfresh.
    induction Hfresh as [|p ps Hlt _ IH]; [reflexivity|].
    cbn [map]. rewrite IH.
    destruct (Z.eqb_spec (id p) (id child)); [lia | reflexivity].
  - split; [exact Hfresh|]. cbn in Ho, Hn, Hsp, Hc. auto.
Qed.

Lemma breed_adds_one_pet_witness :
  exists child squares summary s',
    BreedingEngine.breed Examples.kennel Examples.ann Examples.bob
      "Cub" "Guinea Pig" "brown" 7 (fun _ => 0%nat) 0 0
      = (Ok (child, squares, summary), s') /\
    genes s' = genes Examples.kennel /\
    alleles s' = alleles Examples.kennel /\
    pets s' = pets Examples.kennel ++ [child] /\
    Forall (fun p => id p < id child) (pets Examples.kennel) /\
    models.owner_id child = 7 /\ name child = "Cub" /\
    species child = "Guinea Pig" /\ color child = "brown" /\
    offspring s' =
      offspring Examples.kennel
      ++ [{| parent1_id := id Examples.ann;
             parent2_id := id Examples.bob;
             child_id := id child;
             punnett_square_data := squares;
             inheritance_notes := summary |}].
Proof.
  destruct (BreedingEngine.breed Examples.kennel Examples.ann Examples.bob
              "Cub" "Guinea Pig" "brown" 7 (fun _ => 0%nat) 0 0)
    as [[[[child squares] summary]|e] s'] eqn:H;
    [|vm_compute in H; discriminate].
  exists child, squares, summary, s'. split; [reflexivity|].
  exact (breed_adds_one_pet _ _ _ _ _ _ _ _ _ _ _ _ _ _ H).
Defined.



(** ** Breeding: the Punnett entries *)

Lemma cross_gene_square (s : Session) (parent1 parent2 : Pet)
  (p1_gene p2_gene : PetGenetics) (n : nat)
  (acc acc' : BreedingEngine.crossing) :
  BreedingEngine.cross_gene s parent1 parent2 p1_gene p2_gene n acc
    = Ok acc' ->
  exists e,
    BreedingEngine.punnett_squares acc'
      = BreedingEngine.punnett_squares acc ++ [e] /\ Laws.drawn e.
Proof.
  unfold BreedingEngine.cross_gene. intros H.
  apply bind_inv_ok in H as [a [_ H]].
  apply bind_inv_ok in H as [b [_ H]].
  apply bind_inv_ok in H as [c [_ H]].
  apply bind_inv_ok in H as [d [_ H]].
  cbv zeta in H. rewrite calculate_returns in H.
  cbn [mbind result_bind bind] in H.
  apply bind_inv_ok in H as [g [Hg H]].
  apply bind_inv_ok in H as [gn [_ H]].
  apply bind_inv_ok in H as [sym0 [_ H]].
  apply bind_inv_ok in H as [sym1 [_ H]].
  injection H as <-. eexists. split; [reflexivity|].
  unfold BreedingEngine.choice, index in Hg.
  cbn [PunnettSquare.offspring_genotypes] in Hg.
  destruct (_ !! _) as [g'|] eqn:Hlook; [|discriminate].
  injection Hg as ->. apply list_elem_of_lookup_2 in Hlook.
  unfold Laws.drawn.
  cbn [offspring_genotype entry_possible_offspring entry_punnett_square
       PunnettSquare.possible_offspring PunnettSquare.punnett_square].
  split; [|split].
  - apply (proj2 (counts_keys
                    [PunnettSquare.cell (symbol a) (symbol c);
                     PunnettSquare.cell (symbol a) (symbol d);
                     PunnettSquare.cell (symbol b) (symbol c);
                     PunnettSquare.cell (symbol b) (symbol d)] [] g)).
    left. exact Hlook.
  - exact Hlook.
  - apply (counts_NoDup
             [PunnettSquare.cell (symbol a) (symbol c);
              PunnettSquare.cell (symbol a) (symbol d);
              PunnettSquare.cell (symbol b) (symbol c);
              PunnettSquare.cell (symbol b) (symbol d)] []).
    constructor.
Qed.

Lemma cross_genes_squares (s : Session) (parent1 parent2 : Pet)
  (pairs : list (PetGenetics * PetGenetics)) :
  forall (draws : nat -> nat) (acc crossed : BreedingEngine.crossing),
    Forall Laws.drawn (BreedingEngine.punnett_squares acc) ->
    BreedingEngine.cross_genes s parent1 parent2 pairs draws acc
      = Ok crossed ->
    Forall Laws.drawn (BreedingEngine.punnett_squares crossed).
Proof.
  induction pairs as [|[p1_gene p2_gene] pairs IH];
    intros draws acc crossed Hacc H; cbn [BreedingEngine.cross_genes] in H.
  - injection H as <-. exact Hacc.
  - destruct (negb _); [exact (IH _ _ _ Hacc H)|].
    apply bind_inv_ok in H as [acc' [Hstep H]].
    apply cross_gene_square in Hstep as (e & Heq & He).
    eapply IH; [|exact H].
    rewrite Heq. apply Forall_app. split; [exact Hacc|].
    constructor; [exact He | constructor].
Qed.

(** X15.  Every Punnett entry a successful [breed] returns records a
    genotype that was really drawn from its grid: the offspring genotype of
    the entry is one of the cells of the entry's Punnett square and is
    listed among its possible offspring, which are listed without
    repetition. *)
Theorem breed_entries_drawn (s : Session) (parent1 parent2 : Pet)
  (child_name child_species child_color : string) (owner_id : Z)
  (draws : nat -> nat) (r_speed r_endurance : Z)
  (child : Pet) (squares : list punnett_entry) (summary : string)
  (s' : Session) :
  BreedingEngine.breed s parent1 parent2 child_name child_species
    child_color owner_id draws r_speed r_endurance
    = (Ok (child, squares, summary), s') ->
  Forall Laws.drawn squares.
Proof.
  intros H.
  apply breed_inv in H
    as (crossed & code & child1 & v & Hcross & _ & _ & _ & -> & _).
  exact (cross_genes_squares s parent1 parent2 _ draws Spec.start crossed
           (List.Forall_nil _) Hcross).
Qed.

Lemma breed_entries_drawn_witness :
  exists child squares summary s',
    BreedingEngine.breed Examples.kennel Examples.ann Examples.bob
      "Cub" "Guinea Pig" "brown" 7 (fun _ => 0%nat) 0 0
      = (Ok (child, squares, summary), s') /\
    Forall Laws.drawn squares.
Proof.
  destruct (BreedingEngine.breed Examples.kennel Examples.ann Examples.bob
              "Cub" "Guinea Pig" "brown" 7 (fun _ => 0%nat) 0 0)
    as [[[[child squares] summary]|e] s'] eqn:H;
    [|vm_compute in H; discriminate].
  exists child, squares, summary, s'. split; [reflexivity|].
  exact (breed_entries_drawn _ _ _ _ _ _ _ _ _ _ _ _ _ _ H).
Defined.

(** ** Breeding in a catalogue that can be written down *)

Lemma encode_entry_inv (pg : PetGenetics) (segment : string) :
  GeneticCode.encode_entry pg = Ok segment ->
  exists e, Spec.entry_of pg = Some e /\ segment = Spec.segment_of e.
Proof.
  unfold GeneticCode.encode_entry, Spec.entry_of.
  destruct (gene pg), (allele1 pg), (allele2 pg); try discriminate.
  intros [= <-]. eexists. split; reflexivity.
Qed.

Lemma encode_inv (pet_genetics : list PetGenetics) (code : string) :
  GeneticCode.encode pet_genetics = Ok code ->
  exists entries,
    Forall2 (fun pg e => Spec.entry_of pg = Some e) pet_genetics entries /\
    code = join ";" (map Spec.segment_of entries).
Proof.
  unfold GeneticCode.encode. intros H.
  apply bind_inv_ok in H as [segments [Hsegments H]]. injection H as <-.
  revert segments Hsegments.
  induction pet_genetics as [|pg pgs IH]; intros segments H; cbn in H.
  - injection H as <-. exists []. split; [constructor | reflexivity].
  - apply bind_inv_ok in H as [segment [Hpg H]].
    apply bind_inv_ok in H as [rest [Hrest H]]. injection H as <-.
    apply encode_entry_inv in Hpg as (e & He & ->).
    destruct (IH rest Hrest) as (entries & Hentries & Heq).
    exists (e :: entries). split; [constructor; assumption|].
    assert (Hmap : rest = map Spec.segment_of entries).
    { clear - Hrest Hentries. revert rest Hrest.
      induction Hentries as [|pg e' pgs es Hpg _ IH']; intros rest Hrest;
        cbn in Hrest.
      - injection Hrest as <-. reflexivity.
      - rewrite (encode_entry_of _ _ Hpg) in Hrest.
        cbn [mbind result_bind bind] in Hrest.
        apply bind_inv_ok in Hrest as [rest' [Hrest' Hrest]].
        injection Hrest as <-. cbn [map]. f_equal. exact (IH' _ Hrest'). }
    rewrite Hmap. reflexivity.
Qed.

Lemma loaded_entry_well_formed (s : Session) (r : pet_genetics_row)
  (e : Spec.entry) :
  Laws.writable s = true ->
  Spec.entry_of (load s r) = Some e -> Spec.well_formed e = true.
Proof.
  unfold Laws.writable, Spec.entry_of, load.
  cbn [gene allele1 allele2]. intros Hw.
  apply andb_true_iff in Hw as [Hgenes Halleles].
  rewrite forallb_forall in Hgenes, Halleles.
  destruct (List.find _ (genes s)) as [g|] eqn:Hg; [|discriminate].
  destruct (List.find (fun a => allele_id a =? row_allele1_id r) _)
    as [a1|] eqn:H1; [|discriminate].
  destruct (List.find (fun a => allele_id a =? row_allele2_id r) _)
    as [a2|] eqn:H2; [|discriminate].
  intros [= <-].
  apply find_some in Hg as [Hg _]. apply find_some in H1 as [H1 _].
  apply find_some in H2 as [H2 _].
  specialize (Hgenes g Hg). pose proof (Halleles a1 H1) as Ha1.
  pose proof (Halleles a2 H2) as Ha2.
  apply andb_true_iff in Ha1 as [Ho1 Hd1].
  apply andb_true_iff in Ha2 as [Ho2 Hd2].
  unfold Spec.well_formed, Spec.well_formed_as_claimed. cbn [fst snd].
  rewrite Hgenes, Ho1, Ho2, Hd1, Hd2. reflexivity.
Qed.

Lemma loaded_entries_well_formed (s : Session) (pet_id : Z)
  (entries : list Spec.entry) :
  Laws.writable s = true ->
  Forall2 (fun pg e => Spec.entry_of pg = Some e)
          (query_pet_genetics s pet_id) entries ->
  Forall (fun e => Spec.well_formed e = true) entries.
Proof.
  intros Hw. unfold query_pet_genetics.
  generalize (List.filter (fun r => row_pet_id r =? pet_id)
                (pet_genetics s)).
  intros rows. revert entries.
  induction rows as [|r rows IH]; intros entries H; cbn [map] in H.
  - inversion H. constructor.
  - inversion H as [|pg e pgs es He Hes]; subst. constructor.
    + exact (loaded_entry_well_formed s r e Hw He).
    + exact (IH _ Hes).
Qed.

Lemma entries_of_member (pet_genetics : list PetGenetics)
  (entries : list Spec.entry) (pg : PetGenetics) :
  Forall2 (fun pg e => Spec.entry_of pg = Some e) pet_genetics entries ->
  pg ∈ pet_genetics ->
  exists e, e ∈ entries /\ Spec.entry_of pg = Some e.
Proof.
  induction 1 as [|pg' e pgs es He _ IH]; intros Hin.
  - apply elem_of_nil in Hin. contradiction.
  - apply elem_of_cons in Hin as [->|Hin].
    + exists e. split; [apply elem_of_cons; auto | exact He].
    + destruct (IH Hin) as (e' & He' & Hpg).
      exists e'. split; [apply elem_of_cons; auto | exact Hpg].
Qed.

(** X16.  In a catalogue whose gene names hold no delimiter and whose
    allele symbols are one character that is no delimiter, a bred child is
    never Legendary: after a successful [breed] its score is at most 13,
    and when the child carries the gene [coat_color] its score is at most
    10 and its tier is Common or Uncommon, whatever the parents were. *)
Theorem breed_child_never_legendary (s : Session) (parent1 parent2 : Pet)
  (child_name child_species child_color : string) (owner_id : Z)
  (draws : nat -> nat) (r_speed r_endurance : Z)
  (child : Pet) (squares : list punnett_entry) (summary : string)
  (s' : Session) :
  Laws.writable s = true ->
  BreedingEngine.breed s parent1 parent2 child_name child_species
    child_color owner_id draws r_speed r_endurance
    = (Ok (child, squares, summary), s') ->
  rarity_score child <= 13 /\
  rarity_tier child <> Some "Legendary" /\
  ((exists pg g, pg ∈ query_pet_genetics s' (id child) /\
                 gene pg = Some g /\ gene_name g = "coat_color") ->
   rarity_score child <= 10 /\
   (rarity_tier child = Some "Common" \/
    rarity_tier child = Some "Uncommon")).
Proof.
  intros Hw H.
  apply breed_inv in H
    as (crossed & code & child1 & v & _ & Hcode & Hstats & Hval & _ & _
        & ->).
  destruct (bred_child _ _ _ _ _ _ _ _ Hstats Hval eq_refl eq_refl)
    as (Hid & _ & _ & _ & _ & _ & Hgc & _ & _ & _ & Hscore & Htier).
  destruct (encode_inv _ _ Hcode) as (entries & Hentries & ->).
  assert (Hw' : Laws.writable
                  (Laws.nursery s
                     (Laws.newborn s owner_id child_name child_species
                        child_color) crossed) = true).
  { unfold Laws.writable, Laws.nursery.
    destruct (add_genetics_frame
                (BreedingEngine.offspring_alleles crossed)
                (add_pet s (Laws.newborn s owner_id child_name
                              child_species child_color))
                (id (Laws.newborn s owner_id child_name child_species
                       child_color))) as (Hg & Ha & _).
    rewrite Hg, Ha. exact Hw. }
  pose proof (loaded_entries_well_formed _ _ _ Hw' Hentries) as Hwf.
  destruct (parse_encoded entries Hwf) as (genes & Hparse & Hall & Hkeys).
  destruct (rarity_score_dashed _ _ _ _ Hgc Hparse Hall Hscore)
    as [H13 H10].
  rewrite Htier. split; [exact H13|]. split.
  - intros [= Heq]. revert Heq. unfold RarityCalculator.get_rarity_tier.
    destruct (Z.leb_spec 16 (rarity_score child)); [lia|].
    repeat case_match; discriminate.
  - intros (pg & g & Hpg & Hgene & Hname).
    rewrite Hid in Hpg.
    destruct (entries_of_member _ _ pg Hentries Hpg) as (e & He & Hentry).
    assert (He1 : e.1 = "coat_color").
    { unfold Spec.entry_of in Hentry. rewrite Hgene in Hentry.
      destruct (allele1 pg), (allele2 pg); try discriminate.
      injection Hentry as <-. exact Hname. }
    rewrite Forall_forall in Hkeys. specialize (Hkeys e He).
    rewrite He1 in Hkeys.
    change (strip "coat_color") with "coat_color" in Hkeys.
    specialize (H10 Hkeys). split; [exact H10|].
    unfold RarityCalculator.get_rarity_tier.
    destruct (Z.leb_spec 16 (rarity_score child)); [lia|].
    destruct (Z.leb_spec 11 (rarity_score child)); [lia|].
    destruct (6 <=? rarity_score child); auto.
Qed.

Lemma breed_child_never_legendary_witness :
  exists child squares summary s',
    Laws.writable Examples.kennel = true /\
    BreedingEngine.breed Examples.kennel Examples.ann Examples.bob
      "Cub" "Guinea Pig" "brown" 7 (fun _ => 0%nat) 0 0
      = (Ok (child, squares, summary), s') /\
    rarity_score child <= 13 /\
    rarity_tier child <> Some "Legendary" /\
    ((exists pg g, pg ∈ query_pet_genetics s' (id child) /\
                   gene pg = Some g /\ gene_name g = "coat_color") ->
     rarity_score child <= 10 /\
     (rarity_tier child = Some "Common" \/
      rarity_tier child = Some "Uncommon")).
Proof.
  assert (Hw : Laws.writable Examples.kennel = true)
    by (vm_compute; reflexivity).
  destruct (BreedingEngine.breed Examples.kennel Examples.ann Examples.bob
              "Cub" "Guinea Pig" "brown" 7 (fun _ => 0%nat) 0 0)
    as [[[[child squares] summary]|e] s'] eqn:H;
    [|vm_compute in H; discriminate].
  exists child, squares, summary, s'. split; [exact Hw|].
  split; [reflexivity|].
  exact (breed_child_never_legendary _ _ _ _ _ _ _ _ _ _ _ _ _ _ Hw H).
Defined.

(** ** The seeded catalogue *)

Lemma add_alleles_frame (gid : Z) (trait : string)
  (data : list (string * string * Z * Z)) :
  forall s : Session,
    genes (foldl (Catalog.add_allele gid trait) s data) = genes s /\
    pet_genetics (foldl (Catalog.add_allele gid trait) s data)
      = pet_genetics s /\
    pets (foldl (Catalog.add_allele gid trait) s data) = pets s /\
    offspring (foldl (Catalog.add_allele gid trait) s data)
      = offspring s /\
    exists new_alleles,
      alleles (foldl (Catalog.add_allele gid trait) s data)
        = alleles s ++ new_alleles /\
      Forall (fun a => allele_gene_id a = gid) new_alleles.
Proof.
  induction data as [|[[[a_name a_symbol] a_dominance] a_effect] data IH];
    intros s; cbn [foldl].
  - repeat split; try reflexivity.
    exists []. rewrite app_nil_r. split; [reflexivity | constructor].
  - destruct (IH (Catalog.add_allele gid trait s
                    (a_name, a_symbol, a_dominance, a_effect)))
      as (Hg & Hpg & Hp & Ho & new_alleles & Ha & Hall).
    rewrite Hg, Hpg, Hp, Ho, Ha. cbn.
    repeat split; try reflexivity.
    eexists (_ :: new_alleles). rewrite <- app_assoc. cbn [app].
    split; [reflexivity|]. constructor; [reflexivity | exact Hall].
Qed.

Lemma add_gene_frame (s : Session) (d : Catalog.gene_data) :
  pet_genetics (Catalog.add_gene s d) = pet_genetics s /\
  pets (Catalog.add_gene s d) = pets s /\
  offspring (Catalog.add_gene s d) = offspring s /\
  exists g new_alleles,
    genes (Catalog.add_gene s d) = genes s ++ [g] /\
    alleles (Catalog.add_gene s d) = alleles s ++ new_alleles /\
    Forall (fun a => allele_gene_id a = gene_id g) new_alleles.
Proof.
  destruct d as [[[g_name g_trait] g_description] g_alleles].
  unfold Catalog.add_gene.
  match goal with
  | |- context [foldl (Catalog.add_allele ?gid ?trait) ?s0 ?data] =>
      destruct (add_alleles_frame gid trait data s0)
        as (Hg & Hpg & Hp & Ho & new_alleles & Ha & Hall)
  end.
  cbv zeta. rewrite Hg, Hpg, Hp, Ho, Ha. cbn.
  repeat split; try reflexivity.
  eexists _, new_alleles. split; [reflexivity|]. split; [reflexivity|].
  exact Hall.
Qed.

Lemma add_genes_frame (data : list Catalog.gene_data) :
  forall s : Session,
    pet_genetics (foldl Catalog.add_gene s data) = pet_genetics s /\
    pets (foldl Catalog.add_gene s data) = pets s /\
    offspring (foldl Catalog.add_gene s data) = offspring s /\
    exists new_genes new_alleles,
      genes (foldl Catalog.add_gene s data) = genes s ++ new_genes /\
      length new_genes = length data /\
      alleles (foldl Catalog.add_gene s data) = alleles s ++ new_alleles /\
      Forall (fun a => exists g, g ∈ new_genes /\
                                 allele_gene_id a = gene_id g) new_alleles.
Proof.
  induction data as [|d data IH]; intros s; cbn [foldl].
  - repeat split; try reflexivity.
    exists [], []. rewrite !app_nil_r.
    repeat split; try reflexivity. constructor.
  - destruct (IH (Catalog.add_gene s d))
      as (Hpg & Hp & Ho & new_genes & new_alleles & Hg & Hlen & Ha & Hall).
    destruct (add_gene_frame s d)
      as (Hpg1 & Hp1 & Ho1 & g & first_alleles & Hg1 & Ha1 & Hall1).
    rewrite Hpg, Hp, Ho, Hg, Ha, Hpg1, Hp1, Ho1, Hg1, Ha1.
    repeat split; try reflexivity.
    exists (g :: new_genes), (first_alleles ++ new_alleles).
    rewrite <- !app_assoc. cbn [app length].
    split; [reflexivity|]. split; [lia|]. split; [reflexivity|].
    apply Forall_app. split.
    + eapply Forall_impl; [exact Hall1|]. intros a Hgid.
      exists g. split; [apply elem_of_cons; auto | exact Hgid].
    + eapply Forall_impl; [exact Hall|]. intros a (g' & Hg' & Hgid).
      exists g'. split; [apply elem_of_cons; auto | exact Hgid].
Qed.

(** X17.  [initialize_genetics_system] is idempotent and only appends:
    running it a second time changes nothing, the gene table is never
    empty afterwards, the genes and alleles that were there stay in front
    of those added, every allele added belongs to a gene added by the same
    call, and pets, genetics rows and offspring are left alone. *)
Theorem initialize_genetics_system_idempotent (s : Session) :
  Catalog.initialize_genetics_system
    (Catalog.initialize_genetics_system s)
  = Catalog.initialize_genetics_system s /\
  genes (Catalog.initialize_genetics_system s) <> [] /\
  (exists new_genes new_alleles,
     genes (Catalog.initialize_genetics_system s) = genes s ++ new_genes /\
     alleles (Catalog.initialize_genetics_system s)
       = alleles s ++ new_alleles /\
     Forall (fun a => exists g, g ∈ new_genes /\
                                allele_gene_id a = gene_id g) new_alleles) /\
  pet_genetics (Catalog.initialize_genetics_system s) = pet_genetics s /\
  pets (Catalog.initialize_genetics_system s) = pets s /\
  offspring (Catalog.initialize_genetics_system s) = offspring s.
Proof.
  assert (Hnonempty : genes (Catalog.initialize_genetics_system s) <> []).
  { unfold Catalog.initialize_genetics_system.
    destruct (genes s) as [|g gs] eqn:Hgenes; [|rewrite Hgenes; discriminate].
    destruct (add_genes_frame Catalog.genetics_data s)
      as (_ & _ & _ & new_genes & new_alleles & Hg & Hlen & _).
    rewrite Hg, Hgenes. cbn [app].
    destruct new_genes; [discriminate Hlen | discriminate]. }
  split; [|split; [exact Hnonempty|]].
  - unfold Catalog.initialize_genetics_system at 1.
    destruct (genes (Catalog.initialize_genetics_system s));
      [contradiction | reflexivity].
  - unfold Catalog.initialize_genetics_system.
    destruct (genes s) as [|g gs] eqn:Hgenes.
    + destruct (add_genes_frame Catalog.genetics_data s)
        as (Hpg & Hp & Ho & new_genes & new_alleles & Hg & _ & Ha & Hall).
      split; [|auto]. exists new_genes, new_alleles.
      rewrite <- Hgenes. auto.
    + split; [|auto]. exists [], []. rewrite !app_nil_r.
      split; [exact Hgenes|]. split; [reflexivity | constructor].
Qed.

(** ** The random genetic code *)

Lemma choice_total {A : Type} (l : list A) (n : nat) :
  l <> [] -> exists x, BreedingEngine.choice l n = Ok x /\ x ∈ l.
Proof.
  intros Hl. unfold BreedingEngine.choice, index.
  destruct (l !! (n mod length l)%nat) as [x|] eqn:Hlook.
  - exists x. split; [reflexivity|].
    exact (list_elem_of_lookup_2 _ _ _ Hlook).
  - apply lookup_ge_None in Hlook.
    assert (length l <> 0%nat) by (destruct l; [contradiction | discriminate]).
    pose proof (Nat.mod_upper_bound n (length l) ltac:(assumption)). lia.
Qed.

Lemma generate_codes_entries (s : Session) (genes : list Gene) :
  Forall (fun g => Spec.delimiter_free (gene_name g) = true) genes ->
  Forall (fun a => Spec.one_char (symbol a)
                   && Spec.delimiter_free (symbol a) = true) (alleles s) ->
  forall draws : nat -> nat,
  exists entries,
    Generation.generate_codes s genes draws
      = Ok (map Spec.segment_of entries) /\
    Forall (fun e : Spec.entry =>
              Spec.well_formed e = true /\
              exists g a1 a2,
                g ∈ genes /\ a1 ∈ Generation.gene_alleles s g /\
                a2 ∈ Generation.gene_alleles s g /\
                e = (gene_name g, (symbol a1, symbol a2))) entries.
Proof.
  intros Hgenes Halleles. rewrite Forall_forall in Halleles.
  induction Hgenes as [|gene genes Hgene _ IH]; intros draws.
  - exists []. split; [reflexivity | constructor].
  - cbn [Generation.generate_codes].
    destruct (Generation.gene_alleles s gene) as [|a0 pool] eqn:Hpool.
    + destruct (IH draws) as (entries & Hrun & Hall).
      exists entries. split; [exact Hrun|].
      eapply Forall_impl; [exact Hall|].
      intros e (Hwf & g & a1 & a2 & Hg & H1 & H2 & He).
      split; [exact Hwf|]. exists g, a1, a2.
      split; [apply elem_of_cons; auto | auto].
    + destruct (choice_total (a0 :: pool) (draws 0%nat) ltac:(discriminate))
        as (a1 & Hc1 & H1).
      destruct (choice_total (a0 :: pool) (draws 1%nat) ltac:(discriminate))
        as (a2 & Hc2 & H2).
      rewrite Hc1, Hc2. cbn [mbind result_bind bind].
      destruct (IH (fun k => draws (S (S k)))) as (entries & Hrun & Hall).
      rewrite Hrun. cbn [mbind result_bind bind mret result_ret].
      exists ((gene_name gene, (symbol a1, symbol a2)) :: entries).
      split; [reflexivity|]. constructor.
      * rewrite <- Hpool in H1, H2.
        assert (Hin : forall a, a ∈ Generation.gene_alleles s gene ->
                        Spec.one_char (symbol a)
                        && Spec.delimiter_free (symbol a) = true).
        { intros a Hmem. apply Halleles.
          unfold Generation.gene_alleles in Hmem.
          apply list_elem_of_In, filter_In in Hmem as [Hmem _].
          apply list_elem_of_In. exact Hmem. }
        pose proof (Hin a1 H1) as Hs1. pose proof (Hin a2 H2) as Hs2.
        apply andb_true_iff in Hs1 as [Ho1 Hd1].
        apply andb_true_iff in Hs2 as [Ho2 Hd2].
        split.
        -- unfold Spec.well_formed, Spec.well_formed_as_claimed.
           cbn [fst snd]. rewrite Hgene, Ho1, Ho2, Hd1, Hd2. reflexivity.
        -- exists gene, a1, a2. split; [apply elem_of_cons; auto | auto].
      * eapply Forall_impl; [exact Hall|].
        intros e (Hwf & g & b1 & b2 & Hg & Hb1 & Hb2 & He).
        split; [exact Hwf|]. exists g, b1, b2.
        split; [apply elem_of_cons; auto | auto].
Qed.

(** X18.  In a catalogue whose gene names hold no delimiter and whose
    allele symbols are one character that is no delimiter,
    [generate_random_genetic_code] always returns a code that [decode]
    reads, and every gene the decoded mapping binds is the name of one of
    the first [num_genes] genes, bound to the symbols of two alleles of
    that gene. *)
Theorem generate_random_genetic_code_decodes (s : Session)
  (num_genes : nat) (draws : nat -> nat) :
  Laws.writable s = true ->
  exists code genotype,
    Generation.generate_random_genetic_code s num_genes draws = Ok code /\
    GeneticCode.decode code = Ok genotype /\
    forall (name a b : string),
      genotype !! name = Some (a, b) ->
      exists g a1 a2,
        g ∈ take num_genes (genes s) /\ gene_name g = name /\
        a1 ∈ Generation.gene_alleles s g /\
        a2 ∈ Generation.gene_alleles s g /\
        symbol a1 = a /\ symbol a2 = b.
Proof.
  intros Hw. unfold Laws.writable in Hw.
  apply andb_true_iff in Hw as [Hgenes Halleles].
  assert (Hg : Forall (fun g => Spec.delimiter_free (gene_name g) = true)
                      (take num_genes (genes s))).
  { apply Forall_forall. intros g Hin.
    apply elem_of_take in Hin as (i & Hin & _).
    apply list_elem_of_lookup_2, list_elem_of_In in Hin.
    exact (proj1 (forallb_forall _ _) Hgenes g Hin). }
  assert (Ha : Forall (fun a => Spec.one_char (symbol a)
                                && Spec.delimiter_free (symbol a) = true)
                      (alleles s)).
  { apply Forall_forall. intros a Hin. apply list_elem_of_In in Hin.
    exact (proj1 (forallb_forall _ _) Halleles a Hin). }
  destruct (generate_codes_entries s _ Hg Ha draws)
    as (entries & Hrun & Hall).
  exists (join ";" (map Spec.segment_of entries)),
         (list_to_map (reverse entries)).
  split; [|split].
  - unfold Generation.generate_random_genetic_code. cbv zeta.
    rewrite Hrun. cbn [mbind result_bind bind mret result_ret].
    destruct (map Spec.segment_of entries); reflexivity.
  - apply decode_encoded_entries.
    eapply Forall_impl; [exact Hall|]. intros e [Hwf _]. exact Hwf.
  - intros name a b Hlook.
    apply elem_of_list_to_map_2 in Hlook.
    rewrite elem_of_reverse in Hlook.
    rewrite Forall_forall in Hall.
    destruct (Hall _ Hlook) as (_ & g & a1 & a2 & Hin & H1 & H2 & Heq).
    injection Heq as -> -> ->. exists g, a1, a2. auto 10.
Qed.

Lemma generate_random_genetic_code_decodes_witness :
  Laws.writable Catalog.seeded = true /\
  exists code genotype,
    Generation.generate_random_genetic_code Catalog.seeded 5
      (fun k => k) = Ok code /\
    GeneticCode.decode code = Ok genotype /\
    forall (name a b : string),
      genotype !! name = Some (a, b) ->
      exists g a1 a2,
        g ∈ take 5 (genes Catalog.seeded) /\ gene_name g = name /\
        a1 ∈ Generation.gene_alleles Catalog.seeded g /\
        a2 ∈ Generation.gene_alleles Catalog.seeded g /\
        symbol a1 = a /\ symbol a2 = b.
Proof.
  assert (Hw : Laws.writable Catalog.seeded = true)
    by (vm_compute; reflexivity).
  split; [exact Hw|].
  exact (generate_random_genetic_code_decodes Catalog.seeded 5
           (fun k => k) Hw).
Defined.
